(** * httpheader: the Via, Warning, Forwarded and Allow parsers and builders

    A shallow embedding of [rfc7239.go] ([Forwarded], [buildForwarded]) and
    of the file that holds [Allow], [Via], [buildVia], [Warning] and
    [buildWarning].  Go strings are byte strings: [string] over [ascii].
    A Go slice that may be [nil] is a [slice]; a Go map that may be [nil]
    is an [option] of a [gmap]. *)

From Stdlib Require Import ZArith Ascii String DecimalString DecimalPos List.
From stdpp Require Import base option list strings gmap.

Local Open Scope Z_scope.

(** String concatenation computes under [simpl] here. *)
#[local] Arguments String.append !s1 s2 : simpl nomatch.

(** ** Go values *)

(** A Go slice: [nil], or a non-nil slice with its elements. *)
Inductive slice (A : Type) : Type :=
| nilSlice
| mkSlice (l : list A).
Arguments nilSlice {A}.
Arguments mkSlice {A} l.

Definition items {A} (s : slice A) : list A :=
  match s with nilSlice => [] | mkSlice l => l end.

Definition isNil {A} (s : slice A) : bool :=
  match s with nilSlice => true | mkSlice _ => false end.

(** [append(s, x)]: never nil. *)
Definition append {A} (s : slice A) (x : A) : slice A := mkSlice (items s ++ [x]).

(** [http.Header] is [map[string][]string]; indexing a missing key gives a
    slice of length 0. *)
Abbreviation Header := (gmap string (list string)).

Definition values (h : Header) (name : string) : list string :=
  default [] (h !! name).

(** ** Bytes *)

Definition isByte (a b : ascii) : bool := Ascii.eqb a b.
Arguments isByte : simpl never.

Definition isWS (c : ascii) : bool := isByte c " " || isByte c "009".

Definition isDigit (c : ascii) : bool :=
  let n := nat_of_ascii c in (48 <=? n)%nat && (n <=? 57)%nat.

Definition isDelim (c : ascii) : bool :=
  existsb (isByte c)
    (list_ascii_of_string "(),/:;<=>?@[\]{}" ++ ["034"%char]).

(** RFC 7230 [tchar]: visible ASCII that is not a delimiter. *)
Definition isTokenChar (c : ascii) : bool :=
  let n := nat_of_ascii c in
  (33 <=? n)%nat && (n <=? 126)%nat && negb (isDelim c).

(** Every byte of [s] satisfies [f]. *)
Fixpoint allBytes (f : ascii -> bool) (s : string) : bool :=
  match s with
  | EmptyString => true
  | String c s' => f c && allBytes f s'
  end.

Definition toLowerByte (c : ascii) : ascii :=
  let n := nat_of_ascii c in
  if (65 <=? n)%nat && (n <=? 90)%nat then ascii_of_nat (n + 32) else c.

(** A string of ASCII bytes: no byte is [0x80] or above. *)
Definition isASCII (s : string) : bool :=
  allBytes (fun c => (nat_of_ascii c <? 128)%nat) s.

(** [strings.ToLower] of Go's library, on ASCII text: when no byte of the
    string is [0x80] or above, Go turns the bytes [A]-[Z] into [a]-[z] and
    leaves the others.  On other strings Go decodes runes and maps them
    through its Unicode tables, which this function does not do: it is
    [strings.ToLower] where [isASCII] holds.  The text of a header is
    ASCII; where a caller's string meets [ToLower], the properties ask for
    [isASCII]. *)
Fixpoint ToLower (s : string) : string :=
  match s with
  | EmptyString => EmptyString
  | String c s' => String (toLowerByte c) (ToLower s')
  end.

(** [strings.ContainsRune(s, c)] for a one-byte rune. *)
Fixpoint ContainsRune (s : string) (c : ascii) : bool :=
  match s with
  | EmptyString => false
  | String d s' => isByte d c || ContainsRune s' c
  end.

(** [strings.TrimPrefix]. *)
Fixpoint stripPrefix (p s : string) : option string :=
  match p, s with
  | EmptyString, _ => Some s
  | String a p', String b s' => if isByte a b then stripPrefix p' s' else None
  | String _ _, EmptyString => None
  end.

Definition TrimPrefix (s p : string) : string := default s (stripPrefix p s).

(** The longest prefix whose bytes satisfy [f], and the rest. *)
Fixpoint span (f : ascii -> bool) (v : string) : string * string :=
  match v with
  | EmptyString => (EmptyString, EmptyString)
  | String c v' =>
      if f c then let '(a, b) := span f v' in (String c a, b)
      else (EmptyString, v)
  end.

(** A line of white space and commas only. *)
Definition isBlank (l : string) : bool :=
  allBytes (fun c => isWS c || isByte c ",") l.

(** ** Lexical scanner *)

(** Modelled from the spec: [peek] is not in the sources at hand.  The spec
    (4.1): "next byte without consuming", or none at the end of input. *)
Definition peek (v : string) : option ascii :=
  match v with
  | EmptyString => None
  | String c _ => Some c
  end.

Definition skipWS (v : string) : string := snd (span isWS v).

(** Modelled from the spec: [consume] is not in the sources at hand.  The
    spec (4.1): "consumes one byte if it equals expected"; no white space is
    skipped. *)
Definition consume (v : string) (c : ascii) : string * bool :=
  match v with
  | String d v' => if isByte d c then (v', true) else (v, false)
  | EmptyString => (v, false)
  end.

(** Modelled from the spec: [token] is not in the sources at hand.  The spec
    (4.1): "consumes the maximal run of RFC 7230 token characters". *)
Definition token (v : string) : string * string := span isTokenChar v.

(** Modelled from the spec: [chomp] is not in the sources at hand.  The spec
    (4.1): "consumes the maximal run of non-whitespace, non-comma bytes".
    [Via] reads two runs one after the other and then peeks for an opening
    parenthesis, so the white space that ends a run is dropped with it. *)
Definition chomp (v : string) : string * string :=
  let '(run, rest) := span (fun c => negb (isWS c || isByte c ",")) v in
  (run, skipWS rest).

(** The largest value of Go's [int], where it has 64 bits. *)
Definition maxInt : Z := 9223372036854775807.

(** Modelled from the spec: [number] is not in the sources at hand.  The spec
    (4.1): "consumes a maximal run of ASCII digits, returns -1 if none
    found".  The value is the decimal reading of the run.  Go returns an
    [int]: this is its value for a run that reads as [maxInt] at most, and
    the spec does not say what is returned for a longer one, so the
    properties that name a code keep to [maxInt]. *)
Definition number (v : string) : Z * string :=
  let '(ds, rest) := span isDigit v in
  match ds with
  | EmptyString => (-1, v)
  | _ => (match NilEmpty.uint_of_string ds with
          | Some d => Z.of_N (N.of_uint d)
          | None => -1
          end, rest)
  end.

(** The inside of a quoted string, after the opening quote: up to the first
    quote that no backslash precedes, [\X] read as [X]; and whether that
    closing quote was found. *)
Fixpoint quotedBody (v : string) : string * string * bool :=
  match v with
  | EmptyString => (EmptyString, EmptyString, false)
  | String c v' =>
      if isByte c "034" then (EmptyString, v', true)
      else if isByte c "\" then
        match v' with
        | EmptyString => (EmptyString, EmptyString, false)
        | String d v'' =>
            let '(t, r, ok) := quotedBody v'' in (String d t, r, ok)
        end
      else let '(t, r, ok) := quotedBody v' in (String c t, r, ok)
  end.

(** Modelled from the spec: [quoted] is not in the sources at hand.  The spec
    (4.1): "expects a double quote; on success, consumes up to the matching
    unescaped double quote, unescaping [\X] to [X]"; "an unterminated quoted
    string still yields its decoded interior"; without the opening quote
    nothing is scanned. *)
Definition quoted (v : string) : string * string :=
  match v with
  | String c v' =>
      if isByte c "034" then let '(t, r, _) := quotedBody v' in (t, r)
      else (EmptyString, v)
  | EmptyString => (EmptyString, v)
  end.

(** The inside of a comment at nesting [depth] (0 is the outermost). *)
Fixpoint commentBody (depth : nat) (v : string) : string * string :=
  match v with
  | EmptyString => (EmptyString, EmptyString)
  | String c v' =>
      if isByte c ")" then
        match depth with
        | O => (EmptyString, v')
        | S d => let '(t, r) := commentBody d v' in (String c t, r)
        end
      else if isByte c "(" then
        let '(t, r) := commentBody (S depth) v' in (String c t, r)
      else if isByte c "\" then
        match v' with
        | EmptyString => (EmptyString, EmptyString)
        | String d v'' =>
            let '(t, r) := commentBody depth v'' in (String d t, r)
        end
      else let '(t, r) := commentBody depth v' in (String c t, r)
  end.

(** Modelled from the spec: [comment] is not in the sources at hand.  The
    spec (4.1): "expects an opening parenthesis; matches to the corresponding
    closing one counting nested unescaped pairs, unescaping [\X] to [X]; an
    unterminated comment returns everything up to end of input as its
    body". *)
Definition comment (v : string) : string * string :=
  match v with
  | String c v' =>
      if isByte c "(" then commentBody 0 v' else (EmptyString, v)
  | EmptyString => (EmptyString, v)
  end.

(** ** Element iterator *)

(** The start of the next element on the line [v]: white space is passed
    over, a comma ends the element the cursor is in, and while the cursor is
    still inside that element ([orig]) its bytes are passed over too. *)
Fixpoint nextInLine (orig : bool) (v : string) : option string :=
  match v with
  | EmptyString => None
  | String c v' =>
      if isByte c "," then nextInLine false v'
      else if isWS c then nextInLine orig v'
      else if orig then nextInLine true v'
      else Some v
  end.

(** The first element of the lines that remain; [None] is Go's nil slice,
    the mark that no line is left. *)
Fixpoint nextInLines (vs : list string) : string * option (list string) :=
  match vs with
  | [] => (EmptyString, None)
  | l :: vs' =>
      match nextInLine false l with
      | Some v => (v, Some vs')
      | None => nextInLines vs'
      end
  end.

(** Modelled from the spec: [iterElems] is not in the sources at hand.  The
    spec (4.2): it "operates across the ordered sequence of physical lines",
    "skips leading whitespace and any run of commas/whitespace with no
    content between them", "terminates an element at the next un-skipped
    top-level comma or at end of the current line, then continues scanning
    into the next physical line", and "returns a nil/sentinel no-more-lines
    marker".  The cursor it is given is what the parser left of the current
    element; what it returns is the rest of the line from the first byte of
    the next element on. *)
Definition iterElems (v : string) (vs : list string)
  : string * option (list string) :=
  match nextInLine true v with
  | Some v' => (v', Some vs)
  | None => nextInLines vs
  end.

(** Modelled from the spec: [toNextElem] is not in the sources at hand; it is
    the name under which [Allow], [Via] and [Warning] call the element
    iterator of the spec (4.2). *)
Definition toNextElem := iterElems.

(** The loop that every parser is written around,
    [for v, vs := iter("", lines); vs != nil; v, vs = iter(v, vs) { body }]:
    [body] gives the entry the pass appends ([None] when the pass ends in
    [continue]) and the cursor it leaves.  [fuel] bounds the passes. *)
Section ElemLoop.
Context {E : Type}.
Variable iter : string -> list string -> string * option (list string).
Variable body : string -> option E * string.

Definition appendOpt (acc : slice E) (oe : option E) : slice E :=
  match oe with
  | Some e => append acc e
  | None => acc
  end.

Fixpoint elemLoop (fuel : nat) (v : string) (vs : option (list string))
    (acc : slice E) : option (slice E) :=
  match vs with
  | None => Some acc
  | Some ls =>
      match fuel with
      | O => None
      | S n =>
          let '(oe, v1) := body v in
          let '(v2, vs2) := iter v1 ls in
          elemLoop n v2 vs2 (appendOpt acc oe)
      end
  end.

(** Passes never outnumber the bytes and lines of the header. *)
Definition budget (lines : list string) : nat :=
  S (foldr (fun l n => S (String.length l + n)) O lines).

Definition parseElems (lines : list string) : slice E :=
  let '(v, vs) := iter EmptyString lines in
  default nilSlice (elemLoop (budget lines) v vs nilSlice).
End ElemLoop.

(** What the passes append, in order, as a list: [elemLoop] without the
    accumulator. *)
Section Collect.
Context {E : Type}.
Variable iter : string -> list string -> string * option (list string).
Variable body : string -> option E * string.

Fixpoint collect (fuel : nat) (v : string) (vs : option (list string))
  : option (list E) :=
  match vs with
  | None => Some []
  | Some ls =>
      match fuel with
      | O => None
      | S n =>
          let '(oe, v1) := body v in
          let '(v2, vs2) := iter v1 ls in
          match collect n v2 vs2 with
          | Some es => Some (option_list oe ++ es)
          | None => None
          end
      end
  end.
End Collect.

(** [append]ing the entries [es] to [acc] one by one. *)
Definition appendList {E} (acc : slice E) (es : list E) : slice E :=
  match es with
  | [] => acc
  | _ => mkSlice (items acc ++ es)
  end.

(** A cursor and the lines after it, in bytes and lines: what the loop has
    left to read. *)
Definition weight (v : string) (ls : list string) : nat :=
  (String.length v + foldr (fun l n => S (String.length l + n)) O ls)%nat.

Definition isEmpty (s : string) : bool :=
  match s with EmptyString => true | _ => false end.

Definition dropByte (v : string) : string :=
  match v with EmptyString => EmptyString | String _ v' => v' end.

Definition peekIs (v : string) (c : ascii) : bool :=
  match peek v with Some d => isByte d c | None => false end.

(** ** Allow *)

Definition parseAllowElem (v : string) : option string * string :=
  let '(tok, v) := token v in
  (if isEmpty tok then None else Some tok, v).

Definition Allow (h : Header) : slice string :=
  let methods := parseElems toNextElem parseAllowElem (values h "Allow") in
  if isNil methods && (0 <? length (values h "Allow"))%nat
  then mkSlice [] else methods.

(** ** Via *)

Record ViaEntry : Type := mkViaEntry {
  ReceivedProto : string;
  ReceivedBy : string;
  Comment : string
}.

Definition parseViaElem (v : string) : option ViaEntry * string :=
  let '(proto, v) := chomp v in
  if isEmpty proto then (None, v)
  else
    let proto :=
      if negb (ContainsRune proto "/") then "HTTP/" +:+ proto else proto in
    let '(rby, v) := chomp v in
    if isEmpty rby then (None, v)
    else if peekIs v "(" then
      let '(c, v) := comment v in (Some (mkViaEntry proto rby c), v)
    else (Some (mkViaEntry proto rby EmptyString), v).

Definition Via (h : Header) : slice ViaEntry :=
  parseElems toNextElem parseViaElem (values h "Via").

Definition writeString (b s : string) : string := b +:+ s.

(** [text] with a backslash put before every [opener], [closer] and
    backslash. *)
Fixpoint escape (opener closer : ascii) (text : string) : string :=
  match text with
  | EmptyString => EmptyString
  | String c t =>
      if isByte c opener || isByte c closer || isByte c "\"
      then String "\" (String c (escape opener closer t))
      else String c (escape opener closer t)
  end.

(** Modelled from the spec: [writeDelimited] is not in the sources at hand.
    The spec (4.4): the text "wrapped in" the two delimiters, with the
    delimiters and the backslash escaped.  The builder [b] is the text
    written so far. *)
Definition writeDelimited (b text : string) (opener closer : ascii) : string :=
  b +:+ String opener (escape opener closer text +:+ String closer EmptyString).

(** [for i, x := range l { b = f b i x }], from index [i] on. *)
Fixpoint rangeFrom {A} (f : string -> nat -> A -> string) (i : nat)
    (l : list A) (b : string) : string :=
  match l with
  | [] => b
  | x :: l' => rangeFrom f (S i) l' (f b i x)
  end.

Definition buildViaEntry (b : string) (i : nat) (entry : ViaEntry) : string :=
  let b := if (0 <? i)%nat then writeString b ", " else b in
  let b := writeString b (TrimPrefix (ReceivedProto entry) "HTTP/") in
  let b := writeString b " " in
  let b := writeString b (ReceivedBy entry) in
  if negb (isEmpty (Comment entry))
  then writeDelimited (writeString b " ") (Comment entry) "(" ")"
  else b.

Definition buildVia (entries : list ViaEntry) : string :=
  rangeFrom buildViaEntry 0 entries EmptyString.

(** [h.Set(name, value)]. *)
Definition Set_ (h : Header) (name value : string) : Header :=
  <[name := [value]]> h.

Definition SetVia (h : Header) (entries : list ViaEntry) : Header :=
  Set_ h "Via" (buildVia entries).

(** ** Forwarded *)

Record ForwardedElem : Type := mkForwardedElem {
  By : string;
  For : string;
  Host : string;
  Proto : string;
  Ext : option (gmap string string)
}.

(** Go's zero value, [var elem ForwardedElem]. *)
Definition zeroElem : ForwardedElem :=
  mkForwardedElem EmptyString EmptyString EmptyString EmptyString None.

(** Modelled from the spec: [consumeItem] is not in the sources at hand.  The
    spec (4.3, Forwarded) reads "a token name" and "a plain token as the
    value": the scanner's token. *)
Definition consumeItem (v : string) : string * string := token v.

(** Modelled from the spec: [consumeQuoted] is not in the sources at hand.
    It is the quoted-string reading of the spec (4.1) with, as third
    result, whether the string was terminated.  The sources call it with
    [true] only; the model does not look at that argument. *)
Definition consumeQuoted (v : string) (unquote : bool)
  : string * string * bool :=
  match v with
  | String c v' =>
      if isByte c "034" then quotedBody v' else (EmptyString, v, false)
  | EmptyString => (EmptyString, v, false)
  end.

(** The [switch name] of [Forwarded]. *)
Definition setParam (name value : string) (elem : ForwardedElem)
  : ForwardedElem :=
  if String.eqb name "for" then
    mkForwardedElem (By elem) value (Host elem) (Proto elem) (Ext elem)
  else if String.eqb name "by" then
    mkForwardedElem value (For elem) (Host elem) (Proto elem) (Ext elem)
  else if String.eqb name "host" then
    mkForwardedElem (By elem) (For elem) value (Proto elem) (Ext elem)
  else if String.eqb name "proto" then
    mkForwardedElem (By elem) (For elem) (Host elem) (ToLower value) (Ext elem)
  else
    mkForwardedElem (By elem) (For elem) (Host elem) (Proto elem)
      (Some (<[name := value]> (default ∅ (Ext elem)))).

(** The inner [for { ... }] of [Forwarded]: the pairs of one element.
    [None] when [fuel] passes were not enough. *)
Fixpoint scanPairs (fuel : nat) (v : string) (elem : ForwardedElem)
  : option (ForwardedElem * string) :=
  match fuel with
  | O => None
  | S n =>
      let '(name, v) := consumeItem v in
      let name := ToLower name in
      if isEmpty name then
        if peekIs v ";" then scanPairs n (dropByte v) elem
        else Some (elem, v)
      else if negb (peekIs v "=") then Some (elem, v)
      else
        let v := dropByte v in
        if peekIs v "034" then
          let '(value, v, ok) := consumeQuoted v true in
          if negb ok then Some (elem, v)
          else scanPairs n v (setParam name value elem)
        else
          let '(value, v) := consumeItem v in
          scanPairs n v (setParam name value elem)
  end.

(** Every pass but the last reads a byte at least, so there are no more
    passes than bytes and one. *)
Definition scanAll (v : string) (elem : ForwardedElem)
  : option (ForwardedElem * string) :=
  scanPairs (S (String.length v)) v elem.

(** One pass of the outer loop: always appends. *)
Definition parseForwardedElem (v : string) : option ForwardedElem * string :=
  match scanAll v zeroElem with
  | Some (elem, v') => (Some elem, v')
  | None => (Some zeroElem, v)
  end.

Definition Forwarded (h : Header) : slice ForwardedElem :=
  parseElems iterElems parseForwardedElem (values h "Forwarded").

(** Modelled from the spec: [writeParam] is not in the sources at hand.  The
    spec (4.4, Forwarded): "name=value, quoting the value if it contains
    characters outside the token grammar", "pairs separated by" a semicolon.
    It returns the builder and [true]. *)
Definition writeParam (b : string) (wrote : bool) (name value : string)
  : string * bool :=
  let b := if wrote then writeString b ";" else b in
  let b := writeString (writeString b name) "=" in
  (if allBytes isTokenChar value
   then writeString b value
   else writeDelimited b value "034" "034", true).

(** [range] gives the order in which Go walks the map of the element; a
    nil map is walked in no step. *)
Definition buildForwardedElem
    (range : gmap string string -> list (string * string))
    (b : string) (i : nat) (elem : ForwardedElem) : string :=
  let b := if (0 <? i)%nat then writeString b ", " else b in
  let st := (b, false) in
  let st := if negb (isEmpty (For elem))
            then writeParam (fst st) (snd st) "for" (For elem) else st in
  let st := if negb (isEmpty (By elem))
            then writeParam (fst st) (snd st) "by" (By elem) else st in
  let st := if negb (isEmpty (Host elem))
            then writeParam (fst st) (snd st) "host" (Host elem) else st in
  let st := if negb (isEmpty (Proto elem))
            then writeParam (fst st) (snd st) "proto" (Proto elem) else st in
  fst (foldl (fun st nv => writeParam (fst st) (snd st) (fst nv) (snd nv)) st
         (match Ext elem with Some m => range m | None => [] end)).

Definition buildForwarded
    (range : gmap string string -> list (string * string))
    (elems : list ForwardedElem) : string :=
  rangeFrom (buildForwardedElem range) 0 elems EmptyString.

Definition SetForwarded
    (range : gmap string string -> list (string * string))
    (h : Header) (elems : list ForwardedElem) : Header :=
  Set_ h "Forwarded" (buildForwarded range elems).

(** ** Time *)

(** [time.Time], [http.ParseTime] and [Time.Format(http.TimeFormat)] belong
    to Go's library.  The parsers and builders below take them as an
    interface ([Section WithTime]); [HTTPDate] is an instance to run them
    with, on calendar fields in UTC to the second.  [FormatTime] writes
    the layout [http.TimeFormat], as in [Sat, 06 Jul 2019 05:45:48 GMT].
    [ParseTime] tries the three layouts that [http.ParseTime] tries, in
    its order: [http.TimeFormat], [time.RFC850] and [time.ANSIC]; it reads
    them with the field widths, the letter case and the runs of spaces
    that Go's parser allows.  It refuses what the fields of [Time] cannot
    hold and Go accepts: fractions of a second, zone names other than [GMT]
    and [UTC], a sign in a two-digit year. *)
Module HTTPDate.

Record Time : Type := mkTime {
  year : nat; month : nat; day : nat;
  hour : nat; minute : nat; second : nat
}.

(** [time.Time{}]: January 1, year 1, 00:00:00 UTC. *)
Definition zeroTime : Time := mkTime 1 1 1 0 0 0.

Definition IsZero (t : Time) : bool :=
  (year t =? 1)%nat && (month t =? 1)%nat && (day t =? 1)%nat &&
  (hour t =? 0)%nat && (minute t =? 0)%nat && (second t =? 0)%nat.

Definition dayNames : list string :=
  ["Sun"; "Mon"; "Tue"; "Wed"; "Thu"; "Fri"; "Sat"].

Definition longDayNames : list string :=
  ["Sunday"; "Monday"; "Tuesday"; "Wednesday"; "Thursday"; "Friday";
   "Saturday"].

Definition monthNames : list string :=
  ["Jan"; "Feb"; "Mar"; "Apr"; "May"; "Jun";
   "Jul"; "Aug"; "Sep"; "Oct"; "Nov"; "Dec"].

Definition isLeap (y : nat) : bool :=
  ((y mod 4 =? 0) && negb (y mod 100 =? 0) || (y mod 400 =? 0))%nat.

Definition daysIn (m y : nat) : nat :=
  match m with
  | 2 => if isLeap y then 29 else 28
  | 4 | 6 | 9 | 11 => 30
  | _ => 31
  end%nat.

(** Day of the week, 0 for Sunday. *)
Definition weekday (t : Time) : nat :=
  let y := (if (month t <? 3)%nat then year t - 1 else year t)%nat in
  let k := nth (month t - 1) [0; 3; 2; 5; 0; 3; 5; 1; 4; 6; 2; 4]%nat O in
  ((y + y / 4 - y / 100 + y / 400 + k + day t) mod 7)%nat.

Definition digit (n : nat) : string :=
  String (ascii_of_nat (48 + n mod 10)) EmptyString.

Definition pad2 (n : nat) : string := digit (n / 10) +:+ digit n.

Definition pad4 (n : nat) : string := pad2 (n / 100) +:+ pad2 (n mod 100).

Definition FormatTime (t : Time) : string :=
  nth (weekday t) dayNames EmptyString +:+ ", " +:+ pad2 (day t) +:+ " "
  +:+ nth (month t - 1) monthNames EmptyString +:+ " " +:+ pad4 (year t)
  +:+ " " +:+ pad2 (hour t) +:+ ":" +:+ pad2 (minute t) +:+ ":"
  +:+ pad2 (second t) +:+ " GMT".

(** [n] digits, read as a number. *)
Fixpoint readDigits (n acc : nat) (v : string) : option (nat * string) :=
  match n with
  | O => Some (acc, v)
  | S n' =>
      match v with
      | String c v' =>
          if isDigit c
          then readDigits n' (10 * acc + (nat_of_ascii c - 48))%nat v'
          else None
      | EmptyString => None
      end
  end.

(** Two digits, or one digit when the field is not of [fixed] width and no
    second digit follows. *)
Definition readNum (fixed : bool) (v : string) : option (nat * string) :=
  match readDigits 2 0 v with
  | Some r => Some r
  | None => if fixed then None else readDigits 1 0 v
  end.

(** [v] without the prefix [p], letters compared without regard to case. *)
Fixpoint stripPrefixFold (p v : string) : option string :=
  match p, v with
  | EmptyString, _ => Some v
  | String a p', String b v' =>
      if isByte (toLowerByte a) (toLowerByte b) then stripPrefixFold p' v'
      else None
  | String _ _, EmptyString => None
  end.

(** The index of the first of [names] that [v] starts with. *)
Fixpoint readName (names : list string) (i : nat) (v : string)
  : option (nat * string) :=
  match names with
  | [] => None
  | n :: names' =>
      match stripPrefixFold n v with
      | Some v' => Some (i, v')
      | None => readName names' (S i) v
      end
  end.

(** A space of the layout stands for a run of spaces of the text, or for
    the end of the text. *)
Definition readSpace (v : string) : option string :=
  match v with
  | EmptyString => Some v
  | String c _ =>
      if isByte c " " then Some (snd (span (fun d => isByte d " ") v))
      else None
  end.

(** The zone of a time in UTC. *)
Definition readZone (v : string) : option string :=
  match stripPrefix "GMT" v with
  | Some v' => Some v'
  | None => stripPrefix "UTC" v
  end.

(** The clock [15:04:05] of the three layouts. *)
Definition readClock (v : string) : option (nat * nat * nat * string) :=
  '(hh, v) ← readNum false v;
  v ← stripPrefix ":" v;
  '(mm, v) ← readNum true v;
  v ← stripPrefix ":" v;
  '(ss, v) ← readNum true v;
  Some (hh, mm, ss, v).

(** The time of the fields read, when no text is left and each field is in
    its range. *)
Definition checkDate (y m d hh mm ss : nat) (v : string) : option Time :=
  if isEmpty v && (1 <=? d)%nat && (d <=? daysIn m y)%nat && (hh <? 24)%nat
     && (mm <? 60)%nat && (ss <? 60)%nat
  then Some (mkTime y m d hh mm ss) else None.

(** [http.TimeFormat], [Mon, 02 Jan 2006 15:04:05 GMT]: the fixed HTTP
    date format. *)
Definition parseTimeFormat (text : string) : option Time :=
  '(_, v) ← readName dayNames 0 text;
  v ← stripPrefix "," v;
  v ← readSpace v;
  '(d, v) ← readNum true v;
  v ← readSpace v;
  '(m, v) ← readName monthNames 1 v;
  v ← readSpace v;
  '(y, v) ← readDigits 4 0 v;
  v ← readSpace v;
  '(hh, mm, ss, v) ← readClock v;
  v ← readSpace v;
  v ← stripPrefix "GMT" v;
  checkDate y m d hh mm ss v.

(** [time.RFC850], [Monday, 02-Jan-06 15:04:05 MST]; a two-digit year from
    69 on is of the 1900s. *)
Definition parseRFC850 (text : string) : option Time :=
  '(_, v) ← readName longDayNames 0 text;
  v ← stripPrefix "," v;
  v ← readSpace v;
  '(d, v) ← readNum true v;
  v ← stripPrefix "-" v;
  '(m, v) ← readName monthNames 1 v;
  v ← stripPrefix "-" v;
  '(yy, v) ← readDigits 2 0 v;
  v ← readSpace v;
  '(hh, mm, ss, v) ← readClock v;
  v ← readSpace v;
  v ← readZone v;
  checkDate (if (69 <=? yy)%nat then 1900 + yy else 2000 + yy)%nat
    m d hh mm ss v.

(** [time.ANSIC], [Mon Jan _2 15:04:05 2006]. *)
Definition parseANSIC (text : string) : option Time :=
  '(_, v) ← readName dayNames 0 text;
  v ← readSpace v;
  '(m, v) ← readName monthNames 1 v;
  v ← readSpace v;
  '(d, v) ← readNum false v;
  v ← readSpace v;
  '(hh, mm, ss, v) ← readClock v;
  v ← readSpace v;
  '(y, v) ← readDigits 4 0 v;
  checkDate y m d hh mm ss v.

(** [http.ParseTime]: the first of the three layouts that the text
    matches. *)
Definition ParseTime (text : string) : option Time :=
  match parseTimeFormat text with
  | Some t => Some t
  | None =>
      match parseRFC850 text with
      | Some t => Some t
      | None => parseANSIC text
      end
  end.

End HTTPDate.

(** ** Warning *)

(** [strconv.Itoa]. *)
Definition Itoa (n : Z) : string :=
  match n with
  | Z0 => "0"
  | Zpos p => NilEmpty.string_of_uint (Pos.to_uint p)
  | Zneg p => String "-" (NilEmpty.string_of_uint (Pos.to_uint p))
  end.

Section WithTime.

Variable Time : Type.
Variable zeroTime : Time.
(** [http.ParseTime]: [None] is a non-nil error, and Go then hands back the
    zero time. *)
Variable ParseTime : string -> option Time.
Variable FormatTime : Time -> string.
Variable IsZero : Time -> bool.

Record WarningEntry : Type := mkWarningEntry {
  Code : Z;
  Agent : string;
  Text : string;
  Date : Time
}.

Definition parseWarningElem (v : string) : option WarningEntry * string :=
  let '(code, v) := number v in
  if (code =? -1)%Z then (None, v)
  else
    let '(v, ok) := consume v " " in
    if negb ok then (None, v)
    else
      let '(agent, v) := chomp v in
      if isEmpty agent then (None, v)
      else
        let '(text, v) := quoted v in
        let '(v, ok) := consume v " " in
        if ok then
          let '(dateStr, v) := quoted v in
          (Some (mkWarningEntry code agent text
                   (default zeroTime (ParseTime dateStr))), v)
        else (Some (mkWarningEntry code agent text zeroTime), v).

Definition Warning (h : Header) : slice WarningEntry :=
  parseElems toNextElem parseWarningElem (values h "Warning").

Definition buildWarningEntry (b : string) (i : nat) (entry : WarningEntry)
  : string :=
  let b := if (0 <? i)%nat then writeString b ", " else b in
  let b := writeString b (Itoa (Code entry)) in
  let b := writeString b " " in
  let b := writeString b (Agent entry) in
  let b := writeString b " " in
  let b := writeDelimited b (Text entry) "034" "034" in
  if negb (IsZero (Date entry)) then
    let b := writeString b (String " " (String "034" EmptyString)) in
    let b := writeString b (FormatTime (Date entry)) in
    writeString b (String "034" EmptyString)
  else b.

Definition buildWarning (entries : list WarningEntry) : string :=
  rangeFrom buildWarningEntry 0 entries EmptyString.

Definition SetWarning (h : Header) (entries : list WarningEntry) : Header :=
  Set_ h "Warning" (buildWarning entries).

End WithTime.

Arguments mkWarningEntry {Time} Code Agent Text Date.
Arguments Code {Time} w.
Arguments Agent {Time} w.
Arguments Text {Time} w.
Arguments Date {Time} w.
Arguments parseWarningElem {Time} zeroTime ParseTime v.
Arguments Warning {Time} zeroTime ParseTime h.
Arguments buildWarningEntry {Time} FormatTime IsZero b i entry.
Arguments buildWarning {Time} FormatTime IsZero entries.
Arguments SetWarning {Time} FormatTime IsZero h entries.

(** ** Vocabulary of the properties *)

(** The header [name] is not in the map. *)
Definition absent (h : Header) (name : string) : Prop := h !! name = None.

(** The header [name] is in the map, with at least one line, and its lines
    hold white space and commas only. *)
Definition presentBlank (h : Header) (name : string) : Prop :=
  exists lines, h !! name = Some lines /\ lines <> [] /\
                Forall (fun l => isBlank l = true) lines.

(** The scan stops before [s]: [s] is empty or its first byte fails [f]. *)
Definition headFails (f : ascii -> bool) (s : string) : bool :=
  match s with
  | EmptyString => true
  | String c _ => negb (f c)
  end.

(** [t] is what is left of [v] after some bytes were read. *)
Definition isSuffix (t v : string) : Prop := exists p, v = p +:+ t.

(** The byte [c] does not occur in [s]. *)
Definition noByte (c : ascii) (s : string) : bool :=
  allBytes (fun d => negb (isByte d c)) s.

(** [strings.Join(lines, ", ")]. *)
Fixpoint joinLines (lines : list string) : string :=
  match lines with
  | [] => EmptyString
  | [l] => l
  | l :: ls => l +:+ ", " +:+ joinLines ls
  end.

(** The header map [h] with [lines] as the lines of the header [name]. *)
Definition setLines (h : Header) (name : string) (lines : list string)
  : Header :=
  <[name := lines]> h.

(** ** Wire text of Via entries *)

(** A non-empty run without white space or comma: what [chomp] reads
    whole. *)
Definition isWord (s : string) : bool :=
  negb (isEmpty s) && allBytes (fun c => negb (isWS c || isByte c ",")) s.

(** What [buildVia] writes for one entry. *)
Definition viaText (e : ViaEntry) : string :=
  TrimPrefix (ReceivedProto e) "HTTP/" +:+ " " +:+ ReceivedBy e
  +:+ (if isEmpty (Comment e) then EmptyString
       else String " " (String "(" (escape "(" ")" (Comment e) +:+ ")"))).

(** The entries that [Via] gives back as they are: the protocol written
    (the field without a leading [HTTP/]) and the received-by are non-empty
    runs without white space or comma, and the protocol field is what the
    parser makes of the protocol written. *)
Definition wfViaEntry (e : ViaEntry) : bool :=
  let p := TrimPrefix (ReceivedProto e) "HTTP/" in
  isWord p && isWord (ReceivedBy e)
  && String.eqb (ReceivedProto e)
       (if ContainsRune p "/" then p else "HTTP/" +:+ p).


(** ** Wire text of Warning entries *)

(** [text] between double quotes, escaped: what [writeDelimited] adds. *)
Definition quotedText (text : string) : string :=
  String "034" (escape "034" "034" text +:+ String "034" EmptyString).

(** A Warning element on the wire: code, agent, quoted text and, when
    [date] is given, a quoted date string. *)
Definition warningWire (code : Z) (agent text : string) (date : option string)
  : string :=
  Itoa code +:+ " " +:+ agent +:+ " " +:+ quotedText text
  +:+ match date with
      | Some d => " " +:+ quotedText d
      | None => EmptyString
      end.

(** The entry with the zero time as date. *)
Definition withZeroDate {Time} (zeroTime : Time) (e : WarningEntry Time)
  : WarningEntry Time :=
  mkWarningEntry (Code e) (Agent e) (Text e) zeroTime.

(** What [buildWarning] writes for one entry. *)
Definition warningText {Time} (FormatTime : Time -> string)
    (IsZero : Time -> bool) (e : WarningEntry Time) : string :=
  Itoa (Code e) +:+ " " +:+ Agent e +:+ " " +:+ quotedText (Text e)
  +:+ (if IsZero (Date e) then EmptyString
       else String " " (String "034" (FormatTime (Date e) +:+ String "034" ""))).

(** The entries that [Warning] gives back as they are: the code is not
    negative, the agent is a non-empty run without white space or comma,
    and the date is the zero time when [IsZero] says so and otherwise a time
    that Go's library formats without double quote or backslash and parses
    back from that text. *)
Definition wfWarningEntry {Time} (zeroTime : Time)
    (ParseTime : string -> option Time) (FormatTime : Time -> string)
    (IsZero : Time -> bool) (e : WarningEntry Time) : Prop :=
  0 <= Code e /\ isWord (Agent e) = true /\
  (if IsZero (Date e) then Date e = zeroTime
   else ParseTime (FormatTime (Date e)) = Some (Date e) /\
        noByte "034" (FormatTime (Date e)) = true /\
        noByte "\" (FormatTime (Date e)) = true).


(** ** Wire text of Forwarded pairs *)

(** A parameter name: a non-empty token. *)
Definition isName (n : string) : bool :=
  negb (isEmpty n) && allBytes isTokenChar n.

(** What [writeParam] writes for a value: the value itself when it is made
    of token bytes, the value quoted and escaped otherwise. *)
Definition valueText (value : string) : string :=
  if allBytes isTokenChar value then value
  else String "034" (escape "034" "034" value +:+ String "034" EmptyString).

Definition pairText (nv : string * string) : string :=
  fst nv +:+ "=" +:+ valueText (snd nv).

(** Pairs with a semicolon between them. *)
Fixpoint joinPairs (ps : list (string * string)) : string :=
  match ps with
  | [] => EmptyString
  | [p] => pairText p
  | p :: ps' => pairText p +:+ ";" +:+ joinPairs ps'
  end.

(** Pairs with a semicolon after each, and then [tail]. *)
Fixpoint seqPairs (ps : list (string * string)) (tail : string) : string :=
  match ps with
  | [] => tail
  | p :: ps' => pairText p +:+ ";" +:+ seqPairs ps' tail
  end.

(** The assignments of the pairs, first to last, names lowercased as the
    parser does. *)
Definition setParams (ps : list (string * string)) (elem : ForwardedElem)
  : ForwardedElem :=
  foldl (fun e nv => setParam (ToLower (fst nv)) (snd nv) e) elem ps.

(** The value of the last pair named [name] (lowercased) in [ps]; [d] when
    there is none. *)
Definition lastValue (name : string) (ps : list (string * string))
    (d : string) : string :=
  foldl (fun acc nv =>
           if String.eqb (ToLower (fst nv)) name then snd nv else acc) d ps.

(** Where an element, or its last pair, ends: at the end of the line or at
    a comma. *)
Definition atElemEnd (v : string) : bool :=
  match v with
  | EmptyString => true
  | String c _ => isByte c ","
  end.

(** The extension map of [e] has none of the four standard names as key. *)
Definition extHasNoStandardKey (e : ForwardedElem) : Prop :=
  forall m, Ext e = Some m ->
    m !! "for" = None /\ m !! "by" = None /\
    m !! "host" = None /\ m !! "proto" = None.


(** The pairs [buildForwarded] writes for an element, in the order it
    writes them: the standard fields that are not empty, then the
    extension map as [range] walks it. *)
Definition stdPairs (e : ForwardedElem) : list (string * string) :=
  (if isEmpty (For e) then [] else [("for", For e)])
  ++ (if isEmpty (By e) then [] else [("by", By e)])
  ++ (if isEmpty (Host e) then [] else [("host", Host e)])
  ++ (if isEmpty (Proto e) then [] else [("proto", Proto e)]).

Definition extPairs (range : gmap string string -> list (string * string))
    (e : ForwardedElem) : list (string * string) :=
  match Ext e with
  | Some m => range m
  | None => []
  end.

Definition elemPairs (range : gmap string string -> list (string * string))
    (e : ForwardedElem) : list (string * string) :=
  stdPairs e ++ extPairs range e.

(** What [buildForwarded] writes for one element. *)
Definition forwardedText (range : gmap string string -> list (string * string))
    (e : ForwardedElem) : string :=
  joinPairs (elemPairs range e).

(** An extension name that comes back as it is: a non-empty token in
    lower case that is none of the four standard names. *)
Definition isExtName (n : string) : bool :=
  isName n && String.eqb (ToLower n) n
  && negb (String.eqb n "for") && negb (String.eqb n "by")
  && negb (String.eqb n "host") && negb (String.eqb n "proto").

(** The elements that [Forwarded] gives back as they are: [Proto] is ASCII
    text in lower case; the extension map is nil or not empty, and its keys
    are extension names; some pair is written for the element; and [range]
    walks the map over each of its pairs once. *)
Definition wfForwardedElem
    (range : gmap string string -> list (string * string))
    (e : ForwardedElem) : Prop :=
  (isASCII (Proto e) = true /\ ToLower (Proto e) = Proto e) /\
  elemPairs range e <> [] /\
  match Ext e with
  | None => True
  | Some m =>
      m <> ∅ /\ range m ≡ₚ map_to_list m /\
      (forall n v, m !! n = Some v -> isExtName n = true)
  end.


(** ** Counting elements *)

(** The pieces of a line between its commas. *)
Fixpoint splitComma (v : string) : list string :=
  match v with
  | EmptyString => [EmptyString]
  | String c v' =>
      if isByte c "," then EmptyString :: splitComma v'
      else match splitComma v' with
           | p :: ps => String c p :: ps
           | [] => [String c EmptyString]
           end
  end.

(** The number of comma-separated pieces of a line that hold more than
    white space: its non-empty elements. *)
Definition countElems (line : string) : nat :=
  length (List.filter (fun p => negb (allBytes isWS p)) (splitComma line)).

(** The cursors at which the passes of the loop around [body] start: the
    elements of the header as the iterator delimits them. *)
Definition elemCursors {E} (body : string -> option E * string)
    (lines : list string) : list string :=
  items (parseElems iterElems (fun v => (Some v, snd (body v))) lines).


(** ** Comments and quoted strings that end

    What the scanner reads of an element does not depend on the text that
    follows the element when the comment or the quoted strings it reads
    are terminated.  The checks below follow the parsers over an element
    and say whether that is so. *)

(** The comment whose inside starts at [v], at nesting [depth], has its
    closing parenthesis in [v]. *)
Fixpoint commentCloses (depth : nat) (v : string) : bool :=
  match v with
  | EmptyString => false
  | String c v' =>
      if isByte c ")" then
        match depth with
        | O => true
        | S d => commentCloses d v'
        end
      else if isByte c "(" then commentCloses (S depth) v'
      else if isByte c "\" then
        match v' with
        | EmptyString => false
        | String _ v'' => commentCloses depth v''
        end
      else commentCloses depth v'
  end.

(** A quoted string that opens at [v] has its closing quote in [v]; none
    opens where [v] does not start with a double quote. *)
Definition quotedCloses (v : string) : bool :=
  match v with
  | String c v' => if isByte c "034" then snd (quotedBody v') else true
  | EmptyString => true
  end.

(** The comment that [Via] reads in the element at [v], if it reads one,
    is terminated. *)
Definition viaElemClosed (v : string) : bool :=
  let '(proto, v) := chomp v in
  if isEmpty proto then true
  else
    let '(rby, v) := chomp v in
    if isEmpty rby then true
    else if peekIs v "(" then commentCloses 0 (dropByte v) else true.

(** The quoted strings that [Warning] reads in the element at [v], its
    text and its date, are terminated. *)
Definition warningElemClosed (v : string) : bool :=
  let '(code, v) := number v in
  if (code =? -1)%Z then true
  else
    let '(v, ok) := consume v " " in
    if negb ok then true
    else
      let '(agent, v) := chomp v in
      if isEmpty agent then true
      else
        quotedCloses v &&
        let '(_, v) := quoted v in
        let '(v, ok) := consume v " " in
        if ok then quotedCloses v else true.

(** The quoted values that the inner loop of [Forwarded] reads from [v] on
    are terminated; [fuel] bounds the passes as in [scanPairs]. *)
Fixpoint pairsClosed (fuel : nat) (v : string) : bool :=
  match fuel with
  | O => false
  | S n =>
      let '(name, v) := consumeItem v in
      if isEmpty (ToLower name) then
        if peekIs v ";" then pairsClosed n (dropByte v) else true
      else if negb (peekIs v "=") then true
      else
        let v := dropByte v in
        if peekIs v "034" then
          let '(_, v, ok) := consumeQuoted v true in
          ok && pairsClosed n v
        else
          let '(_, v) := consumeItem v in
          pairsClosed n v
  end.

Definition forwardedElemClosed (v : string) : bool :=
  pairsClosed (S (String.length v)) v.

(** A line all of whose elements are closed, as the loop around [body]
    goes through them: the element at the cursor is closed, and so are the
    elements from the cursor that the iterator moves to.  Each pass but the
    first starts after a comma, so a line has no more passes than bytes. *)
Section Closed.
Context {E : Type}.
Variable body : string -> option E * string.
Variable elemClosed : string -> bool.

Fixpoint closedFrom (fuel : nat) (v : string) : bool :=
  match fuel with
  | O => false
  | S n =>
      elemClosed v &&
      match nextInLine true (snd (body v)) with
      | Some t => closedFrom n t
      | None => true
      end
  end.

Definition closedLine (l : string) : bool :=
  match nextInLine false l with
  | Some v => closedFrom (S (String.length l)) v
  | None => true
  end.
End Closed.

(** No comment of a Via line, no quoted string of a Warning line and no
    quoted value of a Forwarded line is left open. *)
Definition viaClosed : string -> bool := closedLine parseViaElem viaElemClosed.

Definition forwardedClosed : string -> bool :=
  closedLine parseForwardedElem forwardedElemClosed.

Definition warningClosed {Time} (zeroTime : Time)
    (ParseTime : string -> option Time) : string -> bool :=
  closedLine (parseWarningElem zeroTime ParseTime) warningElemClosed.



(** ** Where entries come from *)

(** A byte that [chomp] reads: neither white space nor comma. *)
Definition isWordByte (c : ascii) : bool := negb (isWS c || isByte c ",").

(** The protocol field that [Via] makes of the protocol text [p]. *)
Definition protoOf (p : string) : string :=
  if ContainsRune p "/" then p else "HTTP/" +:+ p.

(** The entry [e] was read in one of [lines] from a protocol text [p],
    white space, and the received-by text of [e]: both are non-empty runs
    without white space or comma, the received-by ends where such a run
    ends, and the protocol field is what [Via] makes of [p]. *)
Definition viaEntryFrom (lines : list string) (e : ViaEntry) : Prop :=
  exists line p ws rest,
    line ∈ lines /\
    isSuffix (p +:+ ws +:+ ReceivedBy e +:+ rest) line /\
    isWord p = true /\ ws <> "" /\ allBytes isWS ws = true /\
    isWord (ReceivedBy e) = true /\ headFails isWordByte rest = true /\
    ReceivedProto e = protoOf p.



(** ** The rest of the API: Set, Add, Vary, node addresses *)

(** [h.Add(name, value)]: one more line after the lines of the header. *)
Definition Add_ (h : Header) (name value : string) : Header :=
  <[name := values h name ++ [value]]> h.

Definition SetAllow (h : Header) (methods : list string) : Header :=
  Set_ h "Allow" (joinLines methods).

Definition AddVia (h : Header) (entry : ViaEntry) : Header :=
  Add_ h "Via" (buildVia [entry]).

(** [AddForwarded(h, elems...)]. *)
Definition AddForwarded
    (range : gmap string string -> list (string * string))
    (h : Header) (elems : list ForwardedElem) : Header :=
  Add_ h "Forwarded" (buildForwarded range elems).

Definition AddWarning {Time} (FormatTime : Time -> string)
    (IsZero : Time -> bool) (h : Header) (entry : WarningEntry Time)
  : Header :=
  Add_ h "Warning" (buildWarning FormatTime IsZero [entry]).

Definition isLowerByte (c : ascii) : bool :=
  let n := nat_of_ascii c in (97 <=? n)%nat && (n <=? 122)%nat.

Definition isUpperByte (c : ascii) : bool :=
  let n := nat_of_ascii c in (65 <=? n)%nat && (n <=? 90)%nat.

(** The canonical form of one byte of a header key: upper case where
    [upper] asks for it, lower case elsewhere. *)
Definition canonByte (upper : bool) (c : ascii) : ascii :=
  if upper && isLowerByte c then ascii_of_nat (nat_of_ascii c - 32)
  else if negb upper && isUpperByte c then ascii_of_nat (nat_of_ascii c + 32)
  else c.

Fixpoint canonBytes (upper : bool) (s : string) : string :=
  match s with
  | EmptyString => EmptyString
  | String c s' =>
      let c' := canonByte upper c in
      String c' (canonBytes (isByte c' "-") s')
  end.

(** [http.CanonicalHeaderKey], of Go's library: a key made of token bytes
    gets an upper-case first letter and an upper-case letter after each
    hyphen, and lower-case letters elsewhere; any other key is returned
    as it is. *)
Definition CanonicalHeaderKey (s : string) : string :=
  if allBytes isTokenChar s then canonBytes true s else s.

Definition parseVaryElem (v : string) : option string * string :=
  let '(tok, v) := token v in
  (if isEmpty tok then None else Some (CanonicalHeaderKey tok), v).

Definition Vary (h : Header) : slice string :=
  parseElems toNextElem parseVaryElem (values h "Vary").

Definition SetVary (h : Header) (names : list string) : Header :=
  Set_ h "Vary" (joinLines names).

Definition AddVary (h : Header) (names : list string) : Header :=
  Add_ h "Vary" (joinLines names).

(** [strings.IndexByte]: the index of the first [c] in [s], or -1. *)
Fixpoint IndexByte (s : string) (c : ascii) : Z :=
  match s with
  | EmptyString => -1
  | String d s' =>
      if isByte d c then 0
      else let i := IndexByte s' c in if i <? 0 then -1 else i + 1
  end.

(** [strings.LastIndexByte]: the index of the last [c] in [s], or -1. *)
Fixpoint LastIndexByte (s : string) (c : ascii) : Z :=
  match s with
  | EmptyString => -1
  | String d s' =>
      let i := LastIndexByte s' c in
      if 0 <=? i then i + 1 else if isByte d c then 0 else -1
  end.

(** [s[:n]] and [s[n:]]. *)
Fixpoint takeBytes (n : nat) (s : string) : string :=
  match n, s with
  | S n', String c s' => String c (takeBytes n' s')
  | _, _ => EmptyString
  end.

Fixpoint dropBytes (n : nat) (s : string) : string :=
  match n, s with
  | S n', String _ s' => dropBytes n' s'
  | _, _ => s
  end.

(** [strings.TrimSuffix]. *)
Definition TrimSuffix (s p : string) : string :=
  let k := (String.length s - String.length p)%nat in
  if (String.length p <=? String.length s)%nat && String.eqb (dropBytes k s) p
  then takeBytes k s else s.

(** [net.ParseIP] and [strconv.Atoi] belong to Go's library: [ParseIP]
    gives an address (nil when the text is none), [Atoi] the integer that
    [strconv.Atoi] returns, whose error [nodeAddr] drops. *)
Section WithNet.

Variable IP : Type.
Variable ParseIP : string -> IP.
Variable Atoi : string -> Z.

Definition nodeAddr (node : string) : IP * Z :=
  let portPos := LastIndexByte node ":" in
  let portPos := if portPos <? IndexByte node "]" then -1 else portPos in
  let '(rawIP, rawPort) :=
    if negb (portPos =? -1)
    then (takeBytes (Z.to_nat portPos) node,
          dropBytes (Z.to_nat (portPos + 1)) node)
    else (node, EmptyString) in
  let rawIP := TrimPrefix rawIP "[" in
  let rawIP := TrimSuffix rawIP "]" in
  (ParseIP rawIP, Atoi rawPort).

Definition ByAddr (elem : ForwardedElem) : IP * Z := nodeAddr (By elem).

Definition ForAddr (elem : ForwardedElem) : IP * Z := nodeAddr (For elem).

End WithNet.

Arguments nodeAddr {IP} ParseIP Atoi node.
Arguments ByAddr {IP} ParseIP Atoi elem.
Arguments ForAddr {IP} ParseIP Atoi elem.

(** ** Vocabulary of the further properties *)

(** What the invariants of [Forwarded] say of one element: [Proto] is in
    lower case, and the extension map, when it is not nil, is not empty
    and has non-empty lower-case keys. *)
Definition lowercased (e : ForwardedElem) : Prop :=
  ToLower (Proto e) = Proto e /\
  forall m, Ext e = Some m ->
    m <> ∅ /\ forall k v, m !! k = Some v -> k <> "" /\ ToLower k = k.

(** The value of the last pair named [name] (lowercased) in [ps], if any;
    [d] otherwise. *)
Definition lastPair (name : string) (ps : list (string * string))
    (d : option string) : option string :=
  foldl (fun acc nv =>
           if String.eqb (ToLower (fst nv)) name then Some (snd nv) else acc)
    d ps.

(** [name] is none of the four standard parameter names. *)
Definition isExtension (name : string) : bool :=
  negb (String.eqb name "for") && negb (String.eqb name "by")
  && negb (String.eqb name "host") && negb (String.eqb name "proto").


(** The pairs with their names in lower case. *)
Definition lowerNames (ps : list (string * string)) : list (string * string) :=
  (fun nv => (ToLower (fst nv), snd nv)) <$> ps.


(** * Properties *)

(** ** Strings *)

Lemma append_nil_r (s : string) : s +:+ "" = s.
Proof. induction s; simpl; congruence. Qed.

Lemma append_assoc (a b c : string) : (a +:+ b) +:+ c = a +:+ (b +:+ c).
Proof. induction a; simpl; congruence. Qed.

Lemma length_append (a b : string) :
  String.length (a +:+ b) = (String.length a + String.length b)%nat.
Proof. induction a; simpl; congruence. Qed.

(** ** The element iterator makes progress *)

Lemma nextInLine_length o v v' :
  nextInLine o v = Some v' ->
  (String.length v' <= String.length v)%nat /\
  (o = true -> (String.length v' < String.length v)%nat).
Proof.
  revert o. induction v as [|c v IH]; intros o H; simpl in H; [done|].
  repeat case_match; simplify_eq; simpl;
    try (apply IH in H; destruct H; split; intros; lia).
  split; [lia|done].
Qed.

Lemma nextInLines_weight ls v ls' :
  nextInLines ls = (v, Some ls') -> (weight v ls' < weight "" ls)%nat.
Proof.
  unfold weight. induction ls as [|l ls IH]; simpl; intros H; [done|].
  destruct (nextInLine false l) as [t|] eqn:Hl.
  - simplify_eq. apply nextInLine_length in Hl. lia.
  - apply IH in H. simpl in H. lia.
Qed.

Lemma iterElems_weight v ls v' ls' :
  iterElems v ls = (v', Some ls') -> (weight v' ls' < weight v ls)%nat.
Proof.
  unfold iterElems. destruct (nextInLine true v) as [t|] eqn:Hv; intros H.
  - simplify_eq. apply nextInLine_length in Hv. unfold weight.
    destruct Hv as [_ Hv]. specialize (Hv eq_refl). lia.
  - apply nextInLines_weight in H. unfold weight in *. simpl in *. lia.
Qed.

Lemma iterElems_start ls : iterElems "" ls = nextInLines ls.
Proof. done. Qed.

(** ** The loop *)

Section LoopFacts.
Context {E : Type}.
Variable body : string -> option E * string.

Lemma elemLoop_collect fuel v vs (acc : slice E) :
  elemLoop iterElems body fuel v vs acc
  = appendList acc <$> collect iterElems body fuel v vs.
Proof.
  revert v vs acc. induction fuel as [|n IH]; intros v vs acc;
    destruct vs as [ls|]; simpl; try done.
  destruct (body v) as [oe v1]. destruct (iterElems v1 ls) as [v2 vs2].
  rewrite IH. destruct (collect iterElems body n v2 vs2) as [es|]; simpl;
    [|done].
  f_equal. destruct oe as [e|]; simpl; [|done].
  destruct es; simpl; [done|]. by rewrite <- List.app_assoc.
Qed.

Lemma collect_mono n m v vs es :
  collect iterElems body n v vs = Some es -> (n <= m)%nat ->
  collect iterElems body m v vs = Some es.
Proof.
  revert m v vs es. induction n as [|n IH]; intros m v vs es H Hle;
    destruct vs as [ls|]; simpl in H; try done.
  - by destruct m.
  - destruct m as [|m]; [lia|]. simpl.
    destruct (body v) as [oe v1]. destruct (iterElems v1 ls) as [v2 vs2].
    destruct (collect iterElems body n v2 vs2) as [es'|] eqn:Hc; [|done].
    rewrite (IH m _ _ _ Hc); [done|lia].
  - by destruct m.
Qed.

Hypothesis body_shrinks :
  forall v, (String.length (snd (body v)) <= String.length v)%nat.

Lemma collect_total fuel v ls :
  (weight v ls < fuel)%nat ->
  is_Some (collect iterElems body fuel v (Some ls)).
Proof.
  revert v ls. induction fuel as [|n IH]; intros v ls Hw; [lia|]. simpl.
  pose proof (body_shrinks v) as Hs.
  destruct (body v) as [oe v1]. simpl in Hs.
  destruct (iterElems v1 ls) as [v2 [ls2|]] eqn:Hit.
  - apply iterElems_weight in Hit.
    destruct (IH v2 ls2) as [es Hes]; [unfold weight in *; lia|].
    rewrite Hes. done.
  - destruct n; simpl; done.
Qed.

(** The entries of a header, fuel apart. *)
Lemma parseElems_collect lines v vs n es :
  iterElems "" lines = (v, vs) ->
  collect iterElems body n v vs = Some es ->
  parseElems iterElems body lines = appendList nilSlice es.
Proof.
  intros Hit Hc. unfold parseElems. rewrite Hit, elemLoop_collect.
  destruct vs as [ls|].
  - destruct (collect_total (budget lines) v ls) as [es' Hes'].
    { apply iterElems_weight in Hit. unfold budget, weight in *.
      simpl in *. lia. }
    rewrite Hes'. simpl.
    destruct (Nat.le_ge_cases n (budget lines)) as [Hle|Hle].
    + rewrite (collect_mono _ _ _ _ _ Hc Hle) in Hes'. congruence.
    + rewrite (collect_mono _ _ _ _ _ Hes' Hle) in Hc. congruence.
  - destruct n, (budget lines); simpl in *; by simplify_eq.
Qed.

Lemma parseElems_total lines :
  exists es, (let '(v, vs) := iterElems "" lines in
              collect iterElems body (budget lines) v vs = Some es)
             /\ parseElems iterElems body lines = appendList nilSlice es.
Proof.
  destruct (iterElems "" lines) as [v vs] eqn:Hit.
  assert (is_Some (collect iterElems body (budget lines) v vs)) as [es Hes].
  { destruct vs as [ls|]; [|by destruct (budget lines)].
    apply collect_total. apply iterElems_weight in Hit.
    unfold budget, weight in *. simpl in *. lia. }
  exists es. split; [done|]. by eapply parseElems_collect.
Qed.
End LoopFacts.

  (** Whatever holds of every entry a pass can append holds of every entry
      of the result. *)
Section LoopInvariant.
Context {E : Type}.
Variable body : string -> option E * string.
Variable P : E -> Prop.
Hypothesis body_P : forall v e, fst (body v) = Some e -> P e.

Lemma collect_Forall fuel v vs es :
  collect iterElems body fuel v vs = Some es -> Forall P es.
Proof.
  revert v vs es. induction fuel as [|n IH]; intros v vs es H;
    destruct vs as [ls|]; simpl in H; simplify_eq; try done.
  pose proof (body_P v) as HP.
  destruct (body v) as [oe v1]. destruct (iterElems v1 ls) as [v2 vs2].
  destruct (collect iterElems body n v2 vs2) as [es'|] eqn:Hc; [|done].
  simplify_eq. apply Forall_app. split; [|by eapply IH].
  destruct oe; simpl; [|done]. apply Forall_cons. split; [|done]. by apply HP.
Qed.

Lemma parseElems_Forall lines :
  Forall P (items (parseElems iterElems body lines)).
Proof.
  unfold parseElems. destruct (iterElems "" lines) as [v vs].
  rewrite elemLoop_collect.
  destruct (collect iterElems body (budget lines) v vs) as [es|] eqn:Hc;
    simpl; [|done].
  apply collect_Forall in Hc. by destruct es.
Qed.
End LoopInvariant.

(** ** Absent and blank headers *)

Lemma values_absent (h : Header) name : h !! name = None -> values h name = [].
Proof. unfold values. by intros ->. Qed.

Lemma values_present (h : Header) name lines :
  h !! name = Some lines -> values h name = lines.
Proof. unfold values. by intros ->. Qed.

Lemma nextInLine_blank o l : isBlank l = true -> nextInLine o l = None.
Proof.
  unfold isBlank. revert o. induction l as [|c l IH]; intros o H; [done|].
  simpl in *. apply andb_prop in H as [Hc Hl].
  destruct (isByte c ","); [by apply IH|].
  rewrite orb_false_r in Hc. rewrite Hc. by apply IH.
Qed.

Lemma nextInLines_blank ls :
  Forall (fun l => isBlank l = true) ls -> nextInLines ls = ("", None).
Proof.
  induction 1 as [|l ls Hl _ IH]; [done|]. simpl.
  by rewrite (nextInLine_blank _ _ Hl).
Qed.

Lemma parseElems_blank {E} (body : string -> option E * string) lines :
  Forall (fun l => isBlank l = true) lines ->
  parseElems iterElems body lines = nilSlice.
Proof.
  intros H. unfold parseElems, iterElems. simpl.
  rewrite (nextInLines_blank _ H). done.
Qed.

(** ** Scanner facts *)

Lemma allBytes_app f a b :
  allBytes f (a +:+ b) = allBytes f a && allBytes f b.
Proof. induction a as [|c a IH]; simpl; [done|]. by rewrite IH, andb_assoc. Qed.

Lemma isSuffix_refl v : isSuffix v v.
Proof. by exists "". Qed.

Lemma isSuffix_trans a b c : isSuffix a b -> isSuffix b c -> isSuffix a c.
Proof. intros [p ->] [q ->]. exists (q +:+ p). by rewrite append_assoc. Qed.

Lemma isSuffix_cons c v : isSuffix v (String c v).
Proof. by exists (String c ""). Qed.

Lemma isSuffix_length t v :
  isSuffix t v -> (String.length t <= String.length v)%nat.
Proof. intros [p ->]. rewrite length_append. lia. Qed.

Lemma isSuffix_allBytes f t v :
  isSuffix t v -> allBytes f v = true -> allBytes f t = true.
Proof. intros [p ->]. rewrite allBytes_app. by intros [_ ?]%andb_prop. Qed.

Lemma isSuffix_nil v : isSuffix "" v.
Proof. exists v. by rewrite append_nil_r. Qed.

Lemma span_spec f v :
  v = fst (span f v) +:+ snd (span f v) /\
  allBytes f (fst (span f v)) = true /\
  headFails f (snd (span f v)) = true.
Proof.
  induction v as [|c v (IH1 & IH2 & IH3)]; simpl; [done|].
  destruct (f c) eqn:Hc.
  - destruct (span f v) as [a b]. simpl in *. rewrite Hc. by rewrite <- IH1.
  - simpl. by rewrite Hc.
Qed.

Lemma span_suffix f v : isSuffix (snd (span f v)) v.
Proof. exists (fst (span f v)). apply span_spec. Qed.

Lemma span_app f a b :
  allBytes f a = true -> headFails f b = true -> span f (a +:+ b) = (a, b).
Proof.
  intros Ha Hb. induction a as [|c a IH]; simpl in *.
  - destruct b as [|d b]; [done|]. simpl in *.
    by destruct (f d).
  - apply andb_prop in Ha as [-> Ha]. by rewrite IH.
Qed.

(** A byte that fails [f] ends the scan wherever it stands. *)
Lemma span_stop f a c t :
  f c = false ->
  span f (a +:+ String c t) = (fst (span f a), snd (span f a) +:+ String c t).
Proof.
  intros Hc. induction a as [|d a IH]; simpl.
  - by rewrite Hc.
  - destruct (f d); [|done]. rewrite IH. by destruct (span f a).
Qed.

Lemma skipWS_suffix v : isSuffix (skipWS v) v.
Proof. apply span_suffix. Qed.

Lemma chomp_suffix v : isSuffix (snd (chomp v)) v.
Proof.
  unfold chomp.
  pose proof (span_suffix (fun c => negb (isWS c || isByte c ",")) v) as H.
  destruct (span _ v) as [run rest]. simpl in *.
  eapply isSuffix_trans; [apply skipWS_suffix|done].
Qed.

Lemma token_suffix v : isSuffix (snd (token v)) v.
Proof. apply span_suffix. Qed.

Lemma number_suffix v : isSuffix (snd (number v)) v.
Proof.
  unfold number. pose proof (span_suffix isDigit v) as H.
  destruct (span isDigit v) as [ds rest]. destruct ds; simpl in *; [|done].
  apply isSuffix_refl.
Qed.

Lemma consume_suffix v c : isSuffix (fst (consume v c)) v.
Proof.
  destruct v as [|d v]; simpl; [apply isSuffix_refl|].
  destruct (isByte d c); simpl; [apply isSuffix_cons|apply isSuffix_refl].
Qed.

Lemma quotedBody_suffix v : isSuffix (snd (fst (quotedBody v))) v.
Proof.
  assert (forall n v, (String.length v < n)%nat ->
            isSuffix (snd (fst (quotedBody v))) v) as H.
  { clear v. induction n as [|n IH]; intros v Hn; [lia|].
    destruct v as [|c v]; simpl; [apply isSuffix_refl|].
    destruct (isByte c "034"); simpl; [apply isSuffix_cons|].
    destruct (isByte c "\").
    - destruct v as [|d v]; simpl; [apply isSuffix_nil|].
      specialize (IH v). simpl in Hn.
      destruct (quotedBody v) as [[t r] ok]. simpl in *.
      eapply isSuffix_trans; [apply IH; lia|].
      eapply isSuffix_trans; apply isSuffix_cons.
    - specialize (IH v). simpl in Hn.
      destruct (quotedBody v) as [[t r] ok]. simpl in *.
      eapply isSuffix_trans; [apply IH; lia|apply isSuffix_cons]. }
  apply (H (S (String.length v))). lia.
Qed.

Lemma quoted_suffix v : isSuffix (snd (quoted v)) v.
Proof.
  destruct v as [|c v]; simpl; [apply isSuffix_refl|].
  destruct (isByte c "034"); simpl; [|apply isSuffix_refl].
  pose proof (quotedBody_suffix v) as H.
  destruct (quotedBody v) as [[t r] ok]. simpl in *.
  eapply isSuffix_trans; [done|apply isSuffix_cons].
Qed.

Lemma commentBody_suffix v : forall d, isSuffix (snd (commentBody d v)) v.
Proof.
  assert (forall n v d, (String.length v < n)%nat ->
            isSuffix (snd (commentBody d v)) v) as H.
  { clear v. induction n as [|n IH]; intros v d Hn; [lia|].
    destruct v as [|c v]; simpl; [apply isSuffix_refl|]. simpl in Hn.
    destruct (isByte c ")").
    { destruct d as [|d]; simpl; [apply isSuffix_cons|].
      specialize (IH v d). destruct (commentBody d v) as [t r]. simpl in *.
      eapply isSuffix_trans; [apply IH; lia|apply isSuffix_cons]. }
    destruct (isByte c "(").
    { specialize (IH v (S d)). destruct (commentBody (S d) v) as [t r].
      simpl in *. eapply isSuffix_trans; [apply IH; lia|apply isSuffix_cons]. }
    destruct (isByte c "\").
    - destruct v as [|e v]; simpl; [apply isSuffix_nil|].
      specialize (IH v d). simpl in Hn.
      destruct (commentBody d v) as [t r]. simpl in *.
      eapply isSuffix_trans; [apply IH; lia|].
      eapply isSuffix_trans; apply isSuffix_cons.
    - specialize (IH v d). destruct (commentBody d v) as [t r]. simpl in *.
      eapply isSuffix_trans; [apply IH; lia|apply isSuffix_cons]. }
  intros d. apply (H (S (String.length v))). lia.
Qed.

Lemma comment_suffix v : isSuffix (snd (comment v)) v.
Proof.
  destruct v as [|c v]; simpl; [apply isSuffix_refl|].
  destruct (isByte c "("); simpl; [|apply isSuffix_refl].
  eapply isSuffix_trans; [apply commentBody_suffix|apply isSuffix_cons].
Qed.

(** ** A comma ends what the scanner reads

    Each scanner function, run on [a] followed by a comma and more text,
    reads what it reads on [a] alone and leaves the comma and the text. *)

Lemma chomp_stop a t :
  chomp (a +:+ String "," t)
  = (fst (chomp a), snd (chomp a) +:+ String "," t).
Proof.
  unfold chomp. rewrite span_stop by done.
  destruct (span _ a) as [run rest]. simpl.
  unfold skipWS. by rewrite span_stop.
Qed.

Lemma token_stop a t :
  token (a +:+ String "," t)
  = (fst (token a), snd (token a) +:+ String "," t).
Proof. unfold token. by rewrite span_stop. Qed.

Lemma number_stop a t :
  number (a +:+ String "," t)
  = (fst (number a), snd (number a) +:+ String "," t).
Proof.
  unfold number. rewrite span_stop by done.
  destruct (span isDigit a) as [ds rest]. simpl. by destruct ds.
Qed.

Lemma peekIs_stop a t c :
  isByte "," c = false -> peekIs (a +:+ String "," t) c = peekIs a c.
Proof. intros Hc. destruct a; simpl; [|done]. unfold peekIs. simpl. done. Qed.

Lemma consume_stop a t c :
  isByte "," c = false ->
  consume (a +:+ String "," t) c
  = (fst (consume a c) +:+ String "," t, snd (consume a c)).
Proof.
  intros Hc. destruct a as [|d a]; simpl; [by rewrite Hc|].
  by destruct (isByte d c).
Qed.

Lemma peekIs_noByte c v : noByte c v = true -> peekIs v c = false.
Proof.
  destruct v as [|d v]; [done|]. unfold noByte, peekIs. simpl.
  intros [H _]%andb_prop. by destruct (isByte d c).
Qed.

Lemma noByte_suffix c t v : isSuffix t v -> noByte c v = true -> noByte c t = true.
Proof. apply isSuffix_allBytes. Qed.

Lemma parseViaElem_suffix v : isSuffix (snd (parseViaElem v)) v.
Proof.
  unfold parseViaElem. pose proof (chomp_suffix v) as H1.
  destruct (chomp v) as [proto v1]. simpl in H1.
  destruct (isEmpty proto); [done|].
  pose proof (chomp_suffix v1) as H2.
  destruct (chomp v1) as [rby v2]. simpl in H2.
  assert (isSuffix v2 v) as H3 by by eapply isSuffix_trans.
  destruct (isEmpty rby); [done|].
  destruct (peekIs v2 "("); [|done].
  pose proof (comment_suffix v2) as H4.
  destruct (comment v2) as [c v3]. simpl in *. by eapply isSuffix_trans.
Qed.

(** ** The pairs of a Forwarded element *)

Lemma dropByte_suffix v : isSuffix (dropByte v) v.
Proof. destruct v; [apply isSuffix_refl|apply isSuffix_cons]. Qed.

Lemma dropByte_length v c :
  peekIs v c = true -> (String.length (dropByte v) < String.length v)%nat.
Proof. destruct v; [done|]. simpl. lia. Qed.

Lemma consumeItem_suffix v : isSuffix (snd (consumeItem v)) v.
Proof. apply token_suffix. Qed.

Lemma consumeQuoted_suffix v b : isSuffix (snd (fst (consumeQuoted v b))) v.
Proof.
  destruct v as [|c v]; simpl; [apply isSuffix_refl|].
  destruct (isByte c "034"); simpl; [|apply isSuffix_refl].
  eapply isSuffix_trans; [apply quotedBody_suffix|apply isSuffix_cons].
Qed.

Lemma scanPairs_fuel n m v e :
  (String.length v < n)%nat -> (String.length v < m)%nat ->
  scanPairs n v e = scanPairs m v e.
Proof.
  revert m v e. induction n as [|n IH]; intros m v e Hn Hm; [lia|].
  destruct m as [|m]; [lia|]. simpl.
  pose proof (isSuffix_length _ _ (consumeItem_suffix v)) as H1.
  destruct (consumeItem v) as [name v1]. simpl in H1.
  destruct (isEmpty (ToLower name)).
  { destruct (peekIs v1 ";") eqn:Hp; [|done].
    apply dropByte_length in Hp. apply IH; lia. }
  destruct (peekIs v1 "=") eqn:Hp; [|done]. simpl.
  apply dropByte_length in Hp.
  destruct (peekIs (dropByte v1) "034").
  - pose proof (isSuffix_length _ _ (consumeQuoted_suffix (dropByte v1) true))
      as H2.
    destruct (consumeQuoted (dropByte v1) true) as [[value v3] ok].
    simpl in H2. destruct ok; [|done]. simpl. apply IH; lia.
  - pose proof (isSuffix_length _ _ (consumeItem_suffix (dropByte v1))) as H2.
    destruct (consumeItem (dropByte v1)) as [value v3].
    simpl in H2. apply IH; lia.
Qed.

Lemma scanPairs_total n v e :
  (String.length v < n)%nat -> is_Some (scanPairs n v e).
Proof.
  revert v e. induction n as [|n IH]; intros v e Hn; [lia|]. simpl.
  pose proof (isSuffix_length _ _ (consumeItem_suffix v)) as H1.
  destruct (consumeItem v) as [name v1]. simpl in H1.
  destruct (isEmpty (ToLower name)).
  { destruct (peekIs v1 ";") eqn:Hp; [|done].
    apply dropByte_length in Hp. apply IH; lia. }
  destruct (peekIs v1 "=") eqn:Hp; [|done]. simpl.
  apply dropByte_length in Hp.
  destruct (peekIs (dropByte v1) "034").
  - pose proof (isSuffix_length _ _ (consumeQuoted_suffix (dropByte v1) true))
      as H2.
    destruct (consumeQuoted (dropByte v1) true) as [[value v3] ok].
    simpl in H2. destruct ok; [|done]. simpl. apply IH; lia.
  - pose proof (isSuffix_length _ _ (consumeItem_suffix (dropByte v1))) as H2.
    destruct (consumeItem (dropByte v1)) as [value v3].
    simpl in H2. apply IH; lia.
Qed.

Lemma scanPairs_suffix n v e e' v' :
  scanPairs n v e = Some (e', v') -> isSuffix v' v.
Proof.
  revert v e. induction n as [|n IH]; intros v e H; [done|]. simpl in H.
  pose proof (consumeItem_suffix v) as H1.
  destruct (consumeItem v) as [name v1]. simpl in H1.
  destruct (isEmpty (ToLower name)).
  { destruct (peekIs v1 ";"); [|by simplify_eq].
    apply IH in H. eapply isSuffix_trans; [done|].
    eapply isSuffix_trans; [apply dropByte_suffix|done]. }
  destruct (peekIs v1 "="); simpl in H; [|by simplify_eq].
  assert (isSuffix (dropByte v1) v) as H2.
  { eapply isSuffix_trans; [apply dropByte_suffix|done]. }
  destruct (peekIs (dropByte v1) "034").
  - pose proof (consumeQuoted_suffix (dropByte v1) true) as H3.
    destruct (consumeQuoted (dropByte v1) true) as [[value v3] ok].
    simpl in H3. assert (isSuffix v3 v) by by eapply isSuffix_trans.
    destruct ok; simpl in H; [|by simplify_eq].
    apply IH in H. by eapply isSuffix_trans.
  - pose proof (consumeItem_suffix (dropByte v1)) as H3.
    destruct (consumeItem (dropByte v1)) as [value v3]. simpl in H3.
    apply IH in H. eapply isSuffix_trans; [done|]. by eapply isSuffix_trans.
Qed.

(** [scanAll] obeys the equation of the loop, fuel apart. *)
Lemma scanAll_unfold v e :
  scanAll v e =
    let '(name, v1) := consumeItem v in
    let name := ToLower name in
    if isEmpty name then
      if peekIs v1 ";" then scanAll (dropByte v1) e else Some (e, v1)
    else if negb (peekIs v1 "=") then Some (e, v1)
    else
      let v2 := dropByte v1 in
      if peekIs v2 "034" then
        let '(value, v3, ok) := consumeQuoted v2 true in
        if negb ok then Some (e, v3) else scanAll v3 (setParam name value e)
      else
        let '(value, v3) := consumeItem v2 in
        scanAll v3 (setParam name value e).
Proof.
  unfold scanAll at 1. simpl.
  pose proof (isSuffix_length _ _ (consumeItem_suffix v)) as H1.
  destruct (consumeItem v) as [name v1]. simpl in H1.
  destruct (isEmpty (ToLower name)).
  { destruct (peekIs v1 ";") eqn:Hp; [|done].
    apply dropByte_length in Hp. apply scanPairs_fuel; lia. }
  destruct (peekIs v1 "=") eqn:Hp; [|done]. simpl.
  apply dropByte_length in Hp.
  destruct (peekIs (dropByte v1) "034").
  - pose proof (isSuffix_length _ _ (consumeQuoted_suffix (dropByte v1) true))
      as H2.
    destruct (consumeQuoted (dropByte v1) true) as [[value v3] ok].
    simpl in H2. destruct ok; [|done]. simpl. apply scanPairs_fuel; lia.
  - pose proof (isSuffix_length _ _ (consumeItem_suffix (dropByte v1))) as H2.
    destruct (consumeItem (dropByte v1)) as [value v3].
    simpl in H2. apply scanPairs_fuel; lia.
Qed.

Lemma scanAll_total v e : is_Some (scanAll v e).
Proof. apply scanPairs_total. lia. Qed.

Lemma parseForwardedElem_suffix v : isSuffix (snd (parseForwardedElem v)) v.
Proof.
  unfold parseForwardedElem.
  destruct (scanAll v zeroElem) as [[e v']|] eqn:H; [|apply isSuffix_refl].
  by apply scanPairs_suffix in H.
Qed.

Lemma parseForwardedElem_appends v : is_Some (fst (parseForwardedElem v)).
Proof. unfold parseForwardedElem. by destruct (scanAll v zeroElem) as [[]|]. Qed.

Lemma dropByte_app v c t :
  peekIs v c = true -> dropByte (v +:+ t) = dropByte v +:+ t.
Proof. by destruct v. Qed.

Lemma scanAll_stop a t e :
  noByte "034" a = true ->
  scanAll (a +:+ String "," t) e
  = (fun r => (fst r, snd r +:+ String "," t)) <$> scanAll a e.
Proof.
  assert (forall n a e, (String.length a < n)%nat -> noByte "034" a = true ->
            scanAll (a +:+ String "," t) e
            = (fun r => (fst r, snd r +:+ String "," t)) <$> scanAll a e) as H.
  { clear a e. induction n as [|n IH]; intros a e Hn Ha; [lia|].
    rewrite (scanAll_unfold a), (scanAll_unfold (a +:+ _)).
    unfold consumeItem. rewrite token_stop.
    pose proof (token_suffix a) as H1.
    destruct (token a) as [name v1]. cbn [fst snd] in *. cbv beta iota zeta.
    pose proof (isSuffix_length _ _ H1) as L1.
    destruct (isEmpty (ToLower name)).
    { rewrite peekIs_stop by done.
      destruct (peekIs v1 ";") eqn:Hp; [|done].
      rewrite (dropByte_app _ _ _ Hp). apply dropByte_length in Hp.
      apply IH; [lia|].
      eapply noByte_suffix; [|done].
      eapply isSuffix_trans; [apply dropByte_suffix|done]. }
    rewrite peekIs_stop by done.
    destruct (peekIs v1 "=") eqn:Hp; [|done]. simpl negb. cbv iota.
    rewrite (dropByte_app _ _ _ Hp). apply dropByte_length in Hp.
    assert (isSuffix (dropByte v1) a) as H2.
    { eapply isSuffix_trans; [apply dropByte_suffix|done]. }
    rewrite peekIs_stop by done.
    rewrite (peekIs_noByte "034" (dropByte v1))
      by (by eapply noByte_suffix).
    rewrite token_stop.
    pose proof (token_suffix (dropByte v1)) as H3.
    destruct (token (dropByte v1)) as [value v3]. cbn [fst snd] in *.
    pose proof (isSuffix_length _ _ H3) as L3.
    apply IH; [lia|]. eapply noByte_suffix; [|done].
    by eapply isSuffix_trans. }
  intros Ha. apply (H (S (String.length a))); [lia|done].
Qed.

Lemma parseForwardedElem_stop a t :
  noByte "034" a = true ->
  parseForwardedElem (a +:+ String "," t)
  = (fst (parseForwardedElem a), snd (parseForwardedElem a) +:+ String "," t).
Proof.
  intros Ha. unfold parseForwardedElem. rewrite (scanAll_stop _ _ _ Ha).
  destruct (scanAll_total a zeroElem) as [[e v'] ->]. done.
Qed.

(** ** Lines and commas under the loop *)

Lemma nextInLine_suffix o v t : nextInLine o v = Some t -> isSuffix t v.
Proof.
  revert o. induction v as [|c v IH]; intros o H; simpl in H; [done|].
  repeat case_match; simplify_eq;
    try (eapply isSuffix_trans; [by eapply IH|apply isSuffix_cons]).
  apply isSuffix_refl.
Qed.

Lemma nextInLine_stop o r X :
  nextInLine o (r +:+ String "," X)
  = match nextInLine o r with
    | Some t => Some (t +:+ String "," X)
    | None => nextInLine false X
    end.
Proof.
  revert o. induction r as [|c r IH]; intros o; simpl; [done|].
  destruct (isByte c ","); [apply IH|].
  destruct (isWS c); [apply IH|].
  destruct o; [apply IH|done].
Qed.

Lemma nextInLine_ws o w l :
  allBytes isWS w = true -> nextInLine o (w +:+ l) = nextInLine o l.
Proof.
  intros Hw. induction w as [|c w IH]; simpl in *; [done|].
  apply andb_prop in Hw as [Hc Hw]. rewrite Hc.
  destruct (isByte c ",") eqn:Hcc; [|by apply IH].
  unfold isWS, isByte in *. apply Ascii.eqb_eq in Hcc. by subst.
Qed.

Lemma values_setLines h name lines : values (setLines h name lines) name = lines.
Proof. unfold values, setLines. by rewrite lookup_insert_eq. Qed.

Lemma items_appendList {E} (es : list E) : items (appendList nilSlice es) = es.
Proof. by destruct es. Qed.

Section Lines.
Context {E : Type}.
Variable body : string -> option E * string.
Hypothesis body_suffix : forall v, isSuffix (snd (body v)) v.

Lemma body_shrinks v :
  (String.length (snd (body v)) <= String.length v)%nat.
Proof. apply isSuffix_length, body_suffix. Qed.

Lemma parseElems_slice lines :
  parseElems iterElems body lines
  = appendList nilSlice (items (parseElems iterElems body lines)).
Proof.
  destruct (parseElems_total body body_shrinks lines) as (es & _ & ->).
  by rewrite items_appendList.
Qed.

Lemma nextInLines_app ls1 ls2 :
  nextInLines (ls1 ++ ls2)
  = match nextInLines ls1 with
    | (v, Some r) => (v, Some (r ++ ls2))
    | (_, None) => nextInLines ls2
    end.
Proof.
  induction ls1 as [|l ls1 IH]; simpl; [done|].
  by destruct (nextInLine false l).
Qed.

Lemma iterElems_app v ls1 ls2 :
  iterElems v (ls1 ++ ls2)
  = match iterElems v ls1 with
    | (v', Some r) => (v', Some (r ++ ls2))
    | (_, None) => nextInLines ls2
    end.
Proof.
  unfold iterElems. destruct (nextInLine true v); [done|].
  apply nextInLines_app.
Qed.

Lemma collect_lines n m v ls1 ls2 es1 es2 :
  collect iterElems body n v (Some ls1) = Some es1 ->
  (let '(v2, vs2) := nextInLines ls2 in
   collect iterElems body m v2 vs2 = Some es2) ->
  collect iterElems body (n + m) v (Some (ls1 ++ ls2)) = Some (es1 ++ es2).
Proof.
  intros H1 H2. revert v ls1 es1 H1.
  induction n as [|n IH]; intros v ls1 es1 H1; [done|]. simpl in *.
  destruct (body v) as [oe v1]. rewrite iterElems_app.
  destruct (iterElems v1 ls1) as [v' [r|]].
  - destruct (collect iterElems body n v' (Some r)) as [es|] eqn:Hc; [|done].
    simplify_eq. rewrite (IH _ _ _ Hc). by rewrite <- List.app_assoc.
  - destruct (nextInLines ls2) as [v2 vs2].
    rewrite (collect_mono body m (n + m) _ _ _ H2) by lia.
    destruct n; simpl in H1; simplify_eq; by rewrite List.app_nil_r.
Qed.

(** The entries of a header are those of its lines, line after line. *)
Lemma parseElems_lines ls1 ls2 :
  items (parseElems iterElems body (ls1 ++ ls2))
  = items (parseElems iterElems body ls1)
    ++ items (parseElems iterElems body ls2).
Proof.
  destruct (parseElems_total body body_shrinks ls1) as (es1 & H1 & ->).
  destruct (parseElems_total body body_shrinks ls2) as (es2 & H2 & ->).
  rewrite !items_appendList. rewrite iterElems_start in H1, H2.
  destruct (nextInLines ls1) as [v1 vs1] eqn:Hn1.
  destruct vs1 as [r|].
  - rewrite (parseElems_collect body body_shrinks (ls1 ++ ls2) v1
               (Some (r ++ ls2)) (budget ls1 + budget ls2) (es1 ++ es2)).
    + by rewrite items_appendList.
    + by rewrite iterElems_start, nextInLines_app, Hn1.
    + by apply collect_lines.
  - assert (es1 = []) as ->.
    { destruct (budget ls1); simpl in H1; congruence. }
    destruct (nextInLines ls2) as [v2 vs2] eqn:Hn2.
    rewrite (parseElems_collect body body_shrinks (ls1 ++ ls2) v2 vs2
               (budget ls2) es2); [by rewrite items_appendList| |done].
    by rewrite iterElems_start, nextInLines_app, Hn1.
Qed.

Variable bad : ascii.
Hypothesis body_stop : forall a t,
  noByte bad a = true ->
  body (a +:+ String "," t) = (fst (body a), snd (body a) +:+ String "," t).

Lemma collect_join n s w l2 ls :
  noByte bad s = true -> allBytes isWS w = true ->
  collect iterElems body n (s +:+ String "," (w +:+ l2)) (Some ls)
  = collect iterElems body n s (Some (l2 :: ls)).
Proof.
  intros Hs Hw. revert s Hs. induction n as [|n IH]; intros s Hs; [done|].
  simpl. rewrite (body_stop _ _ Hs).
  pose proof (body_suffix s) as Hsuf.
  destruct (body s) as [oe r]. cbn [fst snd] in *.
  unfold iterElems. rewrite nextInLine_stop.
  destruct (nextInLine true r) as [t|] eqn:Hr.
  - rewrite IH; [done|]. eapply noByte_suffix; [|done].
    eapply isSuffix_trans; [by eapply nextInLine_suffix|done].
  - simpl. by rewrite (nextInLine_ws _ _ _ Hw).
Qed.

(** A line without the byte [bad], a comma, white space and a second line
    read as the two lines do. *)
Lemma parseElems_join l1 w l2 ls :
  noByte bad l1 = true -> allBytes isWS w = true ->
  parseElems iterElems body ((l1 +:+ String "," (w +:+ l2)) :: ls)
  = parseElems iterElems body (l1 :: l2 :: ls).
Proof.
  intros Hl Hw.
  destruct (parseElems_total body body_shrinks (l1 :: l2 :: ls))
    as (es & H & ->).
  rewrite iterElems_start in H. cbn [nextInLines] in H.
  destruct (nextInLine false l1) as [t|] eqn:Ht.
  - eapply (parseElems_collect body body_shrinks _
              (t +:+ String "," (w +:+ l2)) (Some ls)).
    + rewrite iterElems_start. cbn [nextInLines].
      by rewrite nextInLine_stop, Ht.
    + rewrite collect_join; [done| |done].
      eapply noByte_suffix; [by eapply nextInLine_suffix|done].
  - destruct (match nextInLine false l2 with
              | Some v => (v, Some ls)
              | None => nextInLines ls
              end) as [v2 vs2] eqn:Hn.
    eapply (parseElems_collect body body_shrinks); [|done].
    rewrite iterElems_start. cbn [nextInLines].
    rewrite nextInLine_stop, Ht. by rewrite (nextInLine_ws _ _ _ Hw).
Qed.
End Lines.

Section JoinLines.
Context {E : Type}.
Variable body : string -> option E * string.
Hypothesis body_suffix : forall v, isSuffix (snd (body v)) v.
Variable bad : ascii.
Hypothesis body_stop : forall a t,
  noByte bad a = true ->
  body (a +:+ String "," t) = (fst (body a), snd (body a) +:+ String "," t).

Lemma parseElems_cons l ls :
  items (parseElems iterElems body (l :: ls))
  = items (parseElems iterElems body [l])
    ++ items (parseElems iterElems body ls).
Proof. apply (parseElems_lines body body_suffix [l] ls). Qed.

Lemma parseElems_comma l1 l2 :
  noByte bad l1 = true ->
  items (parseElems iterElems body [l1 +:+ "," +:+ l2])
  = items (parseElems iterElems body [l1])
    ++ items (parseElems iterElems body [l2]).
Proof.
  intros H1. change (l1 +:+ "," +:+ l2) with (l1 +:+ String "," ("" +:+ l2)).
  rewrite (parseElems_join body body_suffix bad body_stop l1 "" l2 [] H1)
    by done.
  apply parseElems_cons.
Qed.

End JoinLines.

(** ** Lines whose elements are closed

    The two sections above, for any property [ok] of a cursor that makes
    the pass at that cursor blind to what follows the next comma, and that
    the iterator hands on to the cursor of the next element. *)

Section OkLines.
Context {E : Type}.
Variable body : string -> option E * string.
Hypothesis body_suffix : forall v, isSuffix (snd (body v)) v.
Variable ok : string -> Prop.
Hypothesis body_ok : forall a t,
  ok a ->
  body (a +:+ String "," t) = (fst (body a), snd (body a) +:+ String "," t).
Hypothesis next_ok : forall a t,
  ok a -> nextInLine true (snd (body a)) = Some t -> ok t.

Lemma collect_join_ok n s w l2 ls :
  ok s -> allBytes isWS w = true ->
  collect iterElems body n (s +:+ String "," (w +:+ l2)) (Some ls)
  = collect iterElems body n s (Some (l2 :: ls)).
Proof.
  intros Hs Hw. revert s Hs. induction n as [|n IH]; intros s Hs; [done|].
  simpl. rewrite (body_ok _ _ Hs). pose proof (next_ok s) as Hnext.
  destruct (body s) as [oe r]. cbn [fst snd] in *.
  unfold iterElems. rewrite nextInLine_stop.
  destruct (nextInLine true r) as [t|] eqn:Hr.
  - rewrite IH; [done|]. by apply Hnext.
  - simpl. by rewrite (nextInLine_ws _ _ _ Hw).
Qed.

Lemma parseElems_join_ok l1 w l2 ls :
  (forall v, nextInLine false l1 = Some v -> ok v) ->
  allBytes isWS w = true ->
  parseElems iterElems body ((l1 +:+ String "," (w +:+ l2)) :: ls)
  = parseElems iterElems body (l1 :: l2 :: ls).
Proof.
  intros Hl Hw.
  destruct (parseElems_total body (body_shrinks body body_suffix)
              (l1 :: l2 :: ls)) as (es & H & ->).
  rewrite iterElems_start in H. cbn [nextInLines] in H.
  destruct (nextInLine false l1) as [t|] eqn:Ht.
  - eapply (parseElems_collect body (body_shrinks body body_suffix) _
              (t +:+ String "," (w +:+ l2)) (Some ls)).
    + rewrite iterElems_start. cbn [nextInLines].
      by rewrite nextInLine_stop, Ht.
    + rewrite collect_join_ok; [done| |done]. by apply Hl.
  - destruct (match nextInLine false l2 with
              | Some v => (v, Some ls)
              | None => nextInLines ls
              end) as [v2 vs2] eqn:Hn.
    eapply (parseElems_collect body (body_shrinks body body_suffix)); [|done].
    rewrite iterElems_start. cbn [nextInLines].
    rewrite nextInLine_stop, Ht. by rewrite (nextInLine_ws _ _ _ Hw).
Qed.

Lemma parseElems_comma_ok l1 l2 :
  (forall v, nextInLine false l1 = Some v -> ok v) ->
  items (parseElems iterElems body [l1 +:+ "," +:+ l2])
  = items (parseElems iterElems body [l1])
    ++ items (parseElems iterElems body [l2]).
Proof.
  intros H1. change (l1 +:+ "," +:+ l2) with (l1 +:+ String "," ("" +:+ l2)).
  rewrite (parseElems_join_ok l1 "" l2 [] H1) by done.
  apply (parseElems_cons body body_suffix l1 [l2]).
Qed.

Lemma parseElems_joinLines_ok lines :
  Forall (fun l => forall v, nextInLine false l = Some v -> ok v)
    (removelast lines) ->
  parseElems iterElems body [joinLines lines]
  = parseElems iterElems body lines.
Proof.
  induction lines as [|l ls IH]; [done|]. intros Hl.
  destruct ls as [|l' ls]; [done|].
  change (removelast (l :: l' :: ls)) with (l :: removelast (l' :: ls)) in Hl.
  apply Forall_cons in Hl as [Hl Hls].
  change (joinLines (l :: l' :: ls))
    with (l +:+ String "," (" " +:+ joinLines (l' :: ls))).
  rewrite (parseElems_join_ok _ _ _ _ Hl) by done.
  rewrite (parseElems_slice body body_suffix [l; _]).
  rewrite (parseElems_slice body body_suffix (l :: l' :: ls)).
  f_equal.
  rewrite (parseElems_cons body body_suffix l [_]).
  rewrite (parseElems_cons body body_suffix l (l' :: ls)).
  by rewrite IH.
Qed.
End OkLines.

(** The same, for the lines that [closedLine] accepts. *)
Section ClosedLines.
Context {E : Type}.
Variable body : string -> option E * string.
Hypothesis body_suffix : forall v, isSuffix (snd (body v)) v.
Variable elemClosed : string -> bool.
Hypothesis body_closed : forall a t,
  elemClosed a = true ->
  body (a +:+ String "," t) = (fst (body a), snd (body a) +:+ String "," t).

Lemma closedFrom_stop a t :
  (exists k, closedFrom body elemClosed k a = true) ->
  body (a +:+ String "," t) = (fst (body a), snd (body a) +:+ String "," t).
Proof.
  intros [[|k] Hk]; [done|]. simpl in Hk. apply andb_prop in Hk as [Hk _].
  by apply body_closed.
Qed.

Lemma closedFrom_next a t :
  (exists k, closedFrom body elemClosed k a = true) ->
  nextInLine true (snd (body a)) = Some t ->
  exists k, closedFrom body elemClosed k t = true.
Proof.
  intros [[|k] Hk] Ht; [done|]. simpl in Hk. apply andb_prop in Hk as [_ Hk].
  rewrite Ht in Hk. by exists k.
Qed.

Lemma closedLine_start l v :
  closedLine body elemClosed l = true -> nextInLine false l = Some v ->
  exists k, closedFrom body elemClosed k v = true.
Proof. unfold closedLine. intros Hl Hv. rewrite Hv in Hl. by eexists. Qed.

Lemma parseElems_comma_closed l1 l2 :
  closedLine body elemClosed l1 = true ->
  items (parseElems iterElems body [l1 +:+ "," +:+ l2])
  = items (parseElems iterElems body [l1])
    ++ items (parseElems iterElems body [l2]).
Proof.
  intros H1.
  apply (parseElems_comma_ok body body_suffix _ closedFrom_stop
           closedFrom_next).
  intros v. by apply closedLine_start.
Qed.

Lemma parseElems_joinLines_closed lines :
  Forall (fun l => closedLine body elemClosed l = true) (removelast lines) ->
  parseElems iterElems body [joinLines lines]
  = parseElems iterElems body lines.
Proof.
  intros Hl.
  apply (parseElems_joinLines_ok body body_suffix _ closedFrom_stop
           closedFrom_next).
  eapply Forall_impl; [exact Hl|]. intros l Hc v. by apply closedLine_start.
Qed.
End ClosedLines.

(** ** Terminated comments and quoted strings *)

Lemma quotedBody_closes v X :
  snd (quotedBody v) = true ->
  quotedBody (v +:+ X)
  = (fst (fst (quotedBody v)), snd (fst (quotedBody v)) +:+ X, true).
Proof.
  assert (forall n v, (String.length v < n)%nat ->
            snd (quotedBody v) = true ->
            quotedBody (v +:+ X)
            = (fst (fst (quotedBody v)), snd (fst (quotedBody v)) +:+ X, true))
    as H.
  { clear v. induction n as [|n IH]; intros v Hn Hv; [lia|].
    destruct v as [|c v]; [done|]. cbn [String.append quotedBody] in *.
    simpl in Hn. destruct (isByte c "034"); [done|].
    destruct (isByte c "\").
    - destruct v as [|d v]; [done|]. cbn [String.append] in *. simpl in Hn.
      specialize (IH v). destruct (quotedBody v) as [[t r] ok].
      cbn [fst snd] in *. rewrite IH; [done|lia|done].
    - specialize (IH v). destruct (quotedBody v) as [[t r] ok].
      cbn [fst snd] in *. rewrite IH; [done|lia|done]. }
  apply (H (S (String.length v))). lia.
Qed.

Lemma quoted_closes a t :
  quotedCloses a = true ->
  quoted (a +:+ String "," t) = (fst (quoted a), snd (quoted a) +:+ String "," t).
Proof.
  destruct a as [|c a]; [done|]. cbn [String.append quoted quotedCloses].
  destruct (isByte c "034"); [|done]. intros Ha.
  rewrite (quotedBody_closes a _ Ha).
  by destruct (quotedBody a) as [[u r] ok].
Qed.

Lemma commentBody_closes v X : forall d,
  commentCloses d v = true ->
  commentBody d (v +:+ X)
  = (fst (commentBody d v), snd (commentBody d v) +:+ X).
Proof.
  assert (forall n v d, (String.length v < n)%nat ->
            commentCloses d v = true ->
            commentBody d (v +:+ X)
            = (fst (commentBody d v), snd (commentBody d v) +:+ X)) as H.
  { clear v. induction n as [|n IH]; intros v d Hn Hv; [lia|].
    destruct v as [|c v]; [done|].
    cbn [String.append commentBody commentCloses] in *. simpl in Hn.
    destruct (isByte c ")").
    { destruct d as [|d]; [done|].
      specialize (IH v d). destruct (commentBody d v) as [u r].
      cbn [fst snd] in *. rewrite IH; [done|lia|done]. }
    destruct (isByte c "(").
    { specialize (IH v (S d)). destruct (commentBody (S d) v) as [u r].
      cbn [fst snd] in *. rewrite IH; [done|lia|done]. }
    destruct (isByte c "\").
    - destruct v as [|e v]; [done|]. cbn [String.append] in *. simpl in Hn.
      specialize (IH v d). destruct (commentBody d v) as [u r].
      cbn [fst snd] in *. rewrite IH; [done|lia|done].
    - specialize (IH v d). destruct (commentBody d v) as [u r].
      cbn [fst snd] in *. rewrite IH; [done|lia|done]. }
  intros d. apply (H (S (String.length v))). lia.
Qed.

(** The passes of [closedFrom] and of [pairsClosed] are fewer than the
    bytes of the cursor and one: with fuel above that, the answer does not
    depend on the fuel. *)
Lemma closedFrom_fuel {E} (body : string -> option E * string)
    (elemClosed : string -> bool) n m v :
  (forall v, isSuffix (snd (body v)) v) ->
  (String.length v < n)%nat -> (String.length v < m)%nat ->
  closedFrom body elemClosed n v = closedFrom body elemClosed m v.
Proof.
  intros Hs. revert m v. induction n as [|n IH]; intros m v Hn Hm; [lia|].
  destruct m as [|m]; [lia|]. simpl. f_equal.
  pose proof (isSuffix_length _ _ (Hs v)) as Hb.
  destruct (nextInLine true (snd (body v))) as [t|] eqn:Ht; [|done].
  apply nextInLine_length in Ht as [_ Ht]. specialize (Ht eq_refl).
  apply IH; lia.
Qed.

Lemma pairsClosed_fuel n m v :
  (String.length v < n)%nat -> (String.length v < m)%nat ->
  pairsClosed n v = pairsClosed m v.
Proof.
  revert m v. induction n as [|n IH]; intros m v Hn Hm; [lia|].
  destruct m as [|m]; [lia|]. simpl.
  pose proof (isSuffix_length _ _ (consumeItem_suffix v)) as H1.
  destruct (consumeItem v) as [name v1]. simpl in H1.
  destruct (isEmpty (ToLower name)).
  { destruct (peekIs v1 ";") eqn:Hp; [|done].
    apply dropByte_length in Hp. apply IH; lia. }
  destruct (peekIs v1 "=") eqn:Hp; [|done]. simpl.
  apply dropByte_length in Hp.
  destruct (peekIs (dropByte v1) "034").
  - pose proof (isSuffix_length _ _ (consumeQuoted_suffix (dropByte v1) true))
      as H2.
    destruct (consumeQuoted (dropByte v1) true) as [[value v3] ok].
    simpl in H2. f_equal. apply IH; lia.
  - pose proof (isSuffix_length _ _ (consumeItem_suffix (dropByte v1))) as H2.
    destruct (consumeItem (dropByte v1)) as [value v3].
    simpl in H2. apply IH; lia.
Qed.

Lemma parseViaElem_closed a t :
  viaElemClosed a = true ->
  parseViaElem (a +:+ String "," t)
  = (fst (parseViaElem a), snd (parseViaElem a) +:+ String "," t).
Proof.
  unfold viaElemClosed, parseViaElem. rewrite chomp_stop.
  destruct (chomp a) as [proto v1]. cbn [fst snd].
  destruct (isEmpty proto); [done|]. rewrite chomp_stop.
  destruct (chomp v1) as [rby v2]. cbn [fst snd].
  destruct (isEmpty rby); [done|]. rewrite peekIs_stop by done.
  destruct (peekIs v2 "(") eqn:Hp; [|done].
  destruct v2 as [|c v2]; [done|]. unfold peekIs in Hp. simpl in Hp.
  cbn [String.append comment dropByte]. rewrite Hp. intros Hc.
  rewrite (commentBody_closes v2 _ 0 Hc).
  by destruct (commentBody 0 v2).
Qed.

Lemma scanAll_closed t : forall n a e,
  pairsClosed n a = true ->
  scanAll (a +:+ String "," t) e
  = (fun r => (fst r, snd r +:+ String "," t)) <$> scanAll a e.
Proof.
  induction n as [|n IH]; intros a e Ha; [done|].
  rewrite (scanAll_unfold a), (scanAll_unfold (a +:+ _)).
  cbn [pairsClosed] in Ha. unfold consumeItem in *. rewrite token_stop.
  destruct (token a) as [name v1]. cbn [fst snd] in *. cbv beta iota zeta.
  destruct (isEmpty (ToLower name)).
  { rewrite peekIs_stop by done.
    destruct (peekIs v1 ";") eqn:Hp; [|done].
    rewrite (dropByte_app _ _ _ Hp). by apply IH. }
  rewrite peekIs_stop by done.
  destruct (peekIs v1 "=") eqn:Hp; [|done]. cbn [negb] in *. cbv iota in *.
  rewrite (dropByte_app _ _ _ Hp). rewrite peekIs_stop by done.
  destruct (peekIs (dropByte v1) "034") eqn:Hq.
  - destruct (dropByte v1) as [|c v2]; [done|]. unfold peekIs in Hq.
    simpl in Hq. cbn [String.append consumeQuoted] in *. rewrite Hq in *.
    destruct (quotedBody v2) as [[value v3] ok] eqn:Hb.
    apply andb_prop in Ha as [Hok Ha]. subst ok.
    rewrite (quotedBody_closes v2); [|by rewrite Hb].
    rewrite Hb. cbn [fst snd negb]. by apply IH.
  - rewrite token_stop.
    destruct (token (dropByte v1)) as [value v3]. cbn [fst snd] in *.
    by apply IH.
Qed.

Lemma parseForwardedElem_closed a t :
  forwardedElemClosed a = true ->
  parseForwardedElem (a +:+ String "," t)
  = (fst (parseForwardedElem a), snd (parseForwardedElem a) +:+ String "," t).
Proof.
  intros Ha. unfold parseForwardedElem. rewrite (scanAll_closed _ _ _ _ Ha).
  destruct (scanAll_total a zeroElem) as [[e v'] ->]. done.
Qed.

(** A cursor all of whose suffixes start closed elements is closed. *)
Lemma closedFrom_all {E} (body : string -> option E * string)
    (elemClosed : string -> bool) n v :
  (forall v, isSuffix (snd (body v)) v) ->
  (forall t, isSuffix t v -> elemClosed t = true) ->
  (String.length v < n)%nat -> closedFrom body elemClosed n v = true.
Proof.
  intros Hs. revert v. induction n as [|n IH]; intros v Hv Hn; [lia|].
  simpl. rewrite (Hv v (isSuffix_refl v)). simpl.
  pose proof (isSuffix_length _ _ (Hs v)) as Hb.
  destruct (nextInLine true (snd (body v))) as [t|] eqn:Ht; [|done].
  pose proof (nextInLine_suffix _ _ _ Ht) as Hsuf.
  apply nextInLine_length in Ht as [_ Ht]. specialize (Ht eq_refl).
  apply IH; [|lia]. intros u Hu. apply Hv.
  eapply isSuffix_trans; [done|]. by eapply isSuffix_trans.
Qed.

Lemma closedLine_all {E} (body : string -> option E * string)
    (elemClosed : string -> bool) l :
  (forall v, isSuffix (snd (body v)) v) ->
  (forall t, isSuffix t l -> elemClosed t = true) ->
  closedLine body elemClosed l = true.
Proof.
  intros Hs Hl. unfold closedLine.
  destruct (nextInLine false l) as [v|] eqn:Hv; [|done].
  pose proof (nextInLine_suffix _ _ _ Hv) as Hsuf.
  apply closedFrom_all; [done| |].
  - intros t Ht. apply Hl. by eapply isSuffix_trans.
  - apply isSuffix_length in Hsuf. lia.
Qed.

(** A line without opening parenthesis has no comment for [Via] to read,
    and a line without double quote no quoted string or value for
    [Forwarded] to read: they are closed. *)
Lemma viaClosed_noByte l : noByte "(" l = true -> viaClosed l = true.
Proof.
  intros Hl. apply closedLine_all; [apply parseViaElem_suffix|].
  intros t Ht. unfold viaElemClosed.
  pose proof (chomp_suffix t) as H1. destruct (chomp t) as [proto v1].
  destruct (isEmpty proto); [done|].
  pose proof (chomp_suffix v1) as H2. destruct (chomp v1) as [rby v2].
  destruct (isEmpty rby); [done|]. cbn [fst snd] in *.
  rewrite (peekIs_noByte "(" v2); [done|].
  eapply noByte_suffix; [|done].
  eapply isSuffix_trans; [done|]. by eapply isSuffix_trans.
Qed.

Lemma pairsClosed_noByte n a :
  noByte "034" a = true -> (String.length a < n)%nat ->
  pairsClosed n a = true.
Proof.
  revert a. induction n as [|n IH]; intros a Ha Hn; [lia|]. simpl.
  pose proof (consumeItem_suffix a) as H1.
  destruct (consumeItem a) as [name v1]. cbn [fst snd] in *.
  pose proof (isSuffix_length _ _ H1) as L1.
  destruct (isEmpty (ToLower name)).
  { destruct (peekIs v1 ";") eqn:Hp; [|done].
    apply dropByte_length in Hp. apply IH; [|lia].
    eapply noByte_suffix; [|done].
    eapply isSuffix_trans; [apply dropByte_suffix|done]. }
  destruct (peekIs v1 "=") eqn:Hp; [|done]. simpl.
  apply dropByte_length in Hp.
  assert (isSuffix (dropByte v1) a) as H2.
  { eapply isSuffix_trans; [apply dropByte_suffix|done]. }
  rewrite (peekIs_noByte "034" (dropByte v1)) by (by eapply noByte_suffix).
  pose proof (consumeItem_suffix (dropByte v1)) as H3.
  destruct (consumeItem (dropByte v1)) as [value v3]. cbn [fst snd] in *.
  pose proof (isSuffix_length _ _ H3) as L3.
  apply IH; [|lia]. eapply noByte_suffix; [|done]. by eapply isSuffix_trans.
Qed.

Lemma forwardedClosed_noByte l :
  noByte "034" l = true -> forwardedClosed l = true.
Proof.
  intros Hl. apply closedLine_all; [apply parseForwardedElem_suffix|].
  intros t Ht. apply pairsClosed_noByte; [by eapply noByte_suffix|lia].
Qed.

Lemma parseAllowElem_stop a t :
  parseAllowElem (a +:+ String "," t)
  = (fst (parseAllowElem a), snd (parseAllowElem a) +:+ String "," t).
Proof.
  unfold parseAllowElem. rewrite token_stop. by destruct (token a).
Qed.

Lemma parseVaryElem_suffix v : isSuffix (snd (parseVaryElem v)) v.
Proof.
  unfold parseVaryElem. pose proof (token_suffix v) as H.
  by destruct (token v).
Qed.

Lemma parseVaryElem_stop a t :
  parseVaryElem (a +:+ String "," t)
  = (fst (parseVaryElem a), snd (parseVaryElem a) +:+ String "," t).
Proof.
  unfold parseVaryElem. rewrite token_stop. by destruct (token a).
Qed.

(** ** Reading back what the builders write *)

Lemma tokenChar_facts c :
  isTokenChar c = true ->
  isWS c = false /\ isByte c "," = false /\ isByte c ";" = false /\
  isByte c "=" = false /\ isByte c "034" = false /\ isByte c "\" = false.
Proof.
  destruct c as [[] [] [] [] [] [] [] []]; vm_compute; intros H;
    try discriminate H; repeat split.
Qed.

Lemma quotedBody_escape v X :
  quotedBody (escape "034" "034" v +:+ String "034" X) = (v, X, true).
Proof.
  induction v as [|c v IH]; [done|]. simpl.
  destruct (isByte c "034") eqn:Hq; simpl.
  - change (isByte "\" "034") with false. change (isByte "\" "\") with true.
    cbv iota. by rewrite IH.
  - destruct (isByte c "\") eqn:Hb; simpl.
    + change (isByte "\" "034") with false. change (isByte "\" "\") with true.
      cbv iota. by rewrite IH.
    + rewrite Hq, Hb. by rewrite IH.
Qed.

Lemma commentBody_escape v d X :
  commentBody d (escape "(" ")" v +:+ X)
  = (v +:+ fst (commentBody d X), snd (commentBody d X)).
Proof.
  induction v as [|c v IH].
  { cbn [escape String.append]. by destruct (commentBody d X). }
  simpl.
  destruct (isByte c "(" || isByte c ")" || isByte c "\") eqn:Hc; simpl.
  - change (isByte "\" ")") with false. change (isByte "\" "(") with false.
    change (isByte "\" "\") with true. cbv iota. by rewrite IH.
  - apply orb_false_elim in Hc as [Hc Hb].
    apply orb_false_elim in Hc as [Ho Hc]. rewrite Ho, Hc, Hb.
    by rewrite IH.
Qed.

Lemma isEmpty_ToLower n : isEmpty (ToLower n) = isEmpty n.
Proof. by destruct n. Qed.

Lemma headFails_atElemEnd X : atElemEnd X = true -> headFails isTokenChar X = true.
Proof.
  destruct X as [|c X]; [done|]. simpl. unfold isByte. intros ->%Ascii.eqb_eq.
  done.
Qed.

Lemma headFails_semi Y : headFails isTokenChar (String ";" Y) = true.
Proof. done. Qed.

Lemma peekIs_app_name n X c :
  isName n = true -> isTokenChar c = false -> peekIs (n +:+ X) c = false.
Proof.
  unfold isName. destruct n as [|d n]; [done|]. simpl.
  intros [Hd _]%andb_prop Hc. unfold peekIs. simpl. unfold isByte.
  destruct (Ascii.eqb_spec d c); [congruence|done].
Qed.

(** A pair is read back where a semicolon, a comma or the end of the line
    follows it. *)
Lemma scanAll_pair n v X e :
  isName n = true -> (atElemEnd X = true \/ peekIs X ";" = true) ->
  scanAll (pairText (n, v) +:+ X) e = scanAll X (setParam (ToLower n) v e).
Proof.
  intros Hn HX. rewrite scanAll_unfold. unfold pairText. cbn [fst snd].
  rewrite !append_assoc. unfold consumeItem, token.
  pose proof Hn as Hn'. unfold isName in Hn'.
  apply andb_prop in Hn' as [Hne Htok].
  rewrite (span_app isTokenChar n _ Htok) by done.
  rewrite isEmpty_ToLower. destruct (isEmpty n); [done|].
  cbn [negb peekIs peek String.append dropByte]. cbv iota beta.
  change (isByte "=" "=") with true. cbv iota. cbn [negb].
  assert (headFails isTokenChar X = true) as HX'.
  { destruct HX as [HX|HX]; [by apply headFails_atElemEnd|].
    destruct X as [|c X]; [done|]. unfold peekIs in HX. simpl in *.
    unfold isByte in HX. apply Ascii.eqb_eq in HX. by subst. }
  assert (peekIs X "034" = false) as HXq.
  { destruct HX as [HX|HX]; destruct X as [|c X]; try done;
      unfold peekIs in *; simpl in *; unfold isByte in *;
      apply Ascii.eqb_eq in HX; by subst. }
  unfold valueText. destruct (allBytes isTokenChar v) eqn:Hv.
  - assert (peekIs (v +:+ X) "034" = false) as ->.
    { destruct v as [|c v]; [done|]. simpl in Hv.
      apply andb_prop in Hv as [Hc _]. apply tokenChar_facts in Hc.
      unfold peekIs. simpl. tauto. }
    by rewrite (span_app isTokenChar v X Hv HX').
  - cbn [String.append peekIs peek]. change (isByte "034" "034") with true.
    cbv iota. cbn [consumeQuoted]. change (isByte "034" "034") with true.
    cbv iota. rewrite append_assoc. cbn [String.append].
    by rewrite quotedBody_escape.
Qed.

Lemma scanAll_semi Y e : scanAll (String ";" Y) e = scanAll Y e.
Proof. by rewrite scanAll_unfold. Qed.

Lemma scanAll_end X e : atElemEnd X = true -> scanAll X e = Some (e, X).
Proof.
  intros HX. rewrite scanAll_unfold. unfold consumeItem, token.
  pose proof (span_app isTokenChar "" X eq_refl (headFails_atElemEnd X HX))
    as Hs.
  cbn [String.append] in Hs. rewrite Hs. cbn [ToLower isEmpty]. cbv iota.
  destruct X as [|c X]; [done|]. unfold peekIs. simpl in *.
  unfold isByte in *. apply Ascii.eqb_eq in HX. by subst.
Qed.

Lemma scanAll_seqPairs ps tail e :
  Forall (fun p => isName (fst p) = true) ps ->
  scanAll (seqPairs ps tail) e = scanAll tail (setParams ps e).
Proof.
  intros H. revert e. induction H as [|[n v] ps Hn _ IH]; intros e; [done|].
  cbn [seqPairs]. rewrite (scanAll_pair n v _ e Hn) by (by right).
  cbn [String.append]. rewrite scanAll_semi. apply IH.
Qed.

Lemma scanAll_joinPairs ps X e :
  Forall (fun p => isName (fst p) = true) ps -> atElemEnd X = true ->
  scanAll (joinPairs ps +:+ X) e = Some (setParams ps e, X).
Proof.
  intros H HX. revert e. induction H as [|[n v] ps Hn Hps IH]; intros e.
  { by apply scanAll_end. }
  destruct ps as [|p ps].
  - cbn [joinPairs]. rewrite (scanAll_pair n v X e Hn) by (by left).
    by apply scanAll_end.
  - change (joinPairs ((n, v) :: p :: ps))
      with (pairText (n, v) +:+ ";" +:+ joinPairs (p :: ps)).
    rewrite !append_assoc.
    rewrite (scanAll_pair n v _ e Hn) by (by right).
    cbn [String.append]. rewrite scanAll_semi. apply IH.
Qed.

(** ** Round trips, for any parser and builder of the same shape *)

Lemma collect_S {E} (body : string -> option E * string) n v ls :
  collect iterElems body (S n) v (Some ls)
  = let '(oe, v1) := body v in
    let '(v2, vs2) := iterElems v1 ls in
    match collect iterElems body n v2 vs2 with
    | Some es => Some (option_list oe ++ es)
    | None => None
    end.
Proof. done. Qed.

Lemma iterElems_comma_space J ls :
  nextInLine false J = Some J ->
  iterElems (String "," (String " " J)) ls = (J, Some ls).
Proof.
  intros H. unfold iterElems.
  change (nextInLine true (String "," (String " " J)))
    with (nextInLine false J).
  by rewrite H.
Qed.

Section RoundTrip.
Context {E : Type}.
Variable body : string -> option E * string.
Variable text : E -> string.
Variable wf : E -> Prop.
Hypothesis body_suffix : forall v, isSuffix (snd (body v)) v.
Hypothesis body_text : forall e X,
  wf e -> atElemEnd X = true -> body (text e +:+ X) = (Some e, X).
Hypothesis text_start : forall e X,
  wf e -> nextInLine false (text e +:+ X) = Some (text e +:+ X).

Lemma joinLines_start e es :
  wf e ->
  nextInLine false (joinLines (text <$> e :: es))
  = Some (joinLines (text <$> e :: es)).
Proof.
  intros He. destruct es as [|e' es].
  - cbn [fmap list_fmap joinLines]. rewrite <- (append_nil_r (text e)).
    by apply text_start.
  - change (joinLines (text <$> e :: e' :: es))
      with (text e +:+ ", " +:+ joinLines (text <$> e' :: es)).
    by apply text_start.
Qed.

Lemma collect_texts es :
  Forall wf es -> es <> [] ->
  collect iterElems body (length es) (joinLines (text <$> es)) (Some [])
  = Some es.
Proof.
  induction 1 as [|e es He Hes IH]; intros Hne; [done|]. clear Hne.
  destruct es as [|e' es].
  - cbn [fmap list_fmap joinLines length]. rewrite collect_S.
    rewrite <- (append_nil_r (text e)), (body_text e "" He) by done. done.
  - change (joinLines (text <$> e :: e' :: es))
      with (text e +:+ String ","
              (String " " (joinLines (text <$> e' :: es)))).
    change (length (e :: e' :: es)) with (S (length (e' :: es))).
    rewrite collect_S, (body_text e _ He) by done.
    inversion Hes as [|? ? He' Hes']; subst.
    rewrite (iterElems_comma_space _ _ (joinLines_start e' es He')).
    rewrite IH by done. done.
Qed.

(** The parser reads back the entries whose texts were joined into the
    one line of the header. *)
Lemma parseElems_texts es :
  Forall wf es ->
  parseElems iterElems body [joinLines (text <$> es)]
  = appendList nilSlice es.
Proof.
  intros Hes. destruct es as [|e es]; [done|].
  eapply (parseElems_collect body (body_shrinks body body_suffix)).
  - rewrite iterElems_start. cbn [nextInLines].
    inversion Hes; subst. by rewrite joinLines_start.
  - by apply collect_texts.
Qed.

Variable build : string -> nat -> E -> string.
Hypothesis build_text : forall b i e,
  build b i e = b +:+ (if (0 <? i)%nat then ", " else "") +:+ text e.

Lemma rangeFrom_build_S i es b :
  rangeFrom build (S i) es b
  = b +:+ foldr (fun e t => ", " +:+ text e +:+ t) "" es.
Proof.
  revert i b. induction es as [|e es IH]; intros i b; simpl.
  - by rewrite append_nil_r.
  - rewrite IH, build_text. simpl. by rewrite !append_assoc.
Qed.

Lemma joinLines_foldr e es :
  joinLines (text <$> e :: es)
  = text e +:+ foldr (fun e t => ", " +:+ text e +:+ t) "" es.
Proof.
  revert e. induction es as [|e' es IH]; intros e.
  - simpl. by rewrite append_nil_r.
  - change (joinLines (text <$> e :: e' :: es))
      with (text e +:+ ", " +:+ joinLines (text <$> e' :: es)).
    by rewrite IH.
Qed.

Lemma rangeFrom_build es :
  rangeFrom build 0 es "" = joinLines (text <$> es).
Proof.
  destruct es as [|e es]; [done|]. cbn [rangeFrom].
  rewrite rangeFrom_build_S, build_text, joinLines_foldr. done.
Qed.
End RoundTrip.

(** ** Via entries read back *)

Lemma skipWS_word b Y : isWord b = true -> skipWS (b +:+ Y) = b +:+ Y.
Proof.
  unfold isWord. destruct b as [|c b]; [done|]. simpl.
  intros [Hc _]%andb_prop. unfold skipWS. simpl.
  apply negb_true_iff, orb_false_elim in Hc as [-> _]. done.
Qed.

Lemma skipWS_atElemEnd X : atElemEnd X = true -> skipWS X = X.
Proof.
  destruct X as [|c X]; [done|]. simpl. unfold isByte.
  intros ->%Ascii.eqb_eq. done.
Qed.

Lemma chomp_word a X :
  isWord a = true ->
  headFails (fun c => negb (isWS c || isByte c ",")) X = true ->
  chomp (a +:+ X) = (a, skipWS X).
Proof.
  unfold isWord, chomp. intros [_ Ha]%andb_prop HX.
  by rewrite (span_app _ a X Ha HX).
Qed.

Lemma isWord_start a X :
  isWord a = true -> nextInLine false (a +:+ X) = Some (a +:+ X).
Proof.
  unfold isWord. destruct a as [|c a]; [done|]. simpl.
  intros [Hc _]%andb_prop.
  apply negb_true_iff, orb_false_elim in Hc as [-> ->]. done.
Qed.

Lemma isWord_nonempty a : isWord a = true -> isEmpty a = false.
Proof. unfold isWord. by destruct a. Qed.

Lemma skipWS_space s : skipWS (String " " s) = skipWS s.
Proof. unfold skipWS. simpl. by destruct (span isWS s). Qed.

Lemma chomp_word_space a b Y :
  isWord a = true -> isWord b = true ->
  chomp (a +:+ String " " (b +:+ Y)) = (a, b +:+ Y).
Proof.
  intros Ha Hb. rewrite (chomp_word a _ Ha) by done.
  by rewrite skipWS_space, skipWS_word.
Qed.

Lemma chomp_word_end a X :
  isWord a = true -> atElemEnd X = true -> chomp (a +:+ X) = (a, X).
Proof.
  intros Ha HX. rewrite (chomp_word a _ Ha), (skipWS_atElemEnd X HX); [done|].
  destruct X as [|d X]; [done|]. simpl in *. unfold isByte in *.
  apply Ascii.eqb_eq in HX. by subst.
Qed.

Lemma chomp_word_then a c Y :
  isWord a = true -> isWS c = false ->
  chomp (a +:+ String " " (String c Y)) = (a, String c Y).
Proof.
  intros Ha Hc. rewrite (chomp_word a _ Ha) by done.
  rewrite skipWS_space. unfold skipWS. simpl. by rewrite Hc.
Qed.

Lemma peekIs_atElemEnd X c :
  atElemEnd X = true -> isByte "," c = false -> peekIs X c = false.
Proof.
  destruct X as [|d X]; [done|]. unfold peekIs. simpl. unfold isByte.
  intros ->%Ascii.eqb_eq. done.
Qed.

Lemma parseViaElem_text e X :
  wfViaEntry e = true -> atElemEnd X = true ->
  parseViaElem (viaText e +:+ X) = (Some e, X).
Proof.
  unfold wfViaEntry, viaText. destruct e as [proto rby c].
  cbn [ReceivedProto ReceivedBy Comment]. set (p := TrimPrefix proto "HTTP/").
  intros [[Hp Hb]%andb_prop Heq%String.eqb_eq]%andb_prop HX.
  assert ((if negb (ContainsRune p "/") then "HTTP/" +:+ p else p) = proto)
    as Hproto.
  { symmetry. etransitivity; [exact Heq|]. by destruct (ContainsRune p "/"). }
  unfold parseViaElem. rewrite !append_assoc. cbn [String.append] in *.
  rewrite (chomp_word_space p rby _ Hp Hb).
  rewrite (isWord_nonempty p Hp), Hproto.
  destruct (isEmpty c) eqn:Hc.
  - cbn [String.append]. rewrite (chomp_word_end rby X Hb HX).
    rewrite (isWord_nonempty rby Hb), (peekIs_atElemEnd X "(" HX) by done.
    by destruct c.
  - cbn [String.append]. rewrite (chomp_word_then rby "(" _ Hb) by done.
    rewrite (isWord_nonempty rby Hb).
    change (peekIs (String "(" ?s) "(") with true. cbv iota.
    change (comment (String "(" ?s)) with (commentBody 0 s).
    rewrite append_assoc, commentBody_escape.
    change (commentBody 0 (")" +:+ X)) with (EmptyString, X).
    cbn [fst snd]. by rewrite append_nil_r.
Qed.

Lemma viaText_start e X :
  wfViaEntry e = true ->
  nextInLine false (viaText e +:+ X) = Some (viaText e +:+ X).
Proof.
  unfold wfViaEntry, viaText. intros [[Hp _]%andb_prop _]%andb_prop.
  rewrite !append_assoc. by apply isWord_start.
Qed.

Lemma buildViaEntry_text b i e :
  buildViaEntry b i e = b +:+ (if (0 <? i)%nat then ", " else "") +:+ viaText e.
Proof.
  unfold buildViaEntry, viaText, writeDelimited, writeString.
  destruct (0 <? i)%nat, (isEmpty (Comment e)); simpl;
    rewrite ?append_assoc, ?append_nil_r; simpl; try done.
Qed.

Lemma parseElems_build_texts {E} (body : string -> option E * string)
    (text : E -> string) (wf : E -> Prop)
    (build : string -> nat -> E -> string) es :
  (forall v, isSuffix (snd (body v)) v) ->
  (forall e X, wf e -> atElemEnd X = true -> body (text e +:+ X) = (Some e, X)) ->
  (forall e X, wf e -> nextInLine false (text e +:+ X) = Some (text e +:+ X)) ->
  (forall b i e,
     build b i e = b +:+ (if (0 <? i)%nat then ", " else "") +:+ text e) ->
  Forall wf es ->
  parseElems iterElems body [rangeFrom build 0 es ""] = appendList nilSlice es.
Proof.
  intros H1 H2 H3 H4 Hes. rewrite (rangeFrom_build text build H4).
  by apply (parseElems_texts body text wf).
Qed.

Lemma values_Set h name value : values (Set_ h name value) name = [value].
Proof. unfold values, Set_. by rewrite lookup_insert_eq. Qed.

Lemma Via_SetVia h es :
  Forall (fun e => wfViaEntry e = true) es ->
  Via (SetVia h es) = appendList nilSlice es.
Proof.
  intros Hes. unfold Via, SetVia, buildVia, toNextElem. rewrite values_Set.
  apply (parseElems_build_texts parseViaElem viaText
           (fun e => wfViaEntry e = true) buildViaEntry); try done.
  - apply parseViaElem_suffix.
  - apply parseViaElem_text.
  - apply viaText_start.
  - apply buildViaEntry_text.
Qed.

(** ** Warning entries read back *)

Lemma string_of_uint_digits d : allBytes isDigit (NilEmpty.string_of_uint d) = true.
Proof. induction d; simpl; try done. Qed.

Lemma Itoa_digits n : 0 <= n -> allBytes isDigit (Itoa n) = true.
Proof. destruct n; [done| |lia]. intros _. apply string_of_uint_digits. Qed.

Lemma number_Itoa n X :
  0 <= n -> headFails isDigit X = true -> number (Itoa n +:+ X) = (n, X).
Proof.
  intros Hn HX. unfold number.
  rewrite (span_app isDigit (Itoa n) X (Itoa_digits n Hn) HX).
  destruct n as [|p|p]; [done| |lia]. unfold Itoa.
  rewrite NilEmpty.usu. unfold N.of_uint. rewrite Unsigned.of_to.
  pose proof (Unsigned.to_uint_nonnil p) as Hnil.
  destruct (Pos.to_uint p); try done.
Qed.

Lemma quoted_quotedText t X : quoted (quotedText t +:+ X) = (t, X).
Proof.
  unfold quotedText. cbn [String.append quoted].
  change (isByte "034" "034") with true. cbv iota.
  rewrite append_assoc. cbn [String.append]. by rewrite quotedBody_escape.
Qed.

Lemma escape_plain o c t :
  noByte o t = true -> noByte c t = true -> noByte "\" t = true ->
  escape o c t = t.
Proof.
  unfold noByte. induction t as [|d t IH]; [done|]. simpl.
  intros [H1 H1']%andb_prop [H2 H2']%andb_prop [H3 H3']%andb_prop.
  apply negb_true_iff in H1, H2, H3. rewrite H1, H2, H3. simpl.
  by rewrite IH.
Qed.

Lemma consume_atElemEnd X :
  atElemEnd X = true -> consume X " " = (X, false).
Proof.
  destruct X as [|c X]; [done|]. simpl. unfold isByte.
  intros ->%Ascii.eqb_eq. done.
Qed.

(** A header of one line that is one element. *)
Lemma parseElems_one {E} (body : string -> option E * string) l oe r :
  (forall v, isSuffix (snd (body v)) v) ->
  nextInLine false l = Some l -> body l = (oe, r) ->
  nextInLine true r = None ->
  parseElems iterElems body [l] = appendList nilSlice (option_list oe).
Proof.
  intros Hs Hl Hb Hr.
  eapply (parseElems_collect body (body_shrinks body Hs) _ _ _ 1).
  - rewrite iterElems_start. cbn [nextInLines]. by rewrite Hl.
  - rewrite collect_S, Hb. unfold iterElems. rewrite Hr. simpl.
    by rewrite List.app_nil_r.
Qed.

(** ** Forwarded: what the pairs assign *)

Lemma isName_start n X :
  isName n = true -> nextInLine false (n +:+ X) = Some (n +:+ X).
Proof.
  unfold isName. destruct n as [|c n]; [done|]. simpl.
  intros [Hc _]%andb_prop. apply tokenChar_facts in Hc as (-> & -> & _).
  done.
Qed.

Lemma seqPairs_start ps n X :
  Forall (fun p => isName (fst p) = true) ps -> isName n = true ->
  nextInLine false (seqPairs ps (n +:+ X)) = Some (seqPairs ps (n +:+ X)).
Proof.
  intros Hps Hn. destruct Hps as [|[m v] ps Hm _]; [by apply isName_start|].
  cbn [seqPairs]. unfold pairText. cbn [fst snd]. rewrite !append_assoc.
  by apply isName_start.
Qed.

Lemma joinPairs_start ps X :
  Forall (fun p => isName (fst p) = true) ps -> ps <> [] ->
  nextInLine false (joinPairs ps +:+ X) = Some (joinPairs ps +:+ X).
Proof.
  intros Hps Hne. destruct Hps as [|[m v] ps Hm _]; [done|].
  destruct ps as [|p ps].
  - cbn [joinPairs]. unfold pairText. cbn [fst snd]. rewrite !append_assoc.
    by apply isName_start.
  - change (joinPairs ((m, v) :: p :: ps))
      with (pairText (m, v) +:+ ";" +:+ joinPairs (p :: ps)).
    unfold pairText. cbn [fst snd]. rewrite !append_assoc.
    by apply isName_start.
Qed.

Lemma quotedBody_unterminated s :
  snd (quotedBody s) = false -> snd (fst (quotedBody s)) = "".
Proof.
  assert (forall n s, (String.length s < n)%nat ->
            snd (quotedBody s) = false -> snd (fst (quotedBody s)) = "") as H.
  { clear s. induction n as [|n IH]; intros s Hn; [lia|].
    destruct s as [|c s]; [done|]. simpl in *.
    destruct (isByte c "034"); [done|].
    destruct (isByte c "\").
    - destruct s as [|d s]; [done|]. specialize (IH s). simpl in Hn.
      destruct (quotedBody s) as [[t r] ok]. simpl in *. apply IH. lia.
    - specialize (IH s). destruct (quotedBody s) as [[t r] ok]. simpl in *.
      apply IH. lia. }
  apply (H (S (String.length s))). lia.
Qed.

Lemma scanAll_unterminated n s e :
  isName n = true -> snd (quotedBody s) = false ->
  scanAll (n +:+ "=" +:+ String "034" s) e = Some (e, "").
Proof.
  intros Hn Hs. rewrite scanAll_unfold. unfold consumeItem, token.
  pose proof Hn as Hn'. unfold isName in Hn'.
  apply andb_prop in Hn' as [Hne Htok].
  rewrite (span_app isTokenChar n _ Htok) by done.
  rewrite isEmpty_ToLower. destruct (isEmpty n); [done|].
  cbn [String.append peekIs peek dropByte]. change (isByte "=" "=") with true.
  cbn [negb]. cbv iota. change (isByte "034" "034") with true. cbv iota.
  cbn [consumeQuoted]. change (isByte "034" "034") with true. cbv iota.
  pose proof (quotedBody_unterminated s Hs) as Hr.
  destruct (quotedBody s) as [[t r] ok]. simpl in *. by subst.
Qed.

Lemma setParam_For n v e :
  For (setParam n v e) = if String.eqb n "for" then v else For e.
Proof. unfold setParam. repeat case_match; done. Qed.

Lemma setParam_By n v e :
  By (setParam n v e) = if String.eqb n "by" then v else By e.
Proof.
  unfold setParam. repeat case_match; try done;
    repeat match goal with H : String.eqb _ _ = true |- _ =>
      apply String.eqb_eq in H end; by subst.
Qed.

Lemma setParam_Host n v e :
  Host (setParam n v e) = if String.eqb n "host" then v else Host e.
Proof.
  unfold setParam. repeat case_match; try done;
    repeat match goal with H : String.eqb _ _ = true |- _ =>
      apply String.eqb_eq in H end; by subst.
Qed.

Lemma setParam_Proto n v e :
  Proto (setParam n v e) = if String.eqb n "proto" then ToLower v else Proto e.
Proof.
  unfold setParam. repeat case_match; try done;
    repeat match goal with H : String.eqb _ _ = true |- _ =>
      apply String.eqb_eq in H end; by subst.
Qed.

Lemma setParams_For ps e : For (setParams ps e) = lastValue "for" ps (For e).
Proof.
  revert e. induction ps as [|[n v] ps IH]; intros e; [done|].
  unfold setParams, lastValue in *. cbn [foldl fst snd].
  by rewrite IH, setParam_For.
Qed.

Lemma setParams_By ps e : By (setParams ps e) = lastValue "by" ps (By e).
Proof.
  revert e. induction ps as [|[n v] ps IH]; intros e; [done|].
  unfold setParams, lastValue in *. cbn [foldl fst snd].
  by rewrite IH, setParam_By.
Qed.

Lemma setParams_Host ps e : Host (setParams ps e) = lastValue "host" ps (Host e).
Proof.
  revert e. induction ps as [|[n v] ps IH]; intros e; [done|].
  unfold setParams, lastValue in *. cbn [foldl fst snd].
  by rewrite IH, setParam_Host.
Qed.

Lemma setParams_Proto ps e d :
  ToLower d = Proto e ->
  Proto (setParams ps e) = ToLower (lastValue "proto" ps d).
Proof.
  revert e d. induction ps as [|[n v] ps IH]; intros e d Hd; [done|].
  unfold setParams, lastValue in *. cbn [foldl fst snd].
  apply IH. rewrite setParam_Proto. by destruct (String.eqb _ _).
Qed.

Lemma setParam_noStandardKey n v e :
  extHasNoStandardKey e -> extHasNoStandardKey (setParam n v e).
Proof.
  unfold extHasNoStandardKey, setParam. intros He.
  destruct (String.eqb n "for") eqn:H1; [done|].
  destruct (String.eqb n "by") eqn:H2; [done|].
  destruct (String.eqb n "host") eqn:H3; [done|].
  destruct (String.eqb n "proto") eqn:H4; [done|].
  cbn [Ext]. intros m [= <-].
  apply String.eqb_neq in H1, H2, H3, H4.
  rewrite !lookup_insert_ne by done.
  destruct (Ext e) as [m0|]; [by apply He|]. simpl.
  by rewrite !lookup_empty.
Qed.

Lemma scanPairs_noStandardKey fuel v e e' v' :
  extHasNoStandardKey e -> scanPairs fuel v e = Some (e', v') ->
  extHasNoStandardKey e'.
Proof.
  revert v e. induction fuel as [|n IH]; intros v e He H; [done|].
  simpl in H. destruct (consumeItem v) as [name v1].
  destruct (isEmpty (ToLower name)).
  { destruct (peekIs v1 ";"); [by eapply IH|by simplify_eq]. }
  destruct (peekIs v1 "="); simpl in H; [|by simplify_eq].
  destruct (peekIs (dropByte v1) "034").
  - destruct (consumeQuoted (dropByte v1) true) as [[value v3] ok].
    destruct ok; simpl in H; [|by simplify_eq].
    eapply IH; [|done]. by apply setParam_noStandardKey.
  - destruct (consumeItem (dropByte v1)) as [value v3].
    eapply IH; [|done]. by apply setParam_noStandardKey.
Qed.

Lemma parseForwardedElem_noStandardKey v e :
  fst (parseForwardedElem v) = Some e -> extHasNoStandardKey e.
Proof.
  unfold parseForwardedElem, scanAll.
  destruct (scanPairs _ v zeroElem) as [[e' v']|] eqn:H; simpl;
    intros [= <-]; [|done].
  eapply scanPairs_noStandardKey; [|done]. done.
Qed.

Lemma parseForwardedElem_joinPairs ps X :
  Forall (fun p => isName (fst p) = true) ps -> atElemEnd X = true ->
  parseForwardedElem (joinPairs ps +:+ X) = (Some (setParams ps zeroElem), X).
Proof.
  intros Hps HX. unfold parseForwardedElem.
  by rewrite (scanAll_joinPairs ps X zeroElem Hps HX).
Qed.

(** ** One pass for each element *)

Lemma collect_cursors {E} (body : string -> option E * string) n v vs :
  collect iterElems body n v vs
  = omap (M:=list) (fun v => fst (body v))
    <$> collect iterElems (fun v => (Some v, snd (body v))) n v vs.
Proof.
  revert v vs. induction n as [|n IH]; intros v vs; destruct vs as [ls|];
    try done.
  cbn [collect]. destruct (body v) as [oe v1] eqn:Hb. cbn [fst snd].
  destruct (iterElems v1 ls) as [v2 vs2]. rewrite IH.
  destruct (collect iterElems _ n v2 vs2) as [cs|]; [|done]. simpl.
  rewrite Hb. by destruct oe.
Qed.

Lemma items_parseElems_cursors {E} (body : string -> option E * string) lines :
  items (parseElems iterElems body lines)
  = omap (M:=list) (fun v => fst (body v)) (elemCursors body lines).
Proof.
  unfold elemCursors, parseElems. destruct (iterElems "" lines) as [v vs].
  rewrite !elemLoop_collect, collect_cursors.
  destruct (collect iterElems _ (budget lines) v vs) as [cs|]; [|done].
  simpl. by rewrite !items_appendList.
Qed.

Lemma length_omap_total {A B} (f : A -> option B) l :
  (forall x, is_Some (f x)) -> length (omap (M:=list) f l) = length l.
Proof.
  intros Hf. induction l as [|x l IH]; [done|]. simpl.
  destruct (Hf x) as [y ->]. simpl. by f_equal.
Qed.

Lemma splitComma_nocomma v : noByte "," v = true -> splitComma v = [v].
Proof.
  unfold noByte. induction v as [|c v IH]; [done|]. simpl.
  intros [Hc Hv]%andb_prop. apply negb_true_iff in Hc. rewrite Hc.
  by rewrite (IH Hv).
Qed.

Lemma splitComma_comma a b :
  noByte "," a = true -> splitComma (a +:+ String "," b) = a :: splitComma b.
Proof.
  unfold noByte. induction a as [|c a IH]; [done|]. simpl.
  intros [Hc Ha]%andb_prop. apply negb_true_iff in Hc. rewrite Hc.
  by rewrite (IH Ha).
Qed.

Lemma first_comma v :
  noByte "," v = true \/
  exists a b, v = a +:+ String "," b /\ noByte "," a = true.
Proof.
  induction v as [|c v IH]; [by left|].
  destruct (isByte c ",") eqn:Hc.
  - right. exists "", v. unfold isByte in Hc. apply Ascii.eqb_eq in Hc.
    by subst.
  - destruct IH as [Hv|(a & b & -> & Ha)].
    + left. unfold noByte in *. simpl. by rewrite Hc.
    + right. exists (String c a), b. split; [done|].
      unfold noByte in *. simpl. by rewrite Hc.
Qed.

Lemma nextInLine_true_nocomma r : noByte "," r = true -> nextInLine true r = None.
Proof.
  unfold noByte. induction r as [|c r IH]; [done|]. simpl.
  intros [Hc Hr]%andb_prop. apply negb_true_iff in Hc. rewrite Hc.
  destruct (isWS c); by apply IH.
Qed.

Lemma nextInLine_false_nocomma a :
  noByte "," a = true ->
  match nextInLine false a with
  | Some _ => allBytes isWS a = false
  | None => allBytes isWS a = true
  end.
Proof.
  unfold noByte. induction a as [|c a IH]; [done|]. simpl.
  intros [Hc Ha]%andb_prop. apply negb_true_iff in Hc. rewrite Hc.
  destruct (isWS c); [by apply IH|done].
Qed.

Section Count.
Context {E : Type}.
Variable body : string -> option E * string.
Hypothesis body_suffix : forall v, isSuffix (snd (body v)) v.
Hypothesis body_appends : forall v, is_Some (fst (body v)).
Variable bad : ascii.
Hypothesis body_stop : forall a t,
  noByte bad a = true ->
  body (a +:+ String "," t) = (fst (body a), snd (body a) +:+ String "," t).

Lemma count_piece a :
  noByte "," a = true ->
  length (items (parseElems iterElems body [a]))
  = if allBytes isWS a then 0%nat else 1%nat.
Proof.
  intros Ha. pose proof (nextInLine_false_nocomma a Ha) as Hn.
  destruct (nextInLine false a) as [t|] eqn:Ht.
  - rewrite Hn. destruct (body t) as [oe r] eqn:Hb.
    pose proof (body_appends t) as [e He]. rewrite Hb in He. simpl in He.
    subst oe.
    assert (parseElems iterElems body [a] = appendList nilSlice [e]) as ->;
      [|done].
    eapply (parseElems_collect body (body_shrinks body body_suffix) _ _ _ 1).
    + rewrite iterElems_start. cbn [nextInLines]. by rewrite Ht.
    + rewrite collect_S, Hb. unfold iterElems.
      rewrite nextInLine_true_nocomma; [done|].
      eapply noByte_suffix; [|done].
      eapply isSuffix_trans; [|by eapply nextInLine_suffix].
      pose proof (body_suffix t) as Hs. by rewrite Hb in Hs.
  - rewrite Hn. unfold parseElems. rewrite iterElems_start.
    cbn [nextInLines]. by rewrite Ht.
Qed.

Lemma count_line l :
  noByte bad l = true ->
  length (items (parseElems iterElems body [l])) = countElems l.
Proof.
  assert (forall n l, (String.length l < n)%nat -> noByte bad l = true ->
            length (items (parseElems iterElems body [l])) = countElems l)
    as H.
  { clear l. induction n as [|n IH]; intros l Hn Hl; [lia|].
    destruct (first_comma l) as [Hc|(a & b & -> & Ha)].
    - rewrite (count_piece l Hc). unfold countElems.
      rewrite (splitComma_nocomma l Hc). simpl.
      by destruct (allBytes isWS l).
    - unfold noByte in Hl. rewrite allBytes_app in Hl.
      apply andb_prop in Hl as [Hla Hlb]. simpl in Hlb.
      apply andb_prop in Hlb as [_ Hlb].
      change (a +:+ String "," b) with (a +:+ "," +:+ b).
      rewrite (parseElems_comma body body_suffix bad body_stop a b Hla).
      rewrite length_app, (count_piece a Ha).
      rewrite (IH b); [|rewrite length_append in Hn; simpl in Hn; lia|done].
      unfold countElems.
      change (a +:+ "," +:+ b) with (a +:+ String "," b).
      rewrite (splitComma_comma a b Ha). simpl.
      by destruct (allBytes isWS a). }
  apply (H (S (String.length l))). lia.
Qed.

(** The entries of a header without the byte [bad] are as many as the
    non-empty comma-separated elements of its lines. *)
Lemma count_lines lines :
  Forall (fun l => noByte bad l = true) lines ->
  length (items (parseElems iterElems body lines))
  = sum_list (countElems <$> lines).
Proof.
  induction 1 as [|l ls Hl _ IH]; [done|].
  rewrite (parseElems_cons body body_suffix), length_app, IH.
  by rewrite (count_line l Hl).
Qed.
End Count.

(** ** Forwarded elements read back *)

Lemma writeParam_text b wrote n v :
  writeParam b wrote n v
  = (b +:+ (if wrote then ";" else "") +:+ pairText (n, v), true).
Proof.
  unfold writeParam, pairText, valueText, writeDelimited, writeString.
  cbn [fst snd].
  destruct wrote, (allBytes isTokenChar v);
    rewrite ?append_assoc, ?append_nil_r; cbn [String.append];
    rewrite ?append_assoc, ?append_nil_r; done.
Qed.

Lemma foldl_writeParam_true b ps :
  foldl (fun st nv => writeParam (fst st) (snd st) (fst nv) (snd nv))
    (b, true) ps
  = (b +:+ foldr (fun p t => ";" +:+ pairText p +:+ t) "" ps, true).
Proof.
  revert b. induction ps as [|[n v] ps IH]; intros b.
  - simpl. by rewrite append_nil_r.
  - cbn [foldl fst snd]. rewrite writeParam_text, IH. cbn [foldr].
    by rewrite !append_assoc.
Qed.

Lemma joinPairs_foldr p ps :
  joinPairs (p :: ps)
  = pairText p +:+ foldr (fun p t => ";" +:+ pairText p +:+ t) "" ps.
Proof.
  revert p. induction ps as [|q ps IH]; intros p.
  - simpl. by rewrite append_nil_r.
  - change (joinPairs (p :: q :: ps))
      with (pairText p +:+ ";" +:+ joinPairs (q :: ps)).
    by rewrite IH.
Qed.

Lemma foldl_writeParam_false b ps :
  fst (foldl (fun st nv => writeParam (fst st) (snd st) (fst nv) (snd nv))
         (b, false) ps)
  = b +:+ joinPairs ps.
Proof.
  destruct ps as [|[n v] ps].
  - simpl. by rewrite append_nil_r.
  - cbn [foldl fst snd]. rewrite writeParam_text, foldl_writeParam_true.
    rewrite joinPairs_foldr. cbn [fst String.append].
    by rewrite !append_assoc.
Qed.

Lemma buildForwardedElem_text range b i e :
  buildForwardedElem range b i e
  = b +:+ (if (0 <? i)%nat then ", " else "") +:+ forwardedText range e.
Proof.
  unfold buildForwardedElem, forwardedText, elemPairs, writeString.
  set (step := fun st nv => writeParam (fst st) (snd st) (fst nv) (snd nv)).
  set (b' := if (0 <? i)%nat then b +:+ ", " else b).
  assert (b +:+ (if (0 <? i)%nat then ", " else "") = b') as Hb'.
  { unfold b'. destruct (0 <? i)%nat; [done|by rewrite append_nil_r]. }
  rewrite <- append_assoc, Hb'.
  rewrite <- (foldl_writeParam_false b').
  fold step. rewrite foldl_app. f_equal. f_equal.
  unfold stdPairs.
  destruct (isEmpty (For e)), (isEmpty (By e)), (isEmpty (Host e)),
    (isEmpty (Proto e)); done.
Qed.

Lemma isEmpty_true s : isEmpty s = true -> s = "".
Proof. by destruct s. Qed.

Lemma setParams_app ps qs e :
  setParams (ps ++ qs) e = setParams qs (setParams ps e).
Proof. unfold setParams. by rewrite foldl_app. Qed.

Lemma setParams_stdPairs e :
  ToLower (Proto e) = Proto e ->
  setParams (stdPairs e) zeroElem
  = mkForwardedElem (By e) (For e) (Host e) (Proto e) None.
Proof.
  destruct e as [eby efor ehost eproto ext]. cbn [By For Host Proto].
  intros Hp. unfold stdPairs. cbn [By For Host Proto].
  destruct (isEmpty efor) eqn:H1, (isEmpty eby) eqn:H2,
    (isEmpty ehost) eqn:H3, (isEmpty eproto) eqn:H4;
    try apply isEmpty_true in H1; try apply isEmpty_true in H2;
    try apply isEmpty_true in H3; try apply isEmpty_true in H4;
    rewrite ?H1, ?H2, ?H3, ?H4; cbv [setParams foldl app fst snd];
    change (ToLower "for") with "for"; change (ToLower "by") with "by";
    change (ToLower "host") with "host"; change (ToLower "proto") with "proto";
    cbv [setParam zeroElem By For Host Proto Ext];
    change (String.eqb "for" "for") with true;
    change (String.eqb "by" "for") with false;
    change (String.eqb "by" "by") with true;
    change (String.eqb "host" "for") with false;
    change (String.eqb "host" "by") with false;
    change (String.eqb "host" "host") with true;
    change (String.eqb "proto" "for") with false;
    change (String.eqb "proto" "by") with false;
    change (String.eqb "proto" "host") with false;
    change (String.eqb "proto" "proto") with true;
    cbv iota; rewrite ?Hp; done.
Qed.

Lemma setParam_ext n v e :
  isExtName n = true ->
  setParam (ToLower n) v e
  = mkForwardedElem (By e) (For e) (Host e) (Proto e)
      (Some (<[n := v]> (default ∅ (Ext e)))).
Proof.
  unfold isExtName.
  intros [[[[[_ Hl%String.eqb_eq]%andb_prop H1]%andb_prop H2]%andb_prop
            H3]%andb_prop H4]%andb_prop.
  rewrite Hl. unfold setParam.
  apply negb_true_iff in H1, H2, H3, H4. by rewrite H1, H2, H3, H4.
Qed.

Lemma foldl_insert_lookup (l : list (string * string))
    (acc : gmap string string) k :
  NoDup l.*1 ->
  foldl (fun a p => <[fst p := snd p]> a) acc l !! k
  = match (list_to_map l : gmap string string) !! k with
    | Some v => Some v
    | None => acc !! k
    end.
Proof.
  revert acc. induction l as [|[k' v'] l IH]; intros acc Hnd.
  - simpl. by rewrite lookup_empty.
  - inversion Hnd as [|? ? Hnotin Hnd']; subst. cbn [foldl fst snd].
    rewrite (IH _ Hnd'). cbn [list_to_map foldr fst snd].
    destruct (decide (k = k')) as [->|Hne].
    + rewrite lookup_insert_eq.
      rewrite (not_elem_of_list_to_map_1 (M:=gmap string) l k' Hnotin).
      by rewrite lookup_insert_eq.
    + rewrite !(lookup_insert_ne _ k' k) by done.
      by destruct (list_to_map l !! k).
Qed.

Lemma foldl_insert_range (range : gmap string string -> list (string * string))
    (m : gmap string string) :
  range m ≡ₚ map_to_list m ->
  foldl (fun a p => <[fst p := snd p]> a) ∅ (range m) = m.
Proof.
  intros Hp. apply map_eq. intros k.
  assert (NoDup (range m).*1) as Hnd.
  { rewrite Hp. apply NoDup_fst_map_to_list. }
  rewrite (foldl_insert_lookup _ _ _ Hnd), lookup_empty.
  rewrite (list_to_map_proper (M:=gmap string) _ _ Hnd Hp).
  rewrite list_to_map_to_list. by destruct (m !! k).
Qed.

Lemma setParams_ext ps e :
  Forall (fun p => isExtName (fst p) = true) ps -> ps <> [] ->
  setParams ps e
  = mkForwardedElem (By e) (For e) (Host e) (Proto e)
      (Some (foldl (fun a p => <[fst p := snd p]> a) (default ∅ (Ext e)) ps)).
Proof.
  intros Hps. revert e. induction Hps as [|[n v] ps Hn Hps IH]; intros e Hne;
    [done|].
  unfold setParams in *. cbn [foldl fst snd]. rewrite (setParam_ext n v e Hn).
  destruct ps as [|p ps]; [done|]. by rewrite IH.
Qed.

Lemma setParams_elemPairs range e :
  wfForwardedElem range e -> setParams (elemPairs range e) zeroElem = e.
Proof.
  intros ((_ & Hp) & _ & Hext). unfold elemPairs.
  rewrite setParams_app, (setParams_stdPairs e Hp). unfold extPairs.
  destruct e as [eby efor ehost eproto [m|]]; cbn [Ext By For Host Proto] in *;
    [|done].
  destruct Hext as (Hne & Hperm & Hnames).
  rewrite setParams_ext.
  - cbn [By For Host Proto Ext default]. do 2 f_equal.
    by apply foldl_insert_range.
  - apply Forall_forall. intros [n v] Hin. cbn [fst].
    apply (Hnames n v). apply elem_of_map_to_list. by rewrite <- Hperm.
  - intros Hnil. apply Hne. apply map_to_list_empty_iff.
    rewrite Hnil in Hperm. by apply Permutation_nil_l in Hperm.
Qed.

Lemma elemPairs_names range e :
  wfForwardedElem range e ->
  Forall (fun p => isName (fst p) = true) (elemPairs range e).
Proof.
  intros (_ & _ & Hext). unfold elemPairs. apply Forall_app. split.
  - unfold stdPairs.
    destruct (isEmpty (For e)), (isEmpty (By e)), (isEmpty (Host e)),
      (isEmpty (Proto e)); repeat constructor.
  - unfold extPairs. destruct (Ext e) as [m|]; [|done].
    destruct Hext as (_ & Hperm & Hnames).
    apply Forall_forall. intros [n v] Hin. cbn [fst].
    assert (isExtName n = true) as Hn.
    { apply (Hnames n v). apply elem_of_map_to_list. by rewrite <- Hperm. }
    unfold isExtName in Hn. do 5 (apply andb_prop in Hn as [Hn _]). done.
Qed.

Lemma parseForwardedElem_text range e X :
  wfForwardedElem range e -> atElemEnd X = true ->
  parseForwardedElem (forwardedText range e +:+ X) = (Some e, X).
Proof.
  intros He HX. unfold forwardedText.
  rewrite (parseForwardedElem_joinPairs _ X (elemPairs_names range e He) HX).
  by rewrite (setParams_elemPairs range e He).
Qed.

Lemma forwardedText_start range e X :
  wfForwardedElem range e ->
  nextInLine false (forwardedText range e +:+ X)
  = Some (forwardedText range e +:+ X).
Proof.
  intros He. apply joinPairs_start; [by apply elemPairs_names|].
  by destruct He as (_ & Hne & _).
Qed.

Lemma Forwarded_SetForwarded range h es :
  Forall (wfForwardedElem range) es ->
  Forwarded (SetForwarded range h es) = appendList nilSlice es.
Proof.
  intros Hes. unfold Forwarded, SetForwarded, buildForwarded.
  rewrite values_Set.
  apply (parseElems_build_texts parseForwardedElem (forwardedText range)
           (wfForwardedElem range) (buildForwardedElem range)); try done.
  - apply parseForwardedElem_suffix.
  - apply parseForwardedElem_text.
  - apply forwardedText_start.
  - apply buildForwardedElem_text.
Qed.

(** ** Entries and the text they were read from *)

Lemma nextInLines_cursor ls v ls' :
  nextInLines ls = (v, Some ls') ->
  (exists l, l ∈ ls /\ isSuffix v l) /\ (forall l, l ∈ ls' -> l ∈ ls).
Proof.
  induction ls as [|a ls IH]; simpl; [done|].
  destruct (nextInLine false a) as [t|] eqn:Ht.
  - intros [= <- <-]. split.
    + exists a. split; [apply list_elem_of_here|by eapply nextInLine_suffix].
    + intros l Hl. by apply list_elem_of_further.
  - intros H. apply IH in H as [(l & Hl & Hs) Hsub]. split.
    + exists l. split; [by apply list_elem_of_further|done].
    + intros l' Hl'. by apply list_elem_of_further, Hsub.
Qed.

(** Whatever holds of every entry that a pass can append at a cursor in a
    line of the header holds of every entry of the result. *)
Section LoopCursorInvariant.
Context {E : Type}.
Variable body : string -> option E * string.
Hypothesis body_suffix : forall v, isSuffix (snd (body v)) v.
Variable lines : list string.
Variable P : E -> Prop.
Hypothesis body_P : forall l v e,
  l ∈ lines -> isSuffix v l -> fst (body v) = Some e -> P e.

Lemma collect_Forall_at fuel v ls es :
  (exists l, l ∈ lines /\ isSuffix v l) -> (forall l, l ∈ ls -> l ∈ lines) ->
  collect iterElems body fuel v (Some ls) = Some es -> Forall P es.
Proof.
  revert v ls es. induction fuel as [|n IH]; intros v ls es Hv Hls H; [done|].
  rewrite collect_S in H. destruct Hv as (l & Hl & Hs).
  pose proof (body_P l v) as HP. pose proof (body_suffix v) as Hsuf.
  destruct (body v) as [oe v1]. cbn [fst snd] in *.
  destruct (iterElems v1 ls) as [v2 vs2] eqn:Hit.
  destruct (collect iterElems body n v2 vs2) as [es'|] eqn:Hc; [|done].
  simplify_eq. apply Forall_app. split.
  - destruct oe as [e|]; [|constructor]. simpl. apply Forall_cons.
    split; [by apply HP|constructor].
  - destruct vs2 as [ls2|].
    2:{ destruct n; simpl in Hc; simplify_eq; constructor. }
    unfold iterElems in Hit.
    destruct (nextInLine true v1) as [t|] eqn:Hn.
    + simplify_eq. eapply IH; [|done|done]. exists l. split; [done|].
      eapply isSuffix_trans; [by eapply nextInLine_suffix|].
      by eapply isSuffix_trans.
    + apply nextInLines_cursor in Hit as [(l' & Hl' & Hs') Hsub].
      eapply IH; [| |done].
      * exists l'. split; [by apply Hls|done].
      * intros l2 Hl2. by apply Hls, Hsub.
Qed.

Lemma parseElems_Forall_at :
  Forall P (items (parseElems iterElems body lines)).
Proof.
  destruct (parseElems_total body (body_shrinks body body_suffix) lines)
    as (es & H & ->).
  rewrite items_appendList. rewrite iterElems_start in H.
  destruct (nextInLines lines) as [v [ls|]] eqn:Hn.
  - apply nextInLines_cursor in Hn as [Hv Hsub]. by eapply collect_Forall_at.
  - destruct (budget lines); simpl in H; simplify_eq; constructor.
Qed.
End LoopCursorInvariant.

(** The first element of a line and the elements after it. *)
Lemma parseElems_head {E} (body : string -> option E * string) l oe r :
  (forall v, isSuffix (snd (body v)) v) ->
  nextInLine false l = Some l -> body l = (oe, r) -> atElemEnd r = true ->
  items (parseElems iterElems body [l])
  = option_list oe ++ items (parseElems iterElems body [r]).
Proof.
  intros Hs Hl Hb Hr.
  destruct (parseElems_total body (body_shrinks body Hs) [r]) as (es & H & ->).
  rewrite items_appendList. rewrite iterElems_start in H.
  cbn [nextInLines] in H.
  rewrite (parseElems_collect body (body_shrinks body Hs) [l] l (Some [])
             (S (budget [r])) (option_list oe ++ es)).
  - by rewrite items_appendList.
  - rewrite iterElems_start. cbn [nextInLines]. by rewrite Hl.
  - rewrite collect_S, Hb. unfold iterElems at 1.
    assert (nextInLine true r = nextInLine false r) as ->.
    { destruct r as [|c r]; [done|]. simpl in *. by rewrite Hr. }
    cbn [nextInLines]. destruct (nextInLine false r); by rewrite H.
Qed.

(** What [chomp] reads and what it leaves. *)
Lemma chomp_spec v :
  exists ws,
    v = fst (chomp v) +:+ ws +:+ snd (chomp v) /\
    allBytes isWordByte (fst (chomp v)) = true /\
    allBytes isWS ws = true /\
    (ws = "" -> headFails isWordByte (snd (chomp v)) = true).
Proof.
  unfold chomp, skipWS.
  destruct (span_spec (fun c => negb (isWS c || isByte c ",")) v)
    as (H1 & H2 & H3).
  destruct (span (fun c => negb (isWS c || isByte c ",")) v) as [run r1].
  cbn [fst snd] in *.
  destruct (span_spec isWS r1) as (H4 & H5 & H6).
  exists (fst (span isWS r1)). split; [by rewrite <- H4|].
  split; [done|]. split; [done|]. intros Hw. rewrite Hw in H4.
  cbn [String.append] in H4. by rewrite <- H4.
Qed.

Lemma chomp_atElemEnd X : atElemEnd X = true -> chomp X = ("", X).
Proof.
  destruct X as [|c X]; [done|]. simpl. unfold isByte.
  intros ->%Ascii.eqb_eq. done.
Qed.

Lemma headFails_ws ws r :
  allBytes isWS ws = true ->
  (ws = "" -> headFails isWordByte r = true) ->
  headFails isWordByte (ws +:+ r) = true.
Proof.
  destruct ws as [|c ws]; [by intros _ H; apply H|]. simpl.
  intros [Hc _]%andb_prop _. unfold isWordByte. by rewrite Hc.
Qed.

Lemma parseViaElem_from v e :
  fst (parseViaElem v) = Some e ->
  exists p ws rest,
    v = p +:+ ws +:+ ReceivedBy e +:+ rest /\
    isWord p = true /\ ws <> "" /\ allBytes isWS ws = true /\
    isWord (ReceivedBy e) = true /\ headFails isWordByte rest = true /\
    ReceivedProto e = protoOf p.
Proof.
  unfold parseViaElem.
  destruct (chomp_spec v) as (ws1 & Hv & Hp & Hws1 & Hend1).
  destruct (chomp v) as [proto v1]. cbn [fst snd] in *.
  destruct (isEmpty proto) eqn:Hpe; [done|].
  destruct (chomp_spec v1) as (ws2 & Hv1 & Hb & Hws2 & Hend2).
  destruct (chomp v1) as [rby v2]. cbn [fst snd] in *.
  destruct (isEmpty rby) eqn:Hbe; [done|].
  assert (exists c, fst (if peekIs v2 "("
                         then let '(c, v) := comment v2 in
                              (Some (mkViaEntry
                                       (if negb (ContainsRune proto "/")
                                        then "HTTP/" +:+ proto else proto)
                                       rby c), v)
                         else (Some (mkViaEntry
                                       (if negb (ContainsRune proto "/")
                                        then "HTTP/" +:+ proto else proto)
                                       rby ""), v2))
                    = Some (mkViaEntry
                              (if negb (ContainsRune proto "/")
                               then "HTTP/" +:+ proto else proto) rby c))
    as [c ->].
  { destruct (peekIs v2 "("); [destruct (comment v2) as [c v3]|];
      by eexists. }
  intros [= <-]. cbn [ReceivedBy ReceivedProto].
  exists proto, ws1, (ws2 +:+ v2).
  split; [by rewrite Hv, Hv1|].
  split; [unfold isWord; by rewrite Hpe|].
  split.
  { intros ->. specialize (Hend1 eq_refl). rewrite Hv1 in Hend1.
    destruct rby as [|c0 rby]; [done|]. simpl in Hb, Hend1.
    apply andb_prop in Hb as [Hc0 _]. by rewrite Hc0 in Hend1. }
  split; [done|]. split; [unfold isWord; by rewrite Hbe|].
  split; [by apply headFails_ws|].
  unfold protoOf. by destruct (ContainsRune proto "/").
Qed.

(** * Further properties of the parsers *)

(** ** What every returned entry satisfies *)

(** X1: every entry that [Via] returns has a protocol with its name: the
    field holds a slash (and so is not empty), as the comment of
    [ViaEntry] says. *)
Theorem Via_protocol_always_has_a_name (h : Header) :
  Forall (fun e => ContainsRune (ReceivedProto e) "/" = true) (items (Via h)).
Proof.
  apply parseElems_Forall. intros v e. unfold parseViaElem.
  destruct (chomp v) as [proto v1]. destruct (isEmpty proto); [done|].
  destruct (chomp v1) as [rby v2]. destruct (isEmpty rby); [done|].
  assert (ContainsRune
            (if negb (ContainsRune proto "/") then "HTTP/" +:+ proto
             else proto) "/" = true) as Hp.
  { destruct (ContainsRune proto "/") eqn:Hc; [done|]. simpl. done. }
  destruct (peekIs v2 "("); [destruct (comment v2)|]; simpl;
    intros [= <-]; exact Hp.
Qed.

Lemma toLowerByte_idem c : toLowerByte (toLowerByte c) = toLowerByte c.
Proof. destruct c as [[] [] [] [] [] [] [] []]; reflexivity. Qed.

Lemma ToLower_idem s : ToLower (ToLower s) = ToLower s.
Proof.
  induction s as [|c s IH]; [done|]. simpl. by rewrite toLowerByte_idem, IH.
Qed.

Lemma scanPairs_invariant (P : ForwardedElem -> Prop) :
  (forall name value e,
     isEmpty (ToLower name) = false -> P e ->
     P (setParam (ToLower name) value e)) ->
  forall fuel v e e' v',
    P e -> scanPairs fuel v e = Some (e', v') -> P e'.
Proof.
  intros Hset. induction fuel as [|n IH]; intros v e e' v' He H; [done|].
  simpl in H. destruct (consumeItem v) as [name v1].
  destruct (isEmpty (ToLower name)) eqn:Hn.
  { destruct (peekIs v1 ";"); [by eapply IH|by simplify_eq]. }
  destruct (peekIs v1 "="); simpl in H; [|by simplify_eq].
  destruct (peekIs (dropByte v1) "034").
  - destruct (consumeQuoted (dropByte v1) true) as [[value v3] ok].
    destruct ok; simpl in H; [|by simplify_eq].
    eapply IH; [|done]. by apply Hset.
  - destruct (consumeItem (dropByte v1)) as [value v3].
    eapply IH; [|done]. by apply Hset.
Qed.

Lemma setParam_lowercased name value e :
  isEmpty (ToLower name) = false -> lowercased e ->
  lowercased (setParam (ToLower name) value e).
Proof.
  intros Hn [Hp Hext]. unfold setParam.
  destruct (String.eqb (ToLower name) "for"); [done|].
  destruct (String.eqb (ToLower name) "by"); [done|].
  destruct (String.eqb (ToLower name) "host"); [done|].
  destruct (String.eqb (ToLower name) "proto").
  { split; [apply ToLower_idem|done]. }
  split; [done|]. cbn [Ext]. intros m [= <-]. split.
  { apply insert_non_empty. }
  intros k v Hk. destruct (decide (k = ToLower name)) as [->|Hne].
  - split; [by destruct (ToLower name)|apply ToLower_idem].
  - rewrite lookup_insert_ne in Hk by done.
    destruct (Ext e) as [m0|]; simpl in Hk.
    + by apply (Hext m0 eq_refl) in Hk.
    + by rewrite lookup_empty in Hk.
Qed.

(** X3: in every element that [Forwarded] returns, [Proto] is in lower
    case, and the extension map is nil or holds at least one pair, all
    with non-empty lower-case keys: the map is made only when a pair goes
    into it. *)
Theorem Forwarded_elements_are_lowercased (h : Header) :
  Forall lowercased (items (Forwarded h)).
Proof.
  apply parseElems_Forall. intros v e. unfold parseForwardedElem, scanAll.
  assert (lowercased zeroElem) as Hz.
  { split; [done|]. intros m Hm. discriminate Hm. }
  destruct (scanPairs _ v zeroElem) as [[e' v']|] eqn:H; simpl;
    intros [= <-]; [|exact Hz].
  eapply (scanPairs_invariant lowercased); [|exact Hz|exact H].
  apply setParam_lowercased.
Qed.

(** ** Nil results *)

Lemma nextInLine_false_blank l : nextInLine false l = None -> isBlank l = true.
Proof.
  unfold isBlank. induction l as [|c l IH]; [done|]. simpl.
  destruct (isByte c ",") eqn:Hc.
  { intros H. rewrite orb_true_r. by apply IH. }
  destruct (isWS c); [|done]. intros H. by apply IH.
Qed.

Lemma nextInLines_None ls v :
  nextInLines ls = (v, None) -> Forall (fun l => isBlank l = true) ls.
Proof.
  induction ls as [|l ls IH]; [done|]. simpl.
  destruct (nextInLine false l) eqn:Hl; [done|]. intros H.
  apply Forall_cons. split; [by apply nextInLine_false_blank|by apply IH].
Qed.

Lemma parseElems_first_pass {E} (body : string -> option E * string) lines :
  (forall v, isSuffix (snd (body v)) v) ->
  (forall v, is_Some (fst (body v))) ->
  ~ Forall (fun l => isBlank l = true) lines ->
  isNil (parseElems iterElems body lines) = false.
Proof.
  intros Hs Ha Hnb.
  destruct (parseElems_total body (body_shrinks body Hs) lines)
    as (es & Hc & ->).
  rewrite iterElems_start in Hc.
  destruct (nextInLines lines) as [v [ls|]] eqn:Hn.
  - unfold budget in Hc. rewrite collect_S in Hc.
    destruct (Ha v) as [e He]. destruct (body v) as [oe v1]. simpl in He.
    subst oe. destruct (iterElems v1 ls) as [v2 vs2].
    destruct (collect iterElems body _ v2 vs2) as [es'|]; [|done].
    by simplify_eq.
  - by apply nextInLines_None in Hn.
Qed.

(** X15: [Forwarded] returns nil exactly when every line of the header is
    blank (white space and commas only), an absent header among them: any
    other text, however malformed, gives an element. *)
Theorem Forwarded_is_nil_only_for_blank_headers (h : Header) :
  Forwarded h = nilSlice <->
  Forall (fun l => isBlank l = true) (values h "Forwarded").
Proof.
  unfold Forwarded. split.
  - intros Hnil.
    destruct (decide (Forall (fun l => isBlank l = true)
                        (values h "Forwarded"))) as [Hb|Hb]; [done|].
    apply (parseElems_first_pass parseForwardedElem) in Hb;
      [|apply parseForwardedElem_suffix|apply parseForwardedElem_appends].
    by rewrite Hnil in Hb.
  - apply parseElems_blank.
Qed.

Lemma parseAllowElem_suffix v : isSuffix (snd (parseAllowElem v)) v.
Proof.
  unfold parseAllowElem. pose proof (token_suffix v) as H.
  by destruct (token v).
Qed.

(** X4: [Allow] returns nil exactly when the header has no line at all, and
    no method it returns is the empty string. *)
Theorem Allow_is_nil_only_without_lines (h : Header) :
  (Allow h = nilSlice <-> values h "Allow" = []) /\
  Forall (fun m => m <> "") (items (Allow h)).
Proof.
  unfold Allow, toNextElem. split; [split|].
  - destruct (values h "Allow") as [|l ls]; [done|].
    destruct (parseElems iterElems parseAllowElem (l :: ls)); done.
  - intros ->. done.
  - assert (Forall (fun m => m <> "")
              (items (parseElems iterElems parseAllowElem (values h "Allow"))))
      as H.
    { apply parseElems_Forall. intros v m. unfold parseAllowElem.
      destruct (token v) as [tok v1]. destruct tok; simpl; [done|].
      by intros [= <-]. }
    destruct (isNil _ && _); [done|exact H].
Qed.

(** ** Set and Add *)

Lemma values_Add h name value :
  values (Add_ h name value) name = values h name ++ [value].
Proof. unfold Add_. unfold values at 1. by rewrite lookup_insert_eq. Qed.

Lemma values_Set_ne h name value other :
  name <> other -> values (Set_ h name value) other = values h other.
Proof. intros Hne. unfold values, Set_. by rewrite lookup_insert_ne. Qed.

Lemma values_Add_ne h name value other :
  name <> other -> values (Add_ h name value) other = values h other.
Proof. intros Hne. unfold Add_. unfold values at 1 3. by rewrite lookup_insert_ne. Qed.

Lemma parseElems_snoc {E} (body : string -> option E * string) ls line :
  (forall v, isSuffix (snd (body v)) v) ->
  items (parseElems iterElems body (ls ++ [line]))
  = items (parseElems iterElems body ls)
    ++ items (parseElems iterElems body [line]).
Proof. intros Hs. by apply parseElems_lines. Qed.

Lemma parseAllowElem_text m X :
  isName m = true -> atElemEnd X = true ->
  parseAllowElem (m +:+ X) = (Some m, X).
Proof.
  unfold isName, parseAllowElem, token. intros [Hne Htok]%andb_prop HX.
  rewrite (span_app isTokenChar m X Htok (headFails_atElemEnd X HX)).
  by destruct m.
Qed.

(** X5: [Allow] reads back the methods that [SetAllow] wrote, when they
    are non-empty tokens; for no method at all it returns the non-nil
    slice of length 0 that means that every method is disallowed. *)
Theorem Allow_of_SetAllow (h : Header) (methods : list string) :
  Forall (fun m => isName m = true) methods ->
  Allow (SetAllow h methods) = mkSlice methods.
Proof.
  intros Hm. unfold Allow, SetAllow, toNextElem. rewrite values_Set.
  pose proof (parseElems_texts parseAllowElem id
                (fun m => isName m = true) parseAllowElem_suffix
                parseAllowElem_text (fun m X Hn => isName_start m X Hn)
                methods Hm) as H.
  rewrite list_fmap_id in H. rewrite H. by destruct methods.
Qed.

(** X6: after [AddVia] of a well-formed entry, [Via] returns the entries
    it returned before, and then that entry. *)
Theorem Via_of_AddVia (h : Header) (entry : ViaEntry) :
  wfViaEntry entry = true ->
  Via (AddVia h entry) = mkSlice (items (Via h) ++ [entry]).
Proof.
  intros He. unfold Via, AddVia, toNextElem. rewrite values_Add.
  rewrite (parseElems_slice parseViaElem parseViaElem_suffix).
  rewrite (parseElems_snoc parseViaElem _ _ parseViaElem_suffix).
  assert (parseElems iterElems parseViaElem [buildVia [entry]]
          = appendList nilSlice [entry]) as ->.
  { apply (parseElems_build_texts parseViaElem viaText
             (fun e => wfViaEntry e = true) buildViaEntry).
    - apply parseViaElem_suffix.
    - apply parseViaElem_text.
    - apply viaText_start.
    - apply buildViaEntry_text.
    - by apply Forall_cons. }
  simpl. by destruct (items _).
Qed.

(** X8: after [AddForwarded] of well-formed elements, [Forwarded] returns
    the elements it returned before, and then those, whatever the order in
    which Go walks their extension maps. *)
Theorem Forwarded_of_AddForwarded
    (range : gmap string string -> list (string * string))
    (h : Header) (elems : list ForwardedElem) :
  Forall (wfForwardedElem range) elems ->
  items (Forwarded (AddForwarded range h elems))
  = items (Forwarded h) ++ elems.
Proof.
  intros He. unfold Forwarded, AddForwarded. rewrite values_Add.
  rewrite (parseElems_snoc parseForwardedElem _ _ parseForwardedElem_suffix).
  assert (parseElems iterElems parseForwardedElem [buildForwarded range elems]
          = appendList nilSlice elems) as ->.
  { apply (parseElems_build_texts parseForwardedElem (forwardedText range)
             (wfForwardedElem range) (buildForwardedElem range)); try done.
    - apply parseForwardedElem_suffix.
    - apply parseForwardedElem_text.
    - apply forwardedText_start.
    - apply buildForwardedElem_text. }
  by rewrite items_appendList.
Qed.

(** ** More on the pairs of a Forwarded element *)

Lemma scanAll_bare_name n rest e :
  isName n = true -> headFails isTokenChar rest = true ->
  peekIs rest "=" = false ->
  scanAll (n +:+ rest) e = Some (e, rest).
Proof.
  intros Hn Hrest Hp. rewrite scanAll_unfold. unfold consumeItem, token.
  pose proof Hn as Hn'. unfold isName in Hn'.
  apply andb_prop in Hn' as [Hne Htok].
  rewrite (span_app isTokenChar n rest Htok Hrest).
  rewrite isEmpty_ToLower. destruct (isEmpty n); [done|]. by rewrite Hp.
Qed.

(** X16: in a Forwarded element, a name that no equals sign follows ends
    the reading of pairs: the element is returned with the pairs read
    before that name, and the pairs after it are not read. *)
Theorem Forwarded_name_without_value_ends_the_element (h : Header)
    (ps : list (string * string)) (name rest : string) :
  Forall (fun p => isName (fst p) = true) ps -> isName name = true ->
  headFails isTokenChar rest = true -> peekIs rest "=" = false ->
  noByte "," rest = true ->
  Forwarded (setLines h "Forwarded" [seqPairs ps (name +:+ rest)])
  = mkSlice [setParams ps zeroElem].
Proof.
  intros Hps Hn Hrest Hp Hc. unfold Forwarded. rewrite values_setLines.
  rewrite (parseElems_one _ _ (Some (setParams ps zeroElem)) rest);
    [done|apply parseForwardedElem_suffix| | |].
  - by apply seqPairs_start.
  - unfold parseForwardedElem. rewrite (scanAll_seqPairs _ _ _ Hps).
    by rewrite (scanAll_bare_name name rest _ Hn Hrest Hp).
  - by apply nextInLine_true_nocomma.
Qed.

Lemma setParam_Ext_lookup n v e k :
  isExtension k = true ->
  default ∅ (Ext (setParam n v e)) !! k
  = if String.eqb n k then Some v else default ∅ (Ext e) !! k.
Proof.
  unfold isExtension.
  intros [[[H1 H2]%andb_prop H3]%andb_prop H4]%andb_prop.
  apply negb_true_iff, String.eqb_neq in H1, H2, H3, H4.
  unfold setParam.
  destruct (String.eqb_spec n "for") as [->|Hf].
  { cbn [Ext]. by destruct (String.eqb_spec "for" k). }
  destruct (String.eqb_spec n "by") as [->|Hb].
  { cbn [Ext]. by destruct (String.eqb_spec "by" k). }
  destruct (String.eqb_spec n "host") as [->|Hh].
  { cbn [Ext]. by destruct (String.eqb_spec "host" k). }
  destruct (String.eqb_spec n "proto") as [->|Hp].
  { cbn [Ext]. by destruct (String.eqb_spec "proto" k). }
  cbn [Ext]. unfold default at 1. cbn [from_option id].
  destruct (String.eqb_spec n k) as [->|Hne].
  - by rewrite lookup_insert_eq.
  - by rewrite lookup_insert_ne.
Qed.

Lemma setParams_Ext_lookup ps e k :
  isExtension k = true ->
  default ∅ (Ext (setParams ps e)) !! k
  = lastPair k ps (default ∅ (Ext e) !! k).
Proof.
  intros Hk. revert e. induction ps as [|[n v] ps IH]; intros e; [done|].
  unfold setParams, lastPair in *. cbn [foldl fst snd].
  by rewrite IH, (setParam_Ext_lookup _ _ _ _ Hk).
Qed.

(** X17: when an extension name is repeated in a Forwarded element, the
    extension map holds for it the value of the last pair with that name
    (names compared in lower case), and holds nothing for a name that no
    pair has. *)
Theorem Forwarded_last_extension_value_wins (h : Header)
    (ps : list (string * string)) :
  Forall (fun p => isName (fst p) = true) ps -> ps <> [] ->
  exists e,
    Forwarded (setLines h "Forwarded" [joinPairs ps]) = mkSlice [e] /\
    forall k, isExtension k = true ->
              default ∅ (Ext e) !! k = lastPair k ps None.
Proof.
  intros Hps Hne. exists (setParams ps zeroElem). split.
  - unfold Forwarded. rewrite values_setLines.
    rewrite (parseElems_one _ _ (Some (setParams ps zeroElem)) "");
      [done|apply parseForwardedElem_suffix| | |done].
    + rewrite <- (append_nil_r (joinPairs ps)). by apply joinPairs_start.
    + rewrite <- (append_nil_r (joinPairs ps)).
      by apply parseForwardedElem_joinPairs.
  - intros k Hk. by rewrite (setParams_Ext_lookup ps zeroElem k Hk).
Qed.

(** ** Vary *)

Lemma canonByte_idem u c : canonByte u (canonByte u c) = canonByte u c.
Proof. destruct u, c as [[] [] [] [] [] [] [] []]; reflexivity. Qed.

Lemma canonByte_token u c : isTokenChar (canonByte u c) = isTokenChar c.
Proof. destruct u, c as [[] [] [] [] [] [] [] []]; reflexivity. Qed.

Lemma canonBytes_idem u s : canonBytes u (canonBytes u s) = canonBytes u s.
Proof.
  revert u. induction s as [|c s IH]; intros u; [done|]. simpl.
  by rewrite canonByte_idem, IH.
Qed.

Lemma canonBytes_token u s :
  allBytes isTokenChar (canonBytes u s) = allBytes isTokenChar s.
Proof.
  revert u. induction s as [|c s IH]; intros u; [done|]. simpl.
  by rewrite canonByte_token, IH.
Qed.

Lemma CanonicalHeaderKey_idem s :
  CanonicalHeaderKey (CanonicalHeaderKey s) = CanonicalHeaderKey s.
Proof.
  unfold CanonicalHeaderKey. destruct (allBytes isTokenChar s) eqn:Hs.
  - by rewrite canonBytes_token, Hs, canonBytes_idem.
  - by rewrite Hs.
Qed.

Lemma CanonicalHeaderKey_nonempty s : s <> "" -> CanonicalHeaderKey s <> "".
Proof.
  unfold CanonicalHeaderKey. destruct s as [|c s]; [done|]. intros _.
  by destruct (allBytes isTokenChar (String c s)).
Qed.

(** X10: every name that [Vary] returns is not empty and is in canonical
    form (canonicalizing it again changes nothing), so it can be compared
    with the keys of a header map as it is. *)
Theorem Vary_names_are_canonical (h : Header) :
  Forall (fun n => n <> "" /\ CanonicalHeaderKey n = n) (items (Vary h)).
Proof.
  apply parseElems_Forall. intros v n. unfold parseVaryElem.
  destruct (token v) as [tok v1]. destruct (isEmpty tok) eqn:Ht; [done|].
  simpl. intros [= <-]. split.
  - apply CanonicalHeaderKey_nonempty. by destruct tok.
  - apply CanonicalHeaderKey_idem.
Qed.

Lemma collect_fmap {E F} (f : E -> F) (b : string -> option E * string)
    (b' : string -> option F * string) n v vs :
  (forall v, b' v = (fmap (M:=option) f (fst (b v)), snd (b v))) ->
  collect iterElems b' n v vs
  = fmap (M:=option) (fmap (M:=list) f) (collect iterElems b n v vs).
Proof.
  intros Hb. revert v vs. induction n as [|n IH]; intros v vs;
    destruct vs as [ls|]; try done.
  rewrite !collect_S, Hb. destruct (b v) as [oe v1]. cbn [fst snd].
  destruct (iterElems v1 ls) as [v2 vs2]. rewrite IH.
  destruct (collect iterElems b n v2 vs2) as [es|]; [|done]. simpl.
  f_equal. rewrite fmap_app. by destruct oe.
Qed.

Lemma parseElems_fmap {E F} (f : E -> F) (b : string -> option E * string)
    (b' : string -> option F * string) lines :
  (forall v, b' v = (fmap (M:=option) f (fst (b v)), snd (b v))) ->
  parseElems iterElems b' lines
  = appendList nilSlice (f <$> items (parseElems iterElems b lines)).
Proof.
  intros Hb. unfold parseElems. destruct (iterElems "" lines) as [v vs].
  rewrite !elemLoop_collect, (collect_fmap f b b' _ _ _ Hb).
  destruct (collect iterElems b (budget lines) v vs) as [es|]; [|done].
  simpl. by rewrite items_appendList.
Qed.

Lemma parseVaryElem_parseAllowElem v :
  parseVaryElem v
  = (CanonicalHeaderKey <$> fst (parseAllowElem v), snd (parseAllowElem v)).
Proof.
  unfold parseVaryElem, parseAllowElem. destruct (token v) as [tok v1].
  by destruct (isEmpty tok).
Qed.

Lemma Vary_lines h :
  Vary h
  = appendList nilSlice
      (CanonicalHeaderKey
         <$> items (parseElems iterElems parseAllowElem (values h "Vary"))).
Proof.
  unfold Vary, toNextElem.
  apply (parseElems_fmap CanonicalHeaderKey parseAllowElem parseVaryElem).
  apply parseVaryElem_parseAllowElem.
Qed.

Lemma parseAllowElem_joinLines names :
  Forall (fun m => isName m = true) names ->
  parseElems iterElems parseAllowElem [joinLines names]
  = appendList nilSlice names.
Proof.
  intros Hm.
  pose proof (parseElems_texts parseAllowElem id
                (fun m => isName m = true) parseAllowElem_suffix
                parseAllowElem_text (fun m X Hn => isName_start m X Hn)
                names Hm) as H.
  by rewrite list_fmap_id in H.
Qed.

(** X11: [Vary] reads back the names that [SetVary] wrote, each in
    canonical form, when they are non-empty tokens (and nil when there is
    no name). *)
Theorem Vary_of_SetVary (h : Header) (names : list string) :
  Forall (fun m => isName m = true) names ->
  Vary (SetVary h names)
  = match names with
    | [] => nilSlice
    | _ => mkSlice (CanonicalHeaderKey <$> names)
    end.
Proof.
  intros Hm. rewrite Vary_lines. unfold SetVary. rewrite values_Set.
  rewrite (parseAllowElem_joinLines names Hm), items_appendList.
  by destruct names.
Qed.

(** X19: after [AddVary] of names that are non-empty tokens, [Vary]
    returns the names it returned before, and then those, in canonical
    form. *)
Theorem Vary_of_AddVary (h : Header) (names : list string) :
  Forall (fun m => isName m = true) names ->
  items (Vary (AddVary h names))
  = items (Vary h) ++ (CanonicalHeaderKey <$> names).
Proof.
  intros Hm. rewrite !Vary_lines, !items_appendList. unfold AddVary.
  rewrite values_Add.
  rewrite (parseElems_snoc parseAllowElem _ _ parseAllowElem_suffix).
  rewrite fmap_app. f_equal.
  by rewrite (parseAllowElem_joinLines names Hm), items_appendList.
Qed.

(** ** Node addresses *)

Lemma IndexByte_noByte c s : noByte c s = true -> IndexByte s c = -1.
Proof.
  unfold noByte. induction s as [|d s IH]; [done|]. simpl.
  intros [Hd Hs]%andb_prop. apply negb_true_iff in Hd. rewrite Hd.
  by rewrite (IH Hs).
Qed.

Lemma LastIndexByte_noByte c s : noByte c s = true -> LastIndexByte s c = -1.
Proof.
  unfold noByte. induction s as [|d s IH]; [done|]. simpl.
  intros [Hd Hs]%andb_prop. apply negb_true_iff in Hd. rewrite Hd.
  by rewrite (IH Hs).
Qed.

Lemma LastIndexByte_last c a b :
  noByte c b = true ->
  LastIndexByte (a +:+ String c b) c = Z.of_nat (String.length a).
Proof.
  intros Hb. induction a as [|d a IH].
  - simpl. rewrite (LastIndexByte_noByte c b Hb). simpl.
    unfold isByte. by rewrite Ascii.eqb_refl.
  - cbn [String.append LastIndexByte String.length]. rewrite IH.
    destruct (0 <=? Z.of_nat (String.length a)) eqn:Hle; lia.
Qed.

Lemma IndexByte_first c a b :
  noByte c a = true ->
  IndexByte (a +:+ String c b) c = Z.of_nat (String.length a).
Proof.
  unfold noByte. induction a as [|d a IH]; intros Ha.
  - simpl. unfold isByte. by rewrite Ascii.eqb_refl.
  - simpl in Ha. apply andb_prop in Ha as [Hd Ha].
    apply negb_true_iff in Hd.
    cbn [String.append IndexByte String.length]. rewrite Hd, (IH Ha).
    destruct (Z.of_nat (String.length a) <? 0) eqn:Hlt; lia.
Qed.

Lemma IndexByte_before c a b :
  noByte c b = true -> IndexByte (a +:+ b) c < Z.of_nat (String.length a).
Proof.
  intros Hb. induction a as [|d a IH].
  - simpl. rewrite (IndexByte_noByte c b Hb). lia.
  - cbn [String.append IndexByte String.length].
    destruct (isByte d c); [lia|].
    destruct (IndexByte (a +:+ b) c <? 0) eqn:Hlt; lia.
Qed.

Lemma LastIndexByte_before c a b :
  noByte c b = true -> LastIndexByte (a +:+ b) c < Z.of_nat (String.length a).
Proof.
  intros Hb. induction a as [|d a IH].
  - simpl. rewrite (LastIndexByte_noByte c b Hb). lia.
  - cbn [String.append LastIndexByte String.length].
    destruct (0 <=? LastIndexByte (a +:+ b) c) eqn:Hle;
      [lia|destruct (isByte d c); lia].
Qed.

Lemma takeBytes_app a b : takeBytes (String.length a) (a +:+ b) = a.
Proof.
  induction a as [|c a IH]; simpl; [by destruct b|]. by rewrite IH.
Qed.

Lemma dropBytes_app a b : dropBytes (String.length a) (a +:+ b) = b.
Proof. induction a as [|c a IH]; simpl; [by destruct b|]. done. Qed.

Lemma TrimSuffix_app a p : TrimSuffix (a +:+ p) p = a.
Proof.
  unfold TrimSuffix. rewrite length_append.
  replace (String.length a + String.length p - String.length p)%nat
    with (String.length a) by lia.
  rewrite dropBytes_app, takeBytes_app, String.eqb_refl.
  destruct (_ <=? _)%nat eqn:Hle; [done|].
  apply Nat.leb_gt in Hle. lia.
Qed.

Section NodeAddr.

Context {IP : Type}.
Variable ParseIP : string -> IP.
Variable Atoi : string -> Z.

(** X12: a node that ends in a colon and a port (text without colon or
    closing bracket) is split there: the address is what stands before
    the colon, without a leading opening bracket and a trailing closing
    bracket, and the port is the text after it. *)
Theorem nodeAddr_splits_at_the_last_colon (host port : string) :
  noByte ":" port = true -> noByte "]" port = true ->
  nodeAddr ParseIP Atoi (host +:+ ":" +:+ port)
  = (ParseIP (TrimSuffix (TrimPrefix host "[") "]"), Atoi port).
Proof.
  intros Hc Hb. unfold nodeAddr. cbn [String.append].
  rewrite (LastIndexByte_last ":" host port Hc).
  pose proof (IndexByte_before "]" host (String ":" port)) as Hi.
  destruct (Z.of_nat (String.length host) <? IndexByte _ "]") eqn:Hlt.
  { apply Z.ltb_lt in Hlt. unfold noByte in Hi. simpl in Hi.
    specialize (Hi Hb). lia. }
  destruct (Z.of_nat (String.length host) =? -1) eqn:Heq; [lia|].
  cbn [negb]. rewrite Nat2Z.id.
  replace (Z.to_nat (Z.of_nat (String.length host) + 1))
    with (String.length (host +:+ ":")) by (rewrite length_append; simpl; lia).
  rewrite takeBytes_app.
  change (String ":" port) with (":" +:+ port).
  by rewrite <- append_assoc, dropBytes_app.
Qed.

(** X13: in a bracketed address without port the colons belong to the
    address: the whole text between the brackets goes to [net.ParseIP],
    and the port is what [strconv.Atoi] makes of the empty text. *)
Theorem nodeAddr_of_bracketed_address (a : string) :
  noByte "]" a = true ->
  nodeAddr ParseIP Atoi ("[" +:+ a +:+ "]") = (ParseIP a, Atoi "").
Proof.
  intros Ha. unfold nodeAddr.
  assert (IndexByte ("[" +:+ a +:+ "]") "]"
          = Z.of_nat (String.length ("[" +:+ a))) as Hi.
  { rewrite <- append_assoc. apply IndexByte_first.
    unfold noByte in *. simpl. done. }
  pose proof (LastIndexByte_before ":" ("[" +:+ a) "]" eq_refl) as Hl.
  rewrite append_assoc in Hl. rewrite Hi.
  destruct (LastIndexByte _ ":" <? _) eqn:Hlt; [|apply Z.ltb_ge in Hlt; lia].
  change (negb (-1 =? -1)) with false. cbv iota beta zeta.
  change (TrimPrefix ("[" +:+ a +:+ "]") "[") with (a +:+ "]").
  by rewrite TrimSuffix_app.
Qed.

(** X14: a node without colon has no port: the whole text, without a
    leading opening bracket and a trailing closing bracket, goes to
    [net.ParseIP]. *)
Theorem nodeAddr_without_colon (node : string) :
  noByte ":" node = true ->
  nodeAddr ParseIP Atoi node
  = (ParseIP (TrimSuffix (TrimPrefix node "[") "]"), Atoi "").
Proof.
  intros Hn. unfold nodeAddr. rewrite (LastIndexByte_noByte ":" node Hn).
  by destruct (-1 <? IndexByte node "]").
Qed.

End NodeAddr.

Lemma parseForwardedElem_semi l :
  parseForwardedElem (String ";" l) = parseForwardedElem l.
Proof.
  unfold parseForwardedElem. rewrite scanAll_semi.
  by destruct (scanAll_total l zeroElem) as [[e v'] ->].
Qed.

(** X21: an empty pair is no pair: a semicolon before the first pair of a
    Forwarded element changes nothing of what [Forwarded] returns. *)
Theorem Forwarded_skips_a_leading_semicolon (h : Header) (l : string)
    (ls : list string) :
  nextInLine false l = Some l ->
  Forwarded (setLines h "Forwarded" ((";" +:+ l) :: ls))
  = Forwarded (setLines h "Forwarded" (l :: ls)).
Proof.
  intros Hl. unfold Forwarded. rewrite !values_setLines.
  destruct (parseElems_total parseForwardedElem
              (body_shrinks _ parseForwardedElem_suffix) (l :: ls))
    as (es & Hc & ->).
  rewrite iterElems_start in Hc. cbn [nextInLines] in Hc. rewrite Hl in Hc.
  eapply (parseElems_collect parseForwardedElem
            (body_shrinks _ parseForwardedElem_suffix) _ (String ";" l)
            (Some ls) (budget (l :: ls))).
  - done.
  - unfold budget in *. rewrite collect_S in *.
    by rewrite parseForwardedElem_semi.
Qed.

Lemma toLowerByte_token c : isTokenChar (toLowerByte c) = isTokenChar c.
Proof. destruct c as [[] [] [] [] [] [] [] []]; reflexivity. Qed.

Lemma isName_ToLower n : isName (ToLower n) = isName n.
Proof.
  unfold isName. rewrite isEmpty_ToLower. f_equal.
  induction n as [|c n IH]; [done|]. simpl.
  by rewrite toLowerByte_token, IH.
Qed.

Lemma setParams_lowerNames ps e : setParams (lowerNames ps) e = setParams ps e.
Proof.
  revert e. induction ps as [|[n v] ps IH]; intros e; [done|].
  unfold setParams, lowerNames in *. cbn [fmap list_fmap foldl fst snd].
  by rewrite ToLower_idem, IH.
Qed.

(** X22: the names of Forwarded parameters are read without regard to
    case: an element gives the same result as the element with its names
    in lower case. *)
Theorem Forwarded_names_are_case_insensitive (h : Header)
    (ps : list (string * string)) :
  Forall (fun p => isName (fst p) = true) ps -> ps <> [] ->
  Forwarded (setLines h "Forwarded" [joinPairs ps])
  = Forwarded (setLines h "Forwarded" [joinPairs (lowerNames ps)]).
Proof.
  intros Hps Hne.
  assert (Forall (fun p => isName (fst p) = true) (lowerNames ps)) as Hps'.
  { unfold lowerNames. apply Forall_fmap.
    eapply Forall_impl; [exact Hps|]. intros [n v] Hn. simpl in *.
    by rewrite isName_ToLower. }
  assert (lowerNames ps <> []) as Hne' by (by destruct ps).
  unfold Forwarded. rewrite !values_setLines.
  rewrite (parseElems_one _ (joinPairs ps) (Some (setParams ps zeroElem)) "");
    [|apply parseForwardedElem_suffix| | |done].
  - rewrite (parseElems_one _ (joinPairs (lowerNames ps))
               (Some (setParams ps zeroElem)) "");
      [done|apply parseForwardedElem_suffix| | |done].
    + rewrite <- (append_nil_r (joinPairs _)). by apply joinPairs_start.
    + rewrite <- (append_nil_r (joinPairs _)).
      rewrite parseForwardedElem_joinPairs by done.
      by rewrite setParams_lowerNames.
  - rewrite <- (append_nil_r (joinPairs _)). by apply joinPairs_start.
  - rewrite <- (append_nil_r (joinPairs _)).
    by rewrite parseForwardedElem_joinPairs.
Qed.


Section ForAddrOfForwarded.

Context {IP : Type}.
Variable ParseIP : string -> IP.
Variable Atoi : string -> Z.

(** X9: a [for] parameter whose value is a bracketed address with a port,
    written as [writeParam] writes it, is read by [Forwarded] into [For],
    and [ForAddr] then gives the text between the brackets to
    [net.ParseIP] and the text after the colon to [strconv.Atoi]. *)
Theorem ForAddr_of_bracketed_address_with_port (h : Header) (a port : string) :
  noByte ":" port = true -> noByte "]" port = true ->
  exists e,
    Forwarded (setLines h "Forwarded"
                 [joinPairs [("for", "[" +:+ a +:+ "]" +:+ ":" +:+ port)]])
    = mkSlice [e] /\
    ForAddr ParseIP Atoi e = (ParseIP a, Atoi port).
Proof.
  intros Hc Hb.
  exists (mkForwardedElem "" ("[" +:+ a +:+ "]" +:+ ":" +:+ port) "" "" None).
  split.
  - unfold Forwarded. rewrite values_setLines.
    rewrite (parseElems_one _ _
               (Some (mkForwardedElem ""
                        ("[" +:+ a +:+ "]" +:+ ":" +:+ port) "" "" None)) "");
      [done|apply parseForwardedElem_suffix| | |done].
    + rewrite <- (append_nil_r (joinPairs _)).
      apply joinPairs_start; [|done]. by apply Forall_cons.
    + rewrite <- (append_nil_r (joinPairs _)).
      rewrite parseForwardedElem_joinPairs; [done| |done].
      by apply Forall_cons.
  - unfold ForAddr. cbn [For].
    rewrite <- (append_assoc "[" _ _), <- (append_assoc ("[" +:+ a) _ _).
    rewrite (nodeAddr_splits_at_the_last_colon ParseIP Atoi _ port Hc Hb).
    change (TrimPrefix (("[" +:+ a) +:+ "]") "[") with (a +:+ "]").
    by rewrite TrimSuffix_app.
Qed.

End ForAddrOfForwarded.

Section Claims.

Context {Time : Type}.
Variable zeroTime : Time.
Variable ParseTime : string -> option Time.
Variable FormatTime : Time -> string.
Variable IsZero : Time -> bool.

(** C3, as amended: a parser of a header that the map does not hold returns
    nil, for each of [Allow], [Via], [Warning] and [Forwarded]; for a header
    that is there but holds white space and commas only, [Allow] returns a
    non-nil slice of length 0, and [Via], [Warning] and [Forwarded] return
    nil, as they do for an absent header. *)
Theorem absent_is_nil_and_blank_is_empty_for_Allow_only (h : Header) :
  (absent h "Allow" -> Allow h = nilSlice) /\
  (absent h "Via" -> Via h = nilSlice) /\
  (absent h "Warning" -> Warning zeroTime ParseTime h = nilSlice) /\
  (absent h "Forwarded" -> Forwarded h = nilSlice) /\
  (presentBlank h "Allow" -> Allow h = mkSlice []) /\
  (presentBlank h "Via" -> Via h = nilSlice) /\
  (presentBlank h "Warning" -> Warning zeroTime ParseTime h = nilSlice) /\
  (presentBlank h "Forwarded" -> Forwarded h = nilSlice).
Proof.
  unfold absent, presentBlank, Allow, Via, Warning, Forwarded, toNextElem.
  repeat split.
  1-4: intros Ha; by rewrite (values_absent _ _ Ha).
  all: intros (lines & Hl & Hne & Hb); rewrite (values_present _ _ _ Hl);
    rewrite (parseElems_blank _ _ Hb); try done.
  destruct lines; done.
Qed.

Lemma parseViaElem_bare p rest :
  isWord p = true -> atElemEnd rest = true ->
  parseViaElem (p +:+ rest) = (None, rest).
Proof.
  intros Hp Hr. unfold parseViaElem.
  rewrite (chomp_word_end p rest Hp Hr), (isWord_nonempty p Hp).
  by rewrite (chomp_atElemEnd rest Hr).
Qed.

(** C5: here the code departs from the claim.  An element of the Via
    header that has a protocol and no received-by text gives no entry:
    [Via] returns what it returns for the elements after it, nil when the
    element is all that the header holds; and no entry that [Via] returns
    has an empty [ReceivedBy]. *)
Theorem Via_skips_element_without_received_by (h : Header) (p rest : string) :
  isWord p = true -> atElemEnd rest = true ->
  items (Via (setLines h "Via" [p +:+ rest]))
  = items (Via (setLines h "Via" [rest])) /\
  Via (setLines h "Via" [p]) = nilSlice /\
  (forall h', Forall (fun e => ReceivedBy e <> "") (items (Via h'))).
Proof.
  intros Hp Hr. unfold Via, toNextElem. rewrite !values_setLines.
  split; [|split].
  - rewrite (parseElems_head parseViaElem (p +:+ rest) None rest); try done.
    + apply parseViaElem_suffix.
    + by apply isWord_start.
    + by apply parseViaElem_bare.
  - rewrite (parseElems_one parseViaElem p None ""); try done.
    + apply parseViaElem_suffix.
    + rewrite <- (append_nil_r p) at 1 2. by apply isWord_start.
    + rewrite <- (append_nil_r p) at 1. by apply parseViaElem_bare.
  - intros h'. apply parseElems_Forall. intros v e Hv.
    destruct (parseViaElem_from v e Hv) as (_ & _ & _ & _ & _ & _ & _ & Hb & _).
    intros Hne. by rewrite Hne in Hb.
Qed.

(** C6: [Via] reads the protocol of an element with [chomp] and puts
    [HTTP/] before it when it holds no slash.  The first element of a
    line, made of a protocol text and a received-by text, gives the entry
    with that protocol field, before the entries of the rest of the line.
    And every entry of every header was read from a protocol text that is
    not empty, followed by white space and the received-by text, and has
    the protocol field made of that text: no entry comes from an element
    without protocol text.  (The iterator starts an element at a byte that
    is neither white space nor comma, so [chomp] always has a protocol
    text to read there.) *)
Theorem Via_protocol_gets_HTTP_prefix :
  (forall (h : Header) (p b rest : string),
     isWord p = true -> isWord b = true -> atElemEnd rest = true ->
     items (Via (setLines h "Via" [p +:+ " " +:+ b +:+ rest]))
     = mkViaEntry (if ContainsRune p "/" then p else "HTTP/" +:+ p) b ""
       :: items (Via (setLines h "Via" [rest]))) /\
  (forall h : Header,
     Forall (viaEntryFrom (values h "Via")) (items (Via h))).
Proof.
  split.
  - intros h p b rest Hp Hb Hr. unfold Via, toNextElem.
    rewrite !values_setLines.
    rewrite (parseElems_head parseViaElem _
               (Some (mkViaEntry
                        (if ContainsRune p "/" then p else "HTTP/" +:+ p)
                        b "")) rest); try done.
    + apply parseViaElem_suffix.
    + by apply isWord_start.
    + unfold parseViaElem. cbn [String.append].
      rewrite (chomp_word_space p b rest Hp Hb), (isWord_nonempty p Hp).
      rewrite (chomp_word_end b rest Hb Hr), (isWord_nonempty b Hb).
      rewrite (peekIs_atElemEnd rest "(" Hr) by done.
      by destruct (ContainsRune p "/").
  - intros h. unfold Via, toNextElem.
    apply parseElems_Forall_at; [apply parseViaElem_suffix|].
    intros l v e Hl Hs Hv.
    destruct (parseViaElem_from v e Hv)
      as (p & ws & rest & -> & Hp & Hne & Hws & Hb & Hrest & Hproto).
    by exists l, p, ws, rest.
Qed.

(** ** Element recovery and line boundaries *)

Lemma parseWarningElem_suffix v :
  isSuffix (snd (parseWarningElem zeroTime ParseTime v)) v.
Proof.
  unfold parseWarningElem. pose proof (number_suffix v) as H1.
  destruct (number v) as [code v1]. simpl in H1.
  destruct (code =? -1); [done|].
  pose proof (consume_suffix v1 " ") as H2.
  destruct (consume v1 " ") as [v2 ok]. simpl in H2.
  assert (isSuffix v2 v) as H2' by by eapply isSuffix_trans.
  destruct ok; [|done]. simpl.
  pose proof (chomp_suffix v2) as H3.
  destruct (chomp v2) as [agent v3]. simpl in H3.
  assert (isSuffix v3 v) as H3' by by eapply isSuffix_trans.
  destruct (isEmpty agent); [done|].
  pose proof (quoted_suffix v3) as H4.
  destruct (quoted v3) as [text v4]. simpl in H4.
  assert (isSuffix v4 v) as H4' by by eapply isSuffix_trans.
  pose proof (consume_suffix v4 " ") as H5.
  destruct (consume v4 " ") as [v5 ok]. simpl in H5.
  assert (isSuffix v5 v) as H5' by by eapply isSuffix_trans.
  destruct ok; [|done].
  pose proof (quoted_suffix v5) as H6.
  destruct (quoted v5) as [dateStr v6]. simpl in *.
  by eapply isSuffix_trans.
Qed.

Lemma parseWarningElem_closed a t :
  warningElemClosed a = true ->
  parseWarningElem zeroTime ParseTime (a +:+ String "," t)
  = (fst (parseWarningElem zeroTime ParseTime a),
     snd (parseWarningElem zeroTime ParseTime a) +:+ String "," t).
Proof.
  unfold warningElemClosed, parseWarningElem. rewrite number_stop.
  destruct (number a) as [code v1]. cbn [fst snd].
  destruct (code =? -1); [done|]. rewrite consume_stop by done.
  destruct (consume v1 " ") as [v2 ok]. cbn [fst snd].
  destruct ok; [|done]. cbn [negb]. cbv iota. rewrite chomp_stop.
  destruct (chomp v2) as [agent v3]. cbn [fst snd].
  destruct (isEmpty agent); [done|]. intros [H3 H5]%andb_prop.
  rewrite (quoted_closes v3 _ H3).
  destruct (quoted v3) as [text v4]. cbn [fst snd] in *.
  rewrite consume_stop by done.
  destruct (consume v4 " ") as [v5 ok]. cbn [fst snd] in *.
  destruct ok; [|done]. rewrite (quoted_closes v5 _ H5).
  by destruct (quoted v5) as [dateStr v6].
Qed.

Lemma quoted_noByte v :
  noByte "034" v = true -> quotedCloses v = true /\ quoted v = ("", v).
Proof.
  destruct v as [|c v]; [done|]. unfold noByte. simpl.
  intros [Hc _]%andb_prop. by destruct (isByte c "034").
Qed.

Lemma warningClosed_noByte l :
  noByte "034" l = true -> warningClosed zeroTime ParseTime l = true.
Proof.
  intros Hl. apply closedLine_all; [apply parseWarningElem_suffix|].
  intros t Ht. unfold warningElemClosed.
  pose proof (number_suffix t) as H1. destruct (number t) as [code v1].
  destruct (code =? -1); [done|].
  pose proof (consume_suffix v1 " ") as H2.
  destruct (consume v1 " ") as [v2 ok]. destruct ok; [|done]. simpl.
  pose proof (chomp_suffix v2) as H3. destruct (chomp v2) as [agent v3].
  destruct (isEmpty agent); [done|]. cbn [fst snd] in *.
  assert (isSuffix v3 l) as H3'.
  { eapply isSuffix_trans; [done|]. eapply isSuffix_trans; [done|].
    by eapply isSuffix_trans. }
  destruct (quoted_noByte v3) as [-> ->]; [by eapply noByte_suffix|].
  pose proof (consume_suffix v3 " ") as H5.
  destruct (consume v3 " ") as [v5 ok]. destruct ok; [|done]. simpl in *.
  apply quoted_noByte. eapply noByte_suffix; [|done].
  by eapply isSuffix_trans.
Qed.

(** C1, as amended: the entries of a header whose leading element is
    malformed are those of that element followed by those the trailing
    text parses to on its own, for each of [Via], [Warning] and
    [Forwarded]: when the leading text is on a physical line of its own,
    whatever its bytes; and when it is on the same line, before a comma,
    and leaves open no comment that [Via] reads, no quoted string that
    [Warning] reads, and no quoted value that [Forwarded] reads. *)
Theorem trailing_elements_are_recovered (h : Header) (bad good : string) :
  (items (Via (setLines h "Via" [bad; good]))
   = items (Via (setLines h "Via" [bad]))
     ++ items (Via (setLines h "Via" [good]))) /\
  (items (Warning zeroTime ParseTime (setLines h "Warning" [bad; good]))
   = items (Warning zeroTime ParseTime (setLines h "Warning" [bad]))
     ++ items (Warning zeroTime ParseTime (setLines h "Warning" [good]))) /\
  (items (Forwarded (setLines h "Forwarded" [bad; good]))
   = items (Forwarded (setLines h "Forwarded" [bad]))
     ++ items (Forwarded (setLines h "Forwarded" [good]))) /\
  (viaClosed bad = true ->
   items (Via (setLines h "Via" [bad +:+ "," +:+ good]))
   = items (Via (setLines h "Via" [bad]))
     ++ items (Via (setLines h "Via" [good]))) /\
  (warningClosed zeroTime ParseTime bad = true ->
   items (Warning zeroTime ParseTime
            (setLines h "Warning" [bad +:+ "," +:+ good]))
   = items (Warning zeroTime ParseTime (setLines h "Warning" [bad]))
     ++ items (Warning zeroTime ParseTime (setLines h "Warning" [good]))) /\
  (forwardedClosed bad = true ->
   items (Forwarded (setLines h "Forwarded" [bad +:+ "," +:+ good]))
   = items (Forwarded (setLines h "Forwarded" [bad]))
     ++ items (Forwarded (setLines h "Forwarded" [good]))).
Proof.
  unfold Via, Warning, Forwarded, toNextElem. rewrite !values_setLines.
  repeat split.
  - apply parseElems_cons, parseViaElem_suffix.
  - apply parseElems_cons, parseWarningElem_suffix.
  - apply parseElems_cons, parseForwardedElem_suffix.
  - apply parseElems_comma_closed;
      [apply parseViaElem_suffix|apply parseViaElem_closed].
  - apply parseElems_comma_closed;
      [apply parseWarningElem_suffix|apply parseWarningElem_closed].
  - apply parseElems_comma_closed;
      [apply parseForwardedElem_suffix|apply parseForwardedElem_closed].
Qed.

(** C4, as amended: the lines of a header joined into one with a comma and
    a space parse as the lines themselves do.  For [Allow] (on a header
    with a line at least) and [Vary] this holds of all lines.  For [Via],
    [Warning] and [Forwarded] it holds when no line but the last leaves
    open a comment that [Via] reads, a quoted string that [Warning]
    reads, or a quoted value that [Forwarded] reads. *)
Theorem joined_lines_parse_as_the_lines (h : Header) (lines : list string) :
  (lines <> [] ->
   Allow (setLines h "Allow" [joinLines lines])
   = Allow (setLines h "Allow" lines)) /\
  (Vary (setLines h "Vary" [joinLines lines])
   = Vary (setLines h "Vary" lines)) /\
  (Forall (fun l => viaClosed l = true) (removelast lines) ->
   Via (setLines h "Via" [joinLines lines]) = Via (setLines h "Via" lines)) /\
  (Forall (fun l => warningClosed zeroTime ParseTime l = true)
     (removelast lines) ->
   Warning zeroTime ParseTime (setLines h "Warning" [joinLines lines])
   = Warning zeroTime ParseTime (setLines h "Warning" lines)) /\
  (Forall (fun l => forwardedClosed l = true) (removelast lines) ->
   Forwarded (setLines h "Forwarded" [joinLines lines])
   = Forwarded (setLines h "Forwarded" lines)).
Proof.
  unfold Allow, Vary, Via, Warning, Forwarded, toNextElem.
  rewrite !values_setLines.
  repeat split; try intros Hl.
  - rewrite (parseElems_joinLines_ok parseAllowElem parseAllowElem_suffix
               (fun _ => True)); [by destruct lines| |done|].
    + intros a t _. apply parseAllowElem_stop.
    + by apply Forall_forall.
  - apply (parseElems_joinLines_ok parseVaryElem parseVaryElem_suffix
             (fun _ => True)); [|done|].
    + intros a t _. apply parseVaryElem_stop.
    + by apply Forall_forall.
  - apply (parseElems_joinLines_closed parseViaElem parseViaElem_suffix
             viaElemClosed parseViaElem_closed lines Hl).
  - apply (parseElems_joinLines_closed (parseWarningElem zeroTime ParseTime)
             parseWarningElem_suffix warningElemClosed
             parseWarningElem_closed lines Hl).
  - apply (parseElems_joinLines_closed parseForwardedElem
             parseForwardedElem_suffix forwardedElemClosed
             parseForwardedElem_closed lines Hl).
Qed.

(** ** Warning elements on the wire *)

Lemma parseWarningElem_wire code agent text date X :
  0 <= code -> isWord agent = true -> atElemEnd X = true ->
  parseWarningElem zeroTime ParseTime (warningWire code agent text date +:+ X)
  = (Some (mkWarningEntry code agent text
             match date with
             | Some d => default zeroTime (ParseTime d)
             | None => zeroTime
             end), X).
Proof.
  intros Hc Ha HX. unfold parseWarningElem, warningWire.
  rewrite !append_assoc. rewrite (number_Itoa code _ Hc) by done.
  destruct (code =? -1) eqn:Hneg; [lia|].
  cbn [String.append consume]. change (isByte " " " ") with true. cbv iota.
  cbn [negb]. unfold quotedText at 1. cbn [String.append].
  rewrite (chomp_word_then agent "034" _ Ha) by done.
  rewrite (isWord_nonempty agent Ha).
  change (String "034" ((escape "034" "034" text +:+ String "034" "") +:+ ?Y))
    with (quotedText text +:+ Y).
  rewrite quoted_quotedText. destruct date as [d|].
  - cbn [String.append consume].
    change (isByte " " " ") with true. cbv iota.
    by rewrite quoted_quotedText.
  - cbn [String.append]. by rewrite (consume_atElemEnd X HX).
Qed.

Lemma warningText_wire e :
  wfWarningEntry zeroTime ParseTime FormatTime IsZero e ->
  warningText FormatTime IsZero e
  = warningWire (Code e) (Agent e) (Text e)
      (if IsZero (Date e) then None else Some (FormatTime (Date e))).
Proof.
  intros (_ & _ & Hd). unfold warningText, warningWire.
  destruct (IsZero (Date e)); [done|]. destruct Hd as (_ & Hq & Hb).
  unfold quotedText at 3. by rewrite (escape_plain _ _ _ Hq Hq Hb).
Qed.

Lemma parseWarningElem_text e X :
  wfWarningEntry zeroTime ParseTime FormatTime IsZero e ->
  atElemEnd X = true ->
  parseWarningElem zeroTime ParseTime (warningText FormatTime IsZero e +:+ X)
  = (Some e, X).
Proof.
  intros He HX. rewrite (warningText_wire e He).
  destruct He as (Hc & Ha & Hd).
  rewrite (parseWarningElem_wire _ _ _ _ X Hc Ha HX).
  destruct e as [code agent text date]. cbn [Code Agent Text Date] in *.
  destruct (IsZero date); [by subst|]. destruct Hd as [-> _]. done.
Qed.

Lemma Itoa_start n X :
  0 <= n -> nextInLine false (Itoa n +:+ X) = Some (Itoa n +:+ X).
Proof.
  intros Hn. pose proof (Itoa_digits n Hn) as Hd.
  assert (Itoa n <> "") as Hne.
  { destruct n as [|p|p]; [done| |lia]. unfold Itoa.
    pose proof (Unsigned.to_uint_nonnil p). by destruct (Pos.to_uint p). }
  destruct (Itoa n) as [|c s]; [done|]. simpl in Hd.
  apply andb_prop in Hd as [Hc _]. cbn [String.append nextInLine].
  assert (isByte c "," = false /\ isWS c = false) as [-> ->]; [|done].
  clear -Hc. destruct c as [[] [] [] [] [] [] [] []]; vm_compute in Hc |- *;
    try discriminate Hc; done.
Qed.

Lemma warningText_start e X :
  wfWarningEntry zeroTime ParseTime FormatTime IsZero e ->
  nextInLine false (warningText FormatTime IsZero e +:+ X)
  = Some (warningText FormatTime IsZero e +:+ X).
Proof.
  intros (Hc & _). unfold warningText. rewrite !append_assoc.
  by apply Itoa_start.
Qed.

Lemma buildWarningEntry_text b i e :
  buildWarningEntry FormatTime IsZero b i e
  = b +:+ (if (0 <? i)%nat then ", " else "") +:+ warningText FormatTime IsZero e.
Proof.
  unfold buildWarningEntry, warningText, quotedText, writeDelimited,
    writeString.
  destruct (0 <? i)%nat, (IsZero (Date e)); cbn [negb];
    rewrite ?append_assoc, ?append_nil_r; cbn [String.append];
    rewrite ?append_assoc, ?append_nil_r; try done.
Qed.

Lemma Warning_SetWarning h es :
  Forall (wfWarningEntry zeroTime ParseTime FormatTime IsZero) es ->
  Warning zeroTime ParseTime (SetWarning FormatTime IsZero h es)
  = appendList nilSlice es.
Proof.
  intros Hes. unfold Warning, SetWarning, buildWarning, toNextElem.
  rewrite values_Set.
  apply (parseElems_build_texts (parseWarningElem zeroTime ParseTime)
           (warningText FormatTime IsZero)
           (wfWarningEntry zeroTime ParseTime FormatTime IsZero)
           (buildWarningEntry FormatTime IsZero)); try done.
  - apply parseWarningElem_suffix.
  - apply parseWarningElem_text.
  - apply warningText_start.
  - apply buildWarningEntry_text.
Qed.

Lemma parseWarningElem_no_dates v :
  parseWarningElem zeroTime (fun _ => None) v
  = (withZeroDate zeroTime <$> fst (parseWarningElem zeroTime ParseTime v),
     snd (parseWarningElem zeroTime ParseTime v)).
Proof.
  unfold parseWarningElem. destruct (number v) as [code v1].
  destruct (code =? -1); [done|]. destruct (consume v1 " ") as [v2 ok].
  destruct ok; [|done]. simpl. destruct (chomp v2) as [agent v3].
  destruct (isEmpty agent); [done|]. destruct (quoted v3) as [text v4].
  destruct (consume v4 " ") as [v5 ok]. destruct ok; [|done].
  by destruct (quoted v5) as [dateStr v6].
Qed.

(** C7, as amended: a date string that [http.ParseTime] does not parse
    costs a Warning element its date and nothing else.  For every header,
    were all the date strings refused, [Warning] would return the entries
    it returns, each with the zero time as date: the same elements give
    an entry, with the same code, agent and text.  And an element on the
    wire whose trailing quoted date string [http.ParseTime] refuses gives
    its entry, with the code, the agent and the text of the element and
    the zero time as date. *)
Theorem Warning_bad_date_is_zero_time :
  (forall h : Header,
     items (Warning zeroTime (fun _ => None) h)
     = withZeroDate zeroTime <$> items (Warning zeroTime ParseTime h)) /\
  (forall (h : Header) (code : Z) (agent text dateStr : string),
     0 <= code <= maxInt -> isWord agent = true ->
     ParseTime dateStr = None ->
     Warning zeroTime ParseTime
       (setLines h "Warning" [warningWire code agent text (Some dateStr)])
     = mkSlice [mkWarningEntry code agent text zeroTime]).
Proof.
  split.
  - intros h. unfold Warning, toNextElem.
    rewrite (parseElems_fmap (withZeroDate zeroTime)
               (parseWarningElem zeroTime ParseTime)
               (parseWarningElem zeroTime (fun _ => None)));
      [|apply parseWarningElem_no_dates].
    by rewrite items_appendList.
  - intros h code agent text dateStr [Hc _] Ha Hd.
    unfold Warning, toNextElem. rewrite values_setLines.
    rewrite (parseElems_one _ _
               (Some (mkWarningEntry code agent text zeroTime)) "");
      [done|apply parseWarningElem_suffix| | |done].
    + unfold warningWire. by apply Itoa_start.
    + rewrite <- (append_nil_r (warningWire _ _ _ _)).
      by rewrite (parseWarningElem_wire _ _ _ _ "" Hc Ha eq_refl), Hd.
Qed.

(** C8: in a Forwarded element, a quoted value that is not terminated ends
    the reading of pairs, and the element is returned with the pairs read
    before it: the assignments of those pairs, and nothing of what
    follows the opening quote. *)
Theorem Forwarded_unterminated_value_keeps_earlier_pairs (h : Header)
    (ps : list (string * string)) (name s : string) :
  Forall (fun p => isName (fst p) = true) ps -> isName name = true ->
  snd (quotedBody s) = false ->
  Forwarded (setLines h "Forwarded"
               [seqPairs ps (name +:+ "=" +:+ String "034" s)])
  = mkSlice [setParams ps zeroElem].
Proof.
  intros Hps Hn Hs. unfold Forwarded. rewrite values_setLines.
  rewrite (parseElems_one _ _ (Some (setParams ps zeroElem)) "");
    [done|apply parseForwardedElem_suffix| | |done].
  - by apply seqPairs_start.
  - unfold parseForwardedElem.
    rewrite (scanAll_seqPairs _ _ _ Hps).
    by rewrite (scanAll_unterminated name s _ Hn Hs).
Qed.

(** C9: no element that [Forwarded] returns has [for], [by], [host] or
    [proto] as a key of its extension map; and when a name is repeated in
    an element, each standard field holds the value of the last pair with
    its name (lowercased, for [proto]), without any error. *)
Theorem Forwarded_Ext_without_standard_keys_and_last_value_wins :
  (forall h, Forall extHasNoStandardKey (items (Forwarded h))) /\
  (forall h ps,
     Forall (fun p => isName (fst p) = true) ps -> ps <> [] ->
     exists e,
       Forwarded (setLines h "Forwarded" [joinPairs ps]) = mkSlice [e] /\
       For e = lastValue "for" ps "" /\ By e = lastValue "by" ps "" /\
       Host e = lastValue "host" ps "" /\
       Proto e = ToLower (lastValue "proto" ps "")).
Proof.
  split.
  - intros h. apply parseElems_Forall. intros v e.
    apply parseForwardedElem_noStandardKey.
  - intros h ps Hps Hne. exists (setParams ps zeroElem). split.
    + unfold Forwarded. rewrite values_setLines.
      rewrite (parseElems_one _ _ (Some (setParams ps zeroElem)) "");
        [done|apply parseForwardedElem_suffix| | |done].
      * rewrite <- (append_nil_r (joinPairs ps)). by apply joinPairs_start.
      * rewrite <- (append_nil_r (joinPairs ps)).
        by apply parseForwardedElem_joinPairs.
    + rewrite setParams_For, setParams_By, setParams_Host.
      by rewrite (setParams_Proto ps zeroElem "").
Qed.

(** C10: every pass of [Forwarded] appends one element, the zero value when
    the element has no pair to read; so [Forwarded] returns as many
    elements as the iterator delimits, which for a header without double
    quote are the comma-separated pieces of its lines that hold more than
    white space. *)
Theorem Forwarded_one_elem_per_element :
  (forall v, is_Some (fst (parseForwardedElem v))) /\
  (forall v, headFails isTokenChar v = true -> peekIs v ";" = false ->
             parseForwardedElem v = (Some zeroElem, v)) /\
  (forall h, length (items (Forwarded h))
             = length (elemCursors parseForwardedElem (values h "Forwarded"))) /\
  (forall h lines,
     Forall (fun l => noByte "034" l = true) lines ->
     length (items (Forwarded (setLines h "Forwarded" lines)))
     = sum_list (countElems <$> lines)).
Proof.
  repeat split.
  - apply parseForwardedElem_appends.
  - intros v Hv Hp. unfold parseForwardedElem. rewrite scanAll_unfold.
    unfold consumeItem, token.
    pose proof (span_app isTokenChar "" v eq_refl Hv) as Hs.
    cbn [String.append] in Hs. rewrite Hs. cbn [ToLower isEmpty]. cbv iota.
    by rewrite Hp.
  - intros h. unfold Forwarded. rewrite items_parseElems_cursors.
    apply length_omap_total, parseForwardedElem_appends.
  - intros h lines Hl. unfold Forwarded. rewrite values_setLines.
    apply (count_lines parseForwardedElem parseForwardedElem_suffix
             parseForwardedElem_appends "034" parseForwardedElem_stop lines Hl).
Qed.

(** C2, as amended: for well-formed entries, the parser reads back from the
    header that the builder wrote the entries it was given, in order, for
    each of Via, Warning and Forwarded (and nil when there is no entry).
    Well-formed is [wfViaEntry], [wfWarningEntry] (for the dates, with
    Go's formatting and parsing of times as round trip) and
    [wfForwardedElem] (with a [Proto] of ASCII bytes in lower case, and
    whatever the order [range] in which Go walks the extension map). *)
Theorem parse_of_build_on_wellformed_entries (h : Header)
    (range : gmap string string -> list (string * string))
    (vs : list ViaEntry) (ws : list (WarningEntry Time))
    (fs : list ForwardedElem) :
  (Forall (fun e => wfViaEntry e = true) vs ->
   Via (SetVia h vs) = match vs with [] => nilSlice | _ => mkSlice vs end) /\
  (Forall (wfWarningEntry zeroTime ParseTime FormatTime IsZero) ws ->
   Warning zeroTime ParseTime (SetWarning FormatTime IsZero h ws)
   = match ws with [] => nilSlice | _ => mkSlice ws end) /\
  (Forall (wfForwardedElem range) fs ->
   Forwarded (SetForwarded range h fs)
   = match fs with [] => nilSlice | _ => mkSlice fs end).
Proof.
  repeat split; intros H.
  - rewrite (Via_SetVia h vs H). by destruct vs.
  - rewrite (Warning_SetWarning h ws H). by destruct ws.
  - rewrite (Forwarded_SetForwarded range h fs H). by destruct fs.
Qed.


(** ** Further properties of Warning *)




(** X18: a Warning element on the wire (a code that a Go [int] holds,
    agent, quoted text and, maybe, a quoted date string) is read into its
    four fields: the code, the agent, the text unescaped, and as date the
    time Go's library parses from the date string, the zero time when
    there is no date string or it does not parse. *)
Theorem Warning_reads_a_wire_element (h : Header) (code : Z)
    (agent text : string) (date : option string) :
  0 <= code <= maxInt -> isWord agent = true ->
  Warning zeroTime ParseTime
    (setLines h "Warning" [warningWire code agent text date])
  = mkSlice [mkWarningEntry code agent text
               match date with
               | Some d => default zeroTime (ParseTime d)
               | None => zeroTime
               end].
Proof.
  intros [Hc _] Ha. unfold Warning, toNextElem. rewrite values_setLines.
  rewrite (parseElems_one _ _
             (Some (mkWarningEntry code agent text
                      match date with
                      | Some d => default zeroTime (ParseTime d)
                      | None => zeroTime
                      end)) "");
    [done|apply parseWarningElem_suffix| | |done].
  - unfold warningWire. by apply Itoa_start.
  - rewrite <- (append_nil_r (warningWire _ _ _ _)).
    by rewrite (parseWarningElem_wire _ _ _ _ "" Hc Ha eq_refl).
Qed.

(** X7: after [AddWarning] of a well-formed entry, [Warning] returns the
    entries it returned before, and then that entry. *)
Theorem Warning_of_AddWarning (h : Header) (entry : WarningEntry Time) :
  wfWarningEntry zeroTime ParseTime FormatTime IsZero entry ->
  Warning zeroTime ParseTime (AddWarning FormatTime IsZero h entry)
  = mkSlice (items (Warning zeroTime ParseTime h) ++ [entry]).
Proof.
  intros He. unfold Warning, AddWarning, toNextElem. rewrite values_Add.
  rewrite (parseElems_slice _ parseWarningElem_suffix).
  rewrite (parseElems_snoc _ _ _ parseWarningElem_suffix).
  assert (parseElems iterElems (parseWarningElem zeroTime ParseTime)
            [buildWarning FormatTime IsZero [entry]]
          = appendList nilSlice [entry]) as ->.
  { apply (parseElems_build_texts (parseWarningElem zeroTime ParseTime)
             (warningText FormatTime IsZero)
             (wfWarningEntry zeroTime ParseTime FormatTime IsZero)
             (buildWarningEntry FormatTime IsZero)).
    - apply parseWarningElem_suffix.
    - apply parseWarningElem_text.
    - apply warningText_start.
    - apply buildWarningEntry_text.
    - by apply Forall_cons. }
  simpl. by destruct (items _).
Qed.


Lemma items_Allow (h0 : Header) :
  items (Allow h0)
  = items (parseElems iterElems parseAllowElem (values h0 "Allow")).
Proof.
  unfold Allow, toNextElem.
  destruct (parseElems iterElems parseAllowElem (values h0 "Allow")); simpl;
    [|done].
  by destruct (0 <? length (values h0 "Allow"))%nat.
Qed.

(** X20: the entries of a header are those of its first lines followed by
    those of its last lines, wherever the lines are cut in two, for each of
    [Allow], [Vary], [Via], [Warning] and [Forwarded]: no parser carries
    anything over from one physical line to the next. *)
Theorem entries_of_lines_are_entries_line_by_line (h : Header)
    (ls1 ls2 : list string) :
  items (Allow (setLines h "Allow" (ls1 ++ ls2)))
  = items (Allow (setLines h "Allow" ls1))
    ++ items (Allow (setLines h "Allow" ls2)) /\
  items (Vary (setLines h "Vary" (ls1 ++ ls2)))
  = items (Vary (setLines h "Vary" ls1))
    ++ items (Vary (setLines h "Vary" ls2)) /\
  items (Via (setLines h "Via" (ls1 ++ ls2)))
  = items (Via (setLines h "Via" ls1))
    ++ items (Via (setLines h "Via" ls2)) /\
  items (Warning zeroTime ParseTime (setLines h "Warning" (ls1 ++ ls2)))
  = items (Warning zeroTime ParseTime (setLines h "Warning" ls1))
    ++ items (Warning zeroTime ParseTime (setLines h "Warning" ls2)) /\
  items (Forwarded (setLines h "Forwarded" (ls1 ++ ls2)))
  = items (Forwarded (setLines h "Forwarded" ls1))
    ++ items (Forwarded (setLines h "Forwarded" ls2)).
Proof.
  rewrite !items_Allow.
  unfold Vary, Via, Warning, Forwarded, toNextElem.
  rewrite !values_setLines. repeat split.
  - apply parseElems_lines, parseAllowElem_suffix.
  - apply parseElems_lines, parseVaryElem_suffix.
  - apply parseElems_lines, parseViaElem_suffix.
  - apply parseElems_lines, parseWarningElem_suffix.
  - apply parseElems_lines, parseForwardedElem_suffix.
Qed.


End Claims.

(** * The properties at work, and where the plain readings fail *)

Import HTTPDate.

(** C1, as read before amendment, fails: the unterminated comment of a
    leading Via element takes the comma and the element after it. *)
Lemma unterminated_comment_takes_the_trailing_element :
  items (Via (setLines ∅ "Via" ["1.1 foo (oops" +:+ "," +:+ " 1.1 bar"]))
  <> items (Via (setLines ∅ "Via" ["1.1 foo (oops"]))
     ++ items (Via (setLines ∅ "Via" [" 1.1 bar"])).
Proof. vm_compute. discriminate. Qed.

Lemma trailing_elements_are_recovered_witness :
  let v := "1.1 foo (a, b) ???" in
  let w := warningWire 299 "-" "good, or not" (Some "bad date") +:+ " ???" in
  let f := "for=" +:+ quotedText "a, b" +:+ ";???" in
  (viaClosed v = true /\
   items (Via (setLines ∅ "Via" [v +:+ "," +:+ "1.0 bar"]))
   = items (Via (setLines ∅ "Via" [v]))
     ++ [mkViaEntry "HTTP/1.0" "bar" ""]) /\
  (warningClosed zeroTime ParseTime w = true /\
   items (Warning zeroTime ParseTime
            (setLines ∅ "Warning" [w +:+ "," +:+ warningWire 199 "-" "ok" None]))
   = items (Warning zeroTime ParseTime (setLines ∅ "Warning" [w]))
     ++ [mkWarningEntry 199 "-" "ok" zeroTime]) /\
  (forwardedClosed f = true /\
   items (Forwarded (setLines ∅ "Forwarded" [f +:+ "," +:+ "for=1.2.3.4"]))
   = items (Forwarded (setLines ∅ "Forwarded" [f]))
     ++ [mkForwardedElem "" "1.2.3.4" "" "" None]).
Proof.
  intros v w f.
  assert (viaClosed v = true) as Hv by reflexivity.
  assert (warningClosed zeroTime ParseTime w = true) as Hw by reflexivity.
  assert (forwardedClosed f = true) as Hf by reflexivity.
  split; [|split]; (split; [assumption|]).
  - destruct (trailing_elements_are_recovered zeroTime ParseTime ∅ v
                "1.0 bar") as (_ & _ & _ & H & _).
    exact (H Hv).
  - destruct (trailing_elements_are_recovered zeroTime ParseTime ∅ w
                (warningWire 199 "-" "ok" None)) as (_ & _ & _ & _ & H & _).
    exact (H Hw).
  - destruct (trailing_elements_are_recovered zeroTime ParseTime ∅ f
                "for=1.2.3.4") as (_ & _ & _ & _ & _ & H).
    exact (H Hf).
Defined.

(** C2, as read before amendment, fails: the zero element, which
    [Forwarded] itself returns for a malformed element and which holds no
    byte at all, is written as the empty string and read back as nothing. *)
Lemma zero_element_is_not_read_back :
  Forwarded (SetForwarded map_to_list ∅ [zeroElem]) <> mkSlice [zeroElem].
Proof. vm_compute. discriminate. Qed.

Lemma parse_of_build_on_wellformed_entries_witness :
  let vs := [mkViaEntry "HTTP/1.1" "foo" "a (nested) comment";
             mkViaEntry "FSTR/3" "bar" ""] in
  let ws := [mkWarningEntry 299 "-" "with, comma" (mkTime 2019 7 6 5 45 48);
             mkWarningEntry 199 "gw1" "plain" zeroTime] in
  let fs := [mkForwardedElem "" "1.2.3.4" "" "https" None;
             mkForwardedElem "a b" "" "" "" (Some {[ "ext" := "1" ]})] in
  Via (SetVia ∅ vs) = mkSlice vs /\
  Warning zeroTime ParseTime (SetWarning FormatTime IsZero ∅ ws) = mkSlice ws /\
  Forwarded (SetForwarded map_to_list ∅ fs) = mkSlice fs.
Proof.
  intros vs ws fs.
  destruct (parse_of_build_on_wellformed_entries zeroTime ParseTime FormatTime
              IsZero ∅ map_to_list vs ws fs) as (Hv & Hw & Hf).
  split; [|split].
  - apply Hv. apply Forall_cons. split; [reflexivity|].
    apply Forall_cons. split; [reflexivity|constructor].
  - apply Hw. apply Forall_cons. split; [|apply Forall_cons; split].
    + split; [simpl; lia|]. split; [reflexivity|].
      change (IsZero (Date (mkWarningEntry 299 "-" "with, comma"
                              (mkTime 2019 7 6 5 45 48)))) with false.
      cbv iota. split; [reflexivity|]. split; reflexivity.
    + split; [simpl; lia|]. split; reflexivity.
    + constructor.
  - apply Hf. apply Forall_cons. split; [|apply Forall_cons; split].
    + split; [split; reflexivity|]. split; [discriminate|exact I].
    + split; [split; reflexivity|]. split; [discriminate|].
      split; [|split].
      * intros Hm. apply (f_equal (fun m => m !! "ext")) in Hm.
        rewrite lookup_singleton_eq, lookup_empty in Hm. discriminate.
      * reflexivity.
      * intros n v Hn. apply lookup_singleton_Some in Hn as [<- _].
        reflexivity.
    + constructor.
Defined.

(** C3, as read before amendment, fails: for a Via header that is there
    and empty, [Via] returns nil, not an empty slice. *)
Lemma blank_Via_header_gives_nil :
  presentBlank (setLines ∅ "Via" [""]) "Via" /\
  Via (setLines ∅ "Via" [""]) <> mkSlice [].
Proof.
  split.
  - exists [""]. split; [reflexivity|]. split; [discriminate|].
    repeat constructor.
  - vm_compute. discriminate.
Qed.

Lemma absent_is_nil_and_blank_is_empty_for_Allow_only_witness :
  Allow (setLines ∅ "Via" ["1.1 foo"]) = nilSlice /\
  Allow (setLines ∅ "Allow" [" , "; ""]) = mkSlice [] /\
  Forwarded (setLines ∅ "Forwarded" [" , "; ""]) = nilSlice.
Proof.
  split; [|split].
  - apply (absent_is_nil_and_blank_is_empty_for_Allow_only zeroTime ParseTime
             (setLines ∅ "Via" ["1.1 foo"])).
    reflexivity.
  - apply (absent_is_nil_and_blank_is_empty_for_Allow_only zeroTime ParseTime
             (setLines ∅ "Allow" [" , "; ""])).
    exists [" , "; ""]. split; [reflexivity|]. split; [discriminate|].
    repeat constructor.
  - apply (absent_is_nil_and_blank_is_empty_for_Allow_only zeroTime ParseTime
             (setLines ∅ "Forwarded" [" , "; ""])).
    exists [" , "; ""]. split; [reflexivity|]. split; [discriminate|].
    repeat constructor.
Defined.

(** C4, as read before amendment, fails: two lines of which the first ends
    in an unterminated comment give two entries, and joined they give
    one. *)
Lemma joined_lines_with_open_comment_parse_otherwise :
  Via (setLines ∅ "Via" [joinLines ["1.1 foo (unterminated"; "1.1 bar"]])
  <> Via (setLines ∅ "Via" ["1.1 foo (unterminated"; "1.1 bar"]).
Proof. vm_compute. discriminate. Qed.

Lemma joined_lines_parse_as_the_lines_witness :
  let vs := ["1.0 foo (a, (nested) comment),1.0   bar"; " 1.0 baz,,";
             "1.1 qux (unterminated"] in
  let ws := [warningWire 199 "-" "stale, it seems"
               (Some "Sat, 06 Jul 2019 05:45:48 GMT")
             +:+ ", " +:+ warningWire 299 "gw1" "fishy" None;
             warningWire 214 "-" "converted" None] in
  (Forall (fun l => viaClosed l = true) (removelast vs) /\
   Via (setLines ∅ "Via" [joinLines vs]) = Via (setLines ∅ "Via" vs)) /\
  (Forall (fun l => warningClosed zeroTime ParseTime l = true)
     (removelast ws) /\
   Warning zeroTime ParseTime (setLines ∅ "Warning" [joinLines ws])
   = Warning zeroTime ParseTime (setLines ∅ "Warning" ws)) /\
  Allow (setLines ∅ "Allow" [joinLines ["GET, HEAD"; "OPTIONS"]])
  = Allow (setLines ∅ "Allow" ["GET, HEAD"; "OPTIONS"]).
Proof.
  intros vs ws.
  assert (Forall (fun l => viaClosed l = true) (removelast vs)) as Hv.
  { apply Forall_cons. split; [reflexivity|].
    apply Forall_cons. split; [reflexivity|constructor]. }
  assert (Forall (fun l => warningClosed zeroTime ParseTime l = true)
            (removelast ws)) as Hw.
  { apply Forall_cons. split; [reflexivity|constructor]. }
  split; [|split].
  - split; [exact Hv|].
    destruct (joined_lines_parse_as_the_lines zeroTime ParseTime ∅ vs)
      as (_ & _ & H & _).
    exact (H Hv).
  - split; [exact Hw|].
    destruct (joined_lines_parse_as_the_lines zeroTime ParseTime ∅ ws)
      as (_ & _ & _ & H & _).
    exact (H Hw).
  - destruct (joined_lines_parse_as_the_lines zeroTime ParseTime ∅
                ["GET, HEAD"; "OPTIONS"]) as (H & _).
    apply H. discriminate.
Defined.

Lemma Via_skips_element_without_received_by_witness :
  isWord "1.0" = true /\ atElemEnd ", 1.1 foo, 1.2, 1.3 bar" = true /\
  items (Via (setLines ∅ "Via" ["1.0" +:+ ", 1.1 foo, 1.2, 1.3 bar"]))
  = [mkViaEntry "HTTP/1.1" "foo" ""; mkViaEntry "HTTP/1.3" "bar" ""] /\
  Via (setLines ∅ "Via" ["1.0"]) = nilSlice.
Proof.
  assert (isWord "1.0" = true) as H1 by reflexivity.
  assert (atElemEnd ", 1.1 foo, 1.2, 1.3 bar" = true) as H2 by reflexivity.
  split; [exact H1|]. split; [exact H2|].
  destruct (Via_skips_element_without_received_by ∅ "1.0"
              ", 1.1 foo, 1.2, 1.3 bar" H1 H2) as (Ha & Hb & _).
  split; [exact Ha|exact Hb].
Defined.

Lemma Via_protocol_gets_HTTP_prefix_witness :
  isWord "1.0" = true /\ isWord "foo" = true /\
  atElemEnd ", FSTR/3 bar" = true /\
  items (Via (setLines ∅ "Via" ["1.0" +:+ " " +:+ "foo" +:+ ", FSTR/3 bar"]))
  = [mkViaEntry "HTTP/1.0" "foo" ""; mkViaEntry "FSTR/3" "bar" ""].
Proof.
  assert (isWord "1.0" = true) as H1 by reflexivity.
  assert (isWord "foo" = true) as H2 by reflexivity.
  assert (atElemEnd ", FSTR/3 bar" = true) as H3 by reflexivity.
  split; [exact H1|]. split; [exact H2|]. split; [exact H3|].
  exact (proj1 Via_protocol_gets_HTTP_prefix ∅ "1.0" "foo" ", FSTR/3 bar"
           H1 H2 H3).
Defined.

(** C7, as read before amendment, fails: a date in the form of RFC 850 is
    not in the fixed HTTP date format, and [Warning] returns its entry
    with that date, not with the zero time. *)
Lemma Warning_reads_a_date_in_RFC850_form :
  parseTimeFormat "Saturday, 06-Jul-19 05:45:48 GMT" = None /\
  Warning zeroTime ParseTime
    (setLines ∅ "Warning"
       [warningWire 299 "-" "good" (Some "Saturday, 06-Jul-19 05:45:48 GMT")])
  = mkSlice [mkWarningEntry 299 "-" "good" (mkTime 2019 7 6 5 45 48)] /\
  IsZero (mkTime 2019 7 6 5 45 48) = false.
Proof. split; [reflexivity|]. split; reflexivity. Qed.

Lemma Warning_bad_date_is_zero_time_witness :
  0 <= 299 <= maxInt /\ isWord "-" = true /\ ParseTime "bad date" = None /\
  Warning zeroTime ParseTime
    (setLines ∅ "Warning" [warningWire 299 "-" "good" (Some "bad date")])
  = mkSlice [mkWarningEntry 299 "-" "good" zeroTime].
Proof.
  assert (0 <= 299 <= maxInt) as H1 by (unfold maxInt; lia).
  split; [exact H1|]. split; [reflexivity|]. split; [reflexivity|].
  apply (proj2 (Warning_bad_date_is_zero_time zeroTime ParseTime) ∅ 299 "-"
           "good" "bad date" H1); reflexivity.
Defined.

Lemma Forwarded_unterminated_value_keeps_earlier_pairs_witness :
  let ps := [("for", "1.2.3.4"); ("Proto", "HTTPS")] in
  Forall (fun p => isName (fst p) = true) ps /\ isName "by" = true /\
  snd (quotedBody "open;host=x, for=y") = false /\
  Forwarded (setLines ∅ "Forwarded"
               [seqPairs ps ("by" +:+ "=" +:+ String "034" "open;host=x, for=y")])
  = mkSlice [mkForwardedElem "" "1.2.3.4" "" "https" None].
Proof.
  intros ps.
  assert (Forall (fun p => isName (fst p) = true) ps) as H by (repeat constructor).
  split; [exact H|]. split; [reflexivity|]. split; [reflexivity|].
  apply (Forwarded_unterminated_value_keeps_earlier_pairs ∅ ps "by"
           "open;host=x, for=y" H); reflexivity.
Defined.

Lemma Forwarded_Ext_without_standard_keys_and_last_value_wins_witness :
  let ps := [("for", "a"); ("x", "1"); ("For", "b"); ("x", "2")] in
  Forall (fun p => isName (fst p) = true) ps /\ ps <> [] /\
  exists e,
    Forwarded (setLines ∅ "Forwarded" [joinPairs ps]) = mkSlice [e] /\
    For e = "b" /\ By e = "" /\ Host e = "" /\ Proto e = "".
Proof.
  intros ps.
  assert (Forall (fun p => isName (fst p) = true) ps) as H by (repeat constructor).
  assert (ps <> []) as Hne by discriminate.
  split; [exact H|]. split; [exact Hne|].
  apply (proj2 Forwarded_Ext_without_standard_keys_and_last_value_wins ∅ ps
           H Hne).
Defined.

Lemma Forwarded_one_elem_per_element_witness :
  let lines := ["for=1.2.3.4, ?????,,"; " ;;; , by=x;proto=http"] in
  Forall (fun l => noByte "034" l = true) lines /\
  length (items (Forwarded (setLines ∅ "Forwarded" lines))) = 4%nat.
Proof.
  intros lines.
  assert (Forall (fun l => noByte "034" l = true) lines) as H
    by (repeat constructor).
  split; [exact H|].
  apply (proj2 (proj2 (proj2 Forwarded_one_elem_per_element)) ∅ lines H).
Defined.

(** ** The further properties at work *)

Lemma Allow_of_SetAllow_witness :
  Forall (fun m => isName m = true) ["GET"; "HEAD"; "OPTIONS"] /\
  Allow (SetAllow ∅ ["GET"; "HEAD"; "OPTIONS"])
  = mkSlice ["GET"; "HEAD"; "OPTIONS"].
Proof.
  assert (Forall (fun m => isName m = true) ["GET"; "HEAD"; "OPTIONS"]) as H.
  { apply Forall_cons. split; [reflexivity|].
    apply Forall_cons. split; [reflexivity|].
    apply Forall_cons. split; [reflexivity|constructor]. }
  split; [exact H|]. apply (Allow_of_SetAllow ∅ _ H).
Defined.

Lemma Via_of_AddVia_witness :
  let h := setLines ∅ "Via" ["1.0 foo"] in
  let e := mkViaEntry "HTTP/1.1" "bar" "" in
  wfViaEntry e = true /\ Via (AddVia h e) = mkSlice (items (Via h) ++ [e]).
Proof.
  intros h e. split; [reflexivity|]. apply (Via_of_AddVia h e). reflexivity.
Defined.

Lemma Warning_of_AddWarning_witness :
  let h := setLines ∅ "Warning" [warningWire 199 "-" "stale" None] in
  let e := mkWarningEntry 299 "gw1" "fishy" (mkTime 2019 7 6 5 45 48) in
  wfWarningEntry zeroTime ParseTime FormatTime IsZero e /\
  Warning zeroTime ParseTime (AddWarning FormatTime IsZero h e)
  = mkSlice (items (Warning zeroTime ParseTime h) ++ [e]).
Proof.
  intros h e.
  assert (wfWarningEntry zeroTime ParseTime FormatTime IsZero e) as H.
  { split; [simpl; lia|]. split; [reflexivity|].
    change (IsZero (Date e)) with false. cbv iota.
    split; [reflexivity|]. split; reflexivity. }
  split; [exact H|].
  apply (Warning_of_AddWarning zeroTime ParseTime FormatTime IsZero h e H).
Defined.

Lemma Forwarded_of_AddForwarded_witness :
  let h := setLines ∅ "Forwarded" ["for=10.0.0.1"] in
  let es := [mkForwardedElem "gw" "1.2.3.4" "" "https" None] in
  Forall (wfForwardedElem map_to_list) es /\
  items (Forwarded (AddForwarded map_to_list h es))
  = items (Forwarded h) ++ es.
Proof.
  intros h es.
  assert (Forall (wfForwardedElem map_to_list) es) as H.
  { apply Forall_cons. split; [|constructor].
    split; [split; reflexivity|]. split; [discriminate|exact I]. }
  split; [exact H|]. apply (Forwarded_of_AddForwarded map_to_list h es H).
Defined.

Lemma Vary_of_SetVary_witness :
  Forall (fun m => isName m = true) ["cookie"; "accept-encoding"] /\
  Vary (SetVary ∅ ["cookie"; "accept-encoding"])
  = mkSlice ["Cookie"; "Accept-Encoding"].
Proof.
  assert (Forall (fun m => isName m = true) ["cookie"; "accept-encoding"])
    as H.
  { apply Forall_cons. split; [reflexivity|].
    apply Forall_cons. split; [reflexivity|constructor]. }
  split; [exact H|]. apply (Vary_of_SetVary ∅ _ H).
Defined.

Lemma Vary_of_AddVary_witness :
  let h := setLines ∅ "Vary" ["cookie"] in
  Forall (fun m => isName m = true) ["ACCEPT"] /\
  items (Vary (AddVary h ["ACCEPT"])) = items (Vary h) ++ ["Accept"].
Proof.
  intros h.
  assert (Forall (fun m => isName m = true) ["ACCEPT"]) as H.
  { apply Forall_cons. split; [reflexivity|constructor]. }
  split; [exact H|]. apply (Vary_of_AddVary h _ H).
Defined.

(** A stand-in for [strconv.Atoi] to run [nodeAddr] with: the decimal
    reading of leading digits, 0 without them. *)
Lemma nodeAddr_splits_at_the_last_colon_witness :
  let atoi := fun s => Z.max 0 (fst (number s)) in
  noByte ":" "8080" = true /\ noByte "]" "8080" = true /\
  nodeAddr (fun s => s) atoi ("[2001:db8::1]" +:+ ":" +:+ "8080")
  = ("2001:db8::1", 8080).
Proof.
  intros atoi. split; [reflexivity|]. split; [reflexivity|].
  apply (nodeAddr_splits_at_the_last_colon (fun s => s) atoi "[2001:db8::1]"
           "8080"); reflexivity.
Defined.

Lemma nodeAddr_of_bracketed_address_witness :
  let atoi := fun s => Z.max 0 (fst (number s)) in
  noByte "]" "2001:db8::1" = true /\
  nodeAddr (fun s => s) atoi ("[" +:+ "2001:db8::1" +:+ "]")
  = ("2001:db8::1", 0).
Proof.
  intros atoi. split; [reflexivity|].
  apply (nodeAddr_of_bracketed_address (fun s => s) atoi "2001:db8::1").
  reflexivity.
Defined.

Lemma nodeAddr_without_colon_witness :
  let atoi := fun s => Z.max 0 (fst (number s)) in
  noByte ":" "192.0.2.43" = true /\
  nodeAddr (fun s => s) atoi "192.0.2.43" = ("192.0.2.43", 0).
Proof.
  intros atoi. split; [reflexivity|].
  apply (nodeAddr_without_colon (fun s => s) atoi "192.0.2.43"). reflexivity.
Defined.

Lemma ForAddr_of_bracketed_address_with_port_witness :
  let atoi := fun s => Z.max 0 (fst (number s)) in
  noByte ":" "47011" = true /\ noByte "]" "47011" = true /\
  exists e,
    Forwarded (setLines ∅ "Forwarded"
                 [joinPairs [("for", "[" +:+ "2001:db8:cafe::17" +:+ "]"
                                      +:+ ":" +:+ "47011")]])
    = mkSlice [e] /\
    ForAddr (fun s => s) atoi e = ("2001:db8:cafe::17", 47011).
Proof.
  intros atoi. split; [reflexivity|]. split; [reflexivity|].
  apply (ForAddr_of_bracketed_address_with_port (fun s => s) atoi ∅
           "2001:db8:cafe::17" "47011"); reflexivity.
Defined.

Lemma Forwarded_name_without_value_ends_the_element_witness :
  let ps := [("for", "1.2.3.4")] in
  Forall (fun p => isName (fst p) = true) ps /\ isName "secure" = true /\
  headFails isTokenChar ";by=gw" = true /\ peekIs ";by=gw" "=" = false /\
  noByte "," ";by=gw" = true /\
  Forwarded (setLines ∅ "Forwarded" [seqPairs ps ("secure" +:+ ";by=gw")])
  = mkSlice [mkForwardedElem "" "1.2.3.4" "" "" None].
Proof.
  intros ps.
  assert (Forall (fun p => isName (fst p) = true) ps) as H.
  { apply Forall_cons. split; [reflexivity|constructor]. }
  split; [exact H|]. repeat (split; [reflexivity|]).
  apply (Forwarded_name_without_value_ends_the_element ∅ ps "secure" ";by=gw"
           H); reflexivity.
Defined.

Lemma Forwarded_last_extension_value_wins_witness :
  let ps := [("x", "1"); ("for", "a"); ("X", "2")] in
  Forall (fun p => isName (fst p) = true) ps /\ ps <> [] /\
  exists e,
    Forwarded (setLines ∅ "Forwarded" [joinPairs ps]) = mkSlice [e] /\
    default ∅ (Ext e) !! "x" = Some "2" /\ default ∅ (Ext e) !! "y" = None.
Proof.
  intros ps.
  assert (Forall (fun p => isName (fst p) = true) ps) as H.
  { apply Forall_cons. split; [reflexivity|].
    apply Forall_cons. split; [reflexivity|].
    apply Forall_cons. split; [reflexivity|constructor]. }
  assert (ps <> []) as Hne by discriminate.
  split; [exact H|]. split; [exact Hne|].
  destruct (Forwarded_last_extension_value_wins ∅ ps H Hne) as (e & He & Hk).
  exists e. split; [exact He|]. split.
  - apply (Hk "x"). reflexivity.
  - apply (Hk "y"). reflexivity.
Defined.

Lemma Warning_reads_a_wire_element_witness :
  0 <= 299 <= maxInt /\ isWord "-" = true /\
  Warning zeroTime ParseTime
    (setLines ∅ "Warning"
       [warningWire 299 "-" "good" (Some "Sat, 06 Jul 2019 05:45:48 GMT")])
  = mkSlice [mkWarningEntry 299 "-" "good" (mkTime 2019 7 6 5 45 48)].
Proof.
  assert (0 <= 299 <= maxInt) as H1 by (unfold maxInt; lia).
  split; [exact H1|]. split; [reflexivity|].
  apply (Warning_reads_a_wire_element zeroTime ParseTime ∅ 299 "-" "good"
           (Some "Sat, 06 Jul 2019 05:45:48 GMT") H1).
  reflexivity.
Defined.

Lemma Forwarded_skips_a_leading_semicolon_witness :
  nextInLine false "for=1.2.3.4;by=gw, for=x" = Some "for=1.2.3.4;by=gw, for=x" /\
  Forwarded (setLines ∅ "Forwarded" [";" +:+ "for=1.2.3.4;by=gw, for=x"; ""])
  = Forwarded (setLines ∅ "Forwarded" ["for=1.2.3.4;by=gw, for=x"; ""]).
Proof.
  split; [reflexivity|].
  apply (Forwarded_skips_a_leading_semicolon ∅ "for=1.2.3.4;by=gw, for=x" [""]).
  reflexivity.
Defined.

Lemma Forwarded_names_are_case_insensitive_witness :
  let ps := [("For", "1.2.3.4"); ("PROTO", "https"); ("Ext", "1")] in
  Forall (fun p => isName (fst p) = true) ps /\ ps <> [] /\
  Forwarded (setLines ∅ "Forwarded" [joinPairs ps])
  = Forwarded (setLines ∅ "Forwarded" [joinPairs (lowerNames ps)]).
Proof.
  intros ps.
  assert (Forall (fun p => isName (fst p) = true) ps) as H.
  { apply Forall_cons. split; [reflexivity|].
    apply Forall_cons. split; [reflexivity|].
    apply Forall_cons. split; [reflexivity|constructor]. }
  assert (ps <> []) as Hne by discriminate.
  split; [exact H|]. split; [exact Hne|].
  apply (Forwarded_names_are_case_insensitive ∅ ps H Hne).
Defined.
